(** * libfds converters: IPFIX field codecs and text rendering

    A shallow embedding of [include/libfds/converters.h] and
    [src/converters/converters.c]: the big-endian integer codecs, the
    timestamp codecs, the renderer dispatch table and the UTF-8 escaper,
    together with the properties the specification states about them.

    Conventions of the embedding.
    - A C buffer is a [list byte]; a pointer into it is the list from that
      address on ([drop i p] is [p + i]).  Reading past the end of the list
      yields a zero byte and writing past it is dropped: both are undefined
      in C, and the theorems that depend on a write landing carry the
      caller's obligation that the buffer is as long as its declared size.
    - [size_t] sizes and positions are [nat]: they count bytes of buffers
      that exist, for which no [size_t] operation of these functions wraps.
      The conversion of a position to the [int] result is written out
      ([to_int32]).
    - Fixed-width integers are [Z] with every conversion written out
      ([to_uint32], [to_int64], ...).
    - An output parameter ([uint64_t *value], [struct timespec *ts]) is
      passed in as its previous content and returned with the status.
    - The host byte order is a parameter: the header supports little- and
      big-endian machines and every result below holds for both. *)

From Stdlib Require Import ZArith Lia List Bool.
From stdpp Require Import base list.
From coqutil Require Import Byte Word.LittleEndianList.
Import ListNotations.
Local Open Scope Z_scope.

(** ** Status codes *)

(** Modelled from the spec: [<libfds/api.h>], which defines the status
    codes, is not among the sources.  Section 6 of the specification lists
    them as stable numeric codes and the header documents every result
    greater than or equal to zero of a renderer as a success, so the error
    codes are negative and pairwise distinct; nothing else about their
    values is used. *)
Definition FDS_OK : Z := 0.
Definition FDS_ERR_NOMEM : Z := -2.
Definition FDS_ERR_FORMAT : Z := -3.
Definition FDS_ERR_ARG : Z := -4.
Definition FDS_ERR_TRUNC : Z := -5.
Definition FDS_ERR_BUFFER : Z := -7.

(** ** Element types *)

(** Modelled from the spec: [enum fds_iemgr_element_type] is declared in
    [iemgr.h], which is not among the sources.  The conversion table of
    [fds_field2str_be] is indexed by it and names its first twenty
    constants in order; the structured types of RFC 6313 follow them.  The
    enumeration has no negative constant, so a tag is a [nat]. *)
Definition FDS_ET_OCTET_ARRAY : nat := 0.
Definition FDS_ET_UNSIGNED_8 : nat := 1.
Definition FDS_ET_UNSIGNED_16 : nat := 2.
Definition FDS_ET_UNSIGNED_32 : nat := 3.
Definition FDS_ET_UNSIGNED_64 : nat := 4.
Definition FDS_ET_SIGNED_8 : nat := 5.
Definition FDS_ET_SIGNED_16 : nat := 6.
Definition FDS_ET_SIGNED_32 : nat := 7.
Definition FDS_ET_SIGNED_64 : nat := 8.
Definition FDS_ET_FLOAT_32 : nat := 9.
Definition FDS_ET_FLOAT_64 : nat := 10.
Definition FDS_ET_BOOLEAN : nat := 11.
Definition FDS_ET_MAC_ADDRESS : nat := 12.
Definition FDS_ET_STRING : nat := 13.
Definition FDS_ET_DATE_TIME_SECONDS : nat := 14.
Definition FDS_ET_DATE_TIME_MILLISECONDS : nat := 15.
Definition FDS_ET_DATE_TIME_MICROSECONDS : nat := 16.
Definition FDS_ET_DATE_TIME_NANOSECONDS : nat := 17.
Definition FDS_ET_IPV4_ADDRESS : nat := 18.
Definition FDS_ET_IPV6_ADDRESS : nat := 19.
Definition FDS_ET_BASIC_LIST : nat := 20.
Definition FDS_ET_SUB_TEMPLATE_LIST : nat := 21.
Definition FDS_ET_SUB_TEMPLATE_MULTILIST : nat := 22.

(** [enum fds_convert_time_fmt] (converters.h) *)
Definition FDS_CONVERT_TF_SEC_UTC : Z := 0x01.
Definition FDS_CONVERT_TF_MSEC_UTC : Z := 0x02.
Definition FDS_CONVERT_TF_USEC_UTC : Z := 0x03.
Definition FDS_CONVERT_TF_NSEC_UTC : Z := 0x04.

(** Time difference between NTP and UNIX epoch in seconds *)
Definition FDS_CONVERT_EPOCHS_DIFF : Z := 2208988800.

(** [struct timespec]: [time_t tv_sec] and [long tv_nsec], both 64 bits. *)
Record timespec : Set := { tv_sec : Z; tv_nsec : Z }.

(** ** Fixed-width integers *)

Definition to_unsigned (bits : Z) (z : Z) : Z := z mod 2 ^ bits.
Definition to_signed (bits : Z) (z : Z) : Z :=
  (z + 2 ^ (bits - 1)) mod 2 ^ bits - 2 ^ (bits - 1).

Definition to_uint8 := to_unsigned 8.
Definition to_uint16 := to_unsigned 16.
Definition to_uint32 := to_unsigned 32.
Definition to_uint64 := to_unsigned 64.
Definition to_int8 := to_signed 8.
Definition to_int16 := to_signed 16.
Definition to_int32 := to_signed 32.
Definition to_int64 := to_signed 64.

Definition UINT8_MAX : Z := 255.
Definition UINT16_MAX : Z := 65535.
Definition UINT32_MAX : Z := 4294967295.
Definition UINT64_MAX : Z := 18446744073709551615.
Definition INT8_MAX : Z := 127.
Definition INT8_MIN : Z := -128.
Definition INT16_MAX : Z := 32767.
Definition INT16_MIN : Z := -32768.
Definition INT32_MAX : Z := 2147483647.
Definition INT32_MIN : Z := -2147483648.
Definition INT64_MAX : Z := 9223372036854775807.
Definition INT64_MIN : Z := -9223372036854775808.

(** ** Memory *)

(** [p[i]] *)
Definition mem_read (p : list byte) (i : nat) : byte := nth i p Byte.x00.

(** The [n] bytes at [p]. *)
Definition load_bytes (p : list byte) (n : nat) : list byte :=
  map (mem_read p) (seq 0 n).

(** [memcpy(p + off, src, n)] *)
Definition memcpy (p : list byte) (off : nat) (src : list byte) (n : nat)
  : list byte :=
  list_inserts off (load_bytes src n) p.

(** [p[i] = b] *)
Definition mem_write (p : list byte) (i : nat) (b : byte) : list byte :=
  <[i := b]> p.

(** ** Byte order *)

Inductive byte_order : Set := LittleEndian | BigEndian.

(** Reversal of the [n] bytes of a value ([bswap_16/32/64]). *)
Definition bswap (n : nat) (v : Z) : Z := le_combine (rev (le_split n v)).

Section Host.

Variable host : byte_order.

(** The object representation of an [n]-byte integer (two's complement for
    a negative one) and the value of an [n]-byte unsigned object. *)
Definition object_bytes (n : nat) (v : Z) : list byte :=
  match host with
  | LittleEndian => le_split n v
  | BigEndian => rev (le_split n v)
  end.

Definition object_value (bs : list byte) : Z :=
  match host with
  | LittleEndian => le_combine bs
  | BigEndian => le_combine (rev bs)
  end.

Definition host_to_be (n : nat) (v : Z) : Z :=
  match host with
  | LittleEndian => bswap n v
  | BigEndian => v
  end.

Definition htobe64 : Z -> Z := host_to_be 8.
Definition be64toh : Z -> Z := host_to_be 8.
Definition htonl : Z -> Z := host_to_be 4.
Definition ntohl : Z -> Z := host_to_be 4.
Definition htons : Z -> Z := host_to_be 2.
Definition ntohs : Z -> Z := host_to_be 2.

(** [*(uintN_t * ) p = v] and [*(const uintN_t * ) p], with N = 8 * n. *)
Definition store (n : nat) (p : list byte) (v : Z) : list byte :=
  memcpy p 0 (object_bytes n v) n.

Definition load (n : nat) (p : list byte) : Z :=
  object_value (load_bytes p n).

(** The same through a pointer to [uint32_t[2]]: [( *parts)[i] = v] and
    [( *parts)[i]]. *)
Definition store_part (p : list byte) (i : nat) (v : Z) : list byte :=
  memcpy p (4 * i) (object_bytes 4 v) 4.

Definition load_part (p : list byte) (i : nat) : Z :=
  load 4 (drop (4 * i) p).

(** ** Integer setters (converters.h) *)

Definition fds_set_uint_be (field : list byte) (size : nat) (value : Z)
  : Z * list byte :=
  match size with
  | 8%nat => (FDS_OK, store 8 field (htobe64 value))
  | 4%nat =>
      if value >? UINT32_MAX then (FDS_ERR_TRUNC, store 4 field UINT32_MAX)
      else (FDS_OK, store 4 field (htonl (to_uint32 value)))
  | 2%nat =>
      if value >? UINT16_MAX then (FDS_ERR_TRUNC, store 2 field UINT16_MAX)
      else (FDS_OK, store 2 field (htons (to_uint16 value)))
  | 1%nat =>
      if value >? UINT8_MAX then (FDS_ERR_TRUNC, store 1 field UINT8_MAX)
      else (FDS_OK, store 1 field (to_uint8 value))
  | _ =>
      (* Other sizes (3,5,6,7) *)
      if (size =? 0)%nat || (8 <? size)%nat then (FDS_ERR_ARG, field)
      else
        let over_limit := to_uint64 (Z.shiftl 1 (Z.of_nat size * 8)) in
        if value >=? over_limit then
          let value := UINT64_MAX in
          (FDS_ERR_TRUNC, memcpy field 0 (object_bytes 8 value) size)
        else
          let value := htobe64 value in
          (FDS_OK,
           memcpy field 0 (drop (8 - size) (object_bytes 8 value)) size)
  end.

Definition fds_set_int_be (field : list byte) (size : nat) (value : Z)
  : Z * list byte :=
  match size with
  | 8%nat => (FDS_OK, store 8 field (to_int64 (htobe64 (to_uint64 value))))
  | 4%nat =>
      if value >? INT32_MAX then
        (FDS_ERR_TRUNC,
         store 4 field (to_int32 (htonl (to_uint32 (to_int32 INT32_MAX)))))
      else if value <? INT32_MIN then
        (FDS_ERR_TRUNC,
         store 4 field (to_int32 (htonl (to_uint32 (to_int32 INT32_MIN)))))
      else
        (FDS_OK, store 4 field (to_int32 (htonl (to_uint32 (to_int32 value)))))
  | 2%nat =>
      if value >? INT16_MAX then
        (FDS_ERR_TRUNC,
         store 2 field (to_int16 (htons (to_uint16 (to_int16 INT16_MAX)))))
      else if value <? INT16_MIN then
        (FDS_ERR_TRUNC,
         store 2 field (to_int16 (htons (to_uint16 (to_int16 INT16_MIN)))))
      else
        (FDS_OK, store 2 field (to_int16 (htons (to_uint16 (to_int16 value)))))
  | 1%nat =>
      if value >? INT8_MAX then (FDS_ERR_TRUNC, store 1 field INT8_MAX)
      else if value <? INT8_MIN then (FDS_ERR_TRUNC, store 1 field INT8_MIN)
      else (FDS_OK, store 1 field (to_int8 value))
  | _ =>
      (* Other sizes (3,5,6,7) *)
      if (size =? 0)%nat || (8 <? size)%nat then (FDS_ERR_ARG, field)
      else
        let over_limit := Z.shiftr INT64_MAX (Z.of_nat ((8 - size) * 8)) in
        let '(value, over) :=
          if value >? over_limit then
            (to_int64 (htobe64 (to_uint64 over_limit)), true)
          else if value <? Z.lnot over_limit then
            (to_int64 (htobe64 (to_uint64 (Z.lnot over_limit))), true)
          else
            (to_int64 (htobe64 (to_uint64 value)), false) in
        (if over then FDS_ERR_TRUNC else FDS_OK,
         memcpy field 0 (drop (8 - size) (object_bytes 8 value)) size)
  end.

(** ** Integer getters (converters.h) *)

Definition fds_get_uint_be (field : list byte) (size : nat) (value : Z)
  : Z * Z :=
  match size with
  | 8%nat => (FDS_OK, be64toh (load 8 field))
  | 4%nat => (FDS_OK, ntohl (load 4 field))
  | 2%nat => (FDS_OK, ntohs (load 2 field))
  | 1%nat => (FDS_OK, load 1 field)
  | _ =>
      (* Other sizes (3,5,6,7) *)
      if (size =? 0)%nat || (8 <? size)%nat then (FDS_ERR_ARG, value)
      else
        let new_value := 0 in
        let new_value :=
          object_value
            (memcpy (object_bytes 8 new_value) (8 - size) field size) in
        (FDS_OK, be64toh new_value)
  end.

Definition fds_get_int_be (field : list byte) (size : nat) (value : Z)
  : Z * Z :=
  match size with
  | 8%nat => (FDS_OK, to_int64 (be64toh (load 8 field)))
  | 4%nat => (FDS_OK, to_int32 (ntohl (load 4 field)))
  | 2%nat => (FDS_OK, to_int16 (ntohs (load 2 field)))
  | 1%nat => (FDS_OK, to_int8 (load 1 field))
  | _ =>
      (* Other sizes (3,5,6,7) *)
      if (size =? 0)%nat || (8 <? size)%nat then (FDS_ERR_ARG, value)
      else
        (* Sign extension from the first bit of the first byte *)
        let new_value :=
          if Z.land (byte.unsigned (mem_read field 0)) 0x80 =? 0
          then 0 else -1 in
        let new_value :=
          to_int64
            (object_value
               (memcpy (object_bytes 8 new_value) (8 - size) field size)) in
        (FDS_OK, to_int64 (be64toh (to_uint64 new_value)))
  end.

(** ** Timestamp setters (converters.h) *)

(** The size test shared by the four timestamp functions:
    [(size != sizeof(uint64_t) || type == FDS_ET_DATE_TIME_SECONDS)
     && (size != sizeof(uint32_t) || type != FDS_ET_DATE_TIME_SECONDS)] *)
Definition datetime_size_bad (size : nat) (type : nat) : bool :=
  (negb (size =? 8)%nat || (type =? FDS_ET_DATE_TIME_SECONDS)%nat)
  && (negb (size =? 4)%nat || negb (type =? FDS_ET_DATE_TIME_SECONDS)%nat).

Definition fds_set_datetime_lp_be (field : list byte) (size : nat)
    (type : nat) (value : Z) : Z * list byte :=
  let S1E3 := 1000 in
  if datetime_size_bad size type then (FDS_ERR_ARG, field)
  else if (type =? FDS_ET_DATE_TIME_SECONDS)%nat then
    (FDS_OK, store 4 field (htonl (to_uint32 (value / S1E3))))
  else if (type =? FDS_ET_DATE_TIME_MILLISECONDS)%nat then
    (FDS_OK, store 8 field (htobe64 value))
  else if (type =? FDS_ET_DATE_TIME_MICROSECONDS)%nat
          || (type =? FDS_ET_DATE_TIME_NANOSECONDS)%nat then
    (* Conversion from UNIX timestamp to NTP 64bit timestamp *)
    let field :=
      store_part field 0
        (htonl (to_uint32 (to_uint64 (value / S1E3 + FDS_CONVERT_EPOCHS_DIFF))))
    in
    let fraction :=
      to_uint32 (to_uint64 (Z.shiftl (value mod S1E3) 32) / S1E3) in
    let fraction :=
      if (type =? FDS_ET_DATE_TIME_MICROSECONDS)%nat
      then Z.land fraction 0xFFFFF800 else fraction in
    (FDS_OK, store_part field 1 (htonl fraction))
  else (FDS_ERR_ARG, field).

Definition fds_set_datetime_hp_be (field : list byte) (size : nat)
    (type : nat) (ts : timespec) : Z * list byte :=
  let S1E3 := 1000 in
  let S1E6 := 1000000 in
  let S1E9 := 1000000000 in
  if datetime_size_bad size type then (FDS_ERR_ARG, field)
  else if (type =? FDS_ET_DATE_TIME_SECONDS)%nat then
    (FDS_OK, store 4 field (htonl (to_uint32 (tv_sec ts))))
  else if (type =? FDS_ET_DATE_TIME_MILLISECONDS)%nat then
    (FDS_OK,
     store 8 field
       (htobe64 (to_uint64 (to_uint64 (to_uint64 (tv_sec ts) * S1E3)
                            + to_uint64 (tv_nsec ts) / S1E6))))
  else if (type =? FDS_ET_DATE_TIME_MICROSECONDS)%nat
          || (type =? FDS_ET_DATE_TIME_NANOSECONDS)%nat then
    (* Conversion from UNIX timestamp to NTP 64bit timestamp *)
    let field :=
      store_part field 0
        (htonl (to_uint32 (to_uint32 (tv_sec ts) + FDS_CONVERT_EPOCHS_DIFF)))
    in
    let fraction :=
      to_uint32 (to_uint64 (Z.shiftl (to_uint64 (tv_nsec ts)) 32) / S1E9) in
    let fraction :=
      if (type =? FDS_ET_DATE_TIME_MICROSECONDS)%nat
      then Z.land fraction 0xFFFFF800 else fraction in
    (FDS_OK, store_part field 1 (htonl fraction))
  else (FDS_ERR_ARG, field).

(** ** Timestamp getters (converters.h) *)

Definition fds_get_datetime_lp_be (field : list byte) (size : nat)
    (type : nat) (value : Z) : Z * Z :=
  let S1E3 := 1000 in
  if datetime_size_bad size type then (FDS_ERR_ARG, value)
  else if (type =? FDS_ET_DATE_TIME_SECONDS)%nat then
    (FDS_OK, to_uint64 (ntohl (load 4 field) * S1E3))
  else if (type =? FDS_ET_DATE_TIME_MILLISECONDS)%nat then
    (FDS_OK, be64toh (load 8 field))
  else if (type =? FDS_ET_DATE_TIME_MICROSECONDS)%nat
          || (type =? FDS_ET_DATE_TIME_NANOSECONDS)%nat then
    (* Conversion from NTP 64bit timestamp to UNIX timestamp *)
    let result :=
      to_uint64
        (to_uint64 (ntohl (load_part field 0) - FDS_CONVERT_EPOCHS_DIFF)
         * S1E3) in
    let fraction := ntohl (load_part field 1) in
    let fraction :=
      if (type =? FDS_ET_DATE_TIME_MICROSECONDS)%nat
      then Z.land fraction 0xFFFFF800 else fraction in
    let result :=
      to_uint64 (result + Z.shiftr (to_uint64 (fraction * S1E3)) 32) in
    (FDS_OK, result)
  else (FDS_ERR_ARG, value).

Definition fds_get_datetime_hp_be (field : list byte) (size : nat)
    (type : nat) (ts : timespec) : Z * timespec :=
  let S1E3 := 1000 in
  let S1E6 := 1000000 in
  let S1E9 := 1000000000 in
  if datetime_size_bad size type then (FDS_ERR_ARG, ts)
  else if (type =? FDS_ET_DATE_TIME_SECONDS)%nat then
    (FDS_OK, {| tv_sec := to_int64 (ntohl (load 4 field)); tv_nsec := 0 |})
  else if (type =? FDS_ET_DATE_TIME_MILLISECONDS)%nat then
    let new_value := be64toh (load 8 field) in
    (FDS_OK,
     {| tv_sec := to_int64 (new_value / S1E3);
        tv_nsec := to_int64 (to_uint64 ((new_value mod S1E3) * S1E6)) |})
  else if (type =? FDS_ET_DATE_TIME_MICROSECONDS)%nat
          || (type =? FDS_ET_DATE_TIME_NANOSECONDS)%nat then
    (* Conversion from NTP 64bit timestamp to UNIX timestamp *)
    let sec :=
      to_int64
        (to_uint64 (ntohl (load_part field 0) - FDS_CONVERT_EPOCHS_DIFF)) in
    let fraction := ntohl (load_part field 1) in
    let fraction :=
      if (type =? FDS_ET_DATE_TIME_MICROSECONDS)%nat
      then Z.land fraction 0xFFFFF800 else fraction in
    (* Rounding error correction *)
    let fraction := to_uint64 (fraction * S1E9) in
    let fraction := Z.shiftr fraction 31 in
    let fraction :=
      if Z.land fraction 0x1 =? 0 then fraction
      else to_uint64 (fraction + 1) in
    (FDS_OK, {| tv_sec := sec; tv_nsec := to_int64 (Z.shiftr fraction 1) |})
  else (FDS_ERR_ARG, ts).

(** ** Float setter (converters.c) *)

Section Float.

(** The platform's IEEE-754 arithmetic is a parameter: [double_bits] and
    [float_bits] are what the unions [cast_helper] read back as [u64] after
    storing [value] to [dbl], and as [u32] after storing [(float) value] to
    [flt]. *)
Variable double : Type.
Variables double_bits float_bits : double -> Z.
Variable double_lt : double -> double -> bool.
Variable double_neg : double -> double.
Variable isnormal : double -> bool.
Variable FLT_MAX : double.

Definition fds_set_float_be (field : list byte) (size : nat) (value : double)
  : Z * list byte :=
  if (size =? 8)%nat then
    (FDS_OK, store 8 field (htobe64 (double_bits value)))
  else if (size =? 4)%nat then
    let '(u32, over) :=
      if double_lt value (double_neg FLT_MAX) && isnormal value then
        (float_bits (double_neg FLT_MAX), true)
      else if double_lt FLT_MAX value && isnormal value then
        (float_bits FLT_MAX, true)
      else (float_bits value, false) in
    (if over then FDS_ERR_TRUNC else FDS_OK, store 4 field (htonl u32))
  else (FDS_ERR_ARG, field).

(** The float getter (converters.h) reads the unions the other way:
    [double_of_u64] is [dbl] after a store to [u64], [float_of_u32] is
    [flt], converted to [double], after a store to [u32]. *)
Variables double_of_u64 float_of_u32 : Z -> double.

Definition fds_get_float_be (field : list byte) (size : nat) (value : double)
  : Z * double :=
  if (size =? 8)%nat then (FDS_OK, double_of_u64 (be64toh (load 8 field)))
  else if (size =? 4)%nat then (FDS_OK, float_of_u32 (ntohl (load 4 field)))
  else (FDS_ERR_ARG, value).

End Float.

(** ** Setters of the remaining types (converters.h) *)

Definition fds_set_bool (field : list byte) (size : nat) (value : bool)
  : Z * list byte :=
  if negb (size =? 1)%nat then (FDS_ERR_ARG, field)
  else
    (* According to the RFC 7011, section 6.1.5. "true" == 1 and "false" == 2 *)
    (FDS_OK, mem_write field 0 (if value then Byte.x01 else Byte.x02)).

Definition fds_set_ip (field : list byte) (size : nat) (value : list byte)
  : Z * list byte :=
  if negb (size =? 4)%nat && negb (size =? 16)%nat then (FDS_ERR_ARG, field)
  else (FDS_OK, memcpy field 0 value size).

Definition fds_set_mac (field : list byte) (size : nat) (value : list byte)
  : Z * list byte :=
  if negb (size =? 6)%nat then (FDS_ERR_ARG, field)
  else (FDS_OK, memcpy field 0 value 6).

Definition fds_set_octet_array (field : list byte) (size : nat)
    (value : list byte) : Z * list byte :=
  if (size =? 0)%nat then (FDS_ERR_ARG, field)
  else (FDS_OK, memcpy field 0 value size).

Definition fds_set_string (field : list byte) (size : nat)
    (value : list byte) : Z * list byte :=
  if (size =? 0)%nat then (FDS_ERR_ARG, field)
  else (FDS_OK, memcpy field 0 value size).

(** ** Simple getters used by the renderers (converters.h) *)

Definition fds_get_bool (field : list byte) (size : nat) (value : bool)
  : Z * bool :=
  if negb (size =? 1)%nat then (FDS_ERR_ARG, value)
  else
    match mem_read field 0 with
    | Byte.x01 => (FDS_OK, true)  (* True *)
    | Byte.x02 => (FDS_OK, false) (* False *)
    | _ => (FDS_ERR_ARG, value)
    end.

(** ** Getters of the remaining types (converters.h) *)

(** The output parameter [value] is a buffer of the caller. *)
Definition fds_get_ip (field : list byte) (size : nat) (value : list byte)
  : Z * list byte :=
  if negb (size =? 4)%nat && negb (size =? 16)%nat then (FDS_ERR_ARG, value)
  else (FDS_OK, memcpy value 0 field size).

Definition fds_get_mac (field : list byte) (size : nat) (value : list byte)
  : Z * list byte :=
  if negb (size =? 6)%nat then (FDS_ERR_ARG, value)
  else (FDS_OK, memcpy value 0 field 6).

Definition fds_get_octet_array (field : list byte) (size : nat)
    (value : list byte) : Z * list byte :=
  (FDS_OK, memcpy value 0 field size).

Definition fds_get_string (field : list byte) (size : nat)
    (value : list byte) : Z * list byte :=
  (FDS_OK, memcpy value 0 field size).

(** ** UTF-8 character classification (converters.c) *)

Definition utf8char_is_valid (str : list byte) (len : nat) : Z :=
  let str_ i := byte.unsigned (mem_read str i) in
  if Z.land (str_ 0%nat) 0x80 =? 0 then 1 (* 0xxx xxxx *)
  else if (Z.land (str_ 0%nat) 0xE0 =? 0xC0) && (2 <=? len)%nat then
    (* 110x xxxx + 1 more byte *)
    if Z.land (str_ 1%nat) 0xC0 =? 0x80 then 2 else 0
  else if (Z.land (str_ 0%nat) 0xF0 =? 0xE0) && (3 <=? len)%nat then
    (* 1110 xxxx + 2 more bytes *)
    let tail := load 2 (drop 1 str) in
    if Z.land tail 0xC0C0 =? 0x8080 then 3 else 0
  else if (Z.land (str_ 0%nat) 0xF8 =? 0xF0) && (4 <=? len)%nat then
    (* 1111 0xxx + 3 more bytes *)
    let tail := load 4 str in
    (* Change the first byte for easier comparision *)
    let tail := object_value (mem_write (object_bytes 4 tail) 0 Byte.x80) in
    if Z.land tail 0xC0C0C0C0 =? 0x80808080 then 4 else 0
  else 0. (* Invalid character *)

Definition utf8char_is_control (str : list byte) (len : nat) : bool :=
  let c := byte.unsigned (mem_read str 0) in
  if (c <=? 0x1F) || (c =? 0x7F) then true (* C0 control characters *)
  else if (0x80 <=? c) && (c <=? 0x9F) then true (* C1 control characters *)
  else false.

(** [Some c] stands for the result [true] with [*repl = c], [None] for
    [false], which leaves [*repl] as it was. *)
Definition utf8char_is_escapable (str : list byte) (len : nat)
  : option byte :=
  if negb (Z.land (byte.unsigned (mem_read str 0)) 0x80 =? 0) then None
  else
    match mem_read str 0 with
    | Byte.x07 => Some Byte.x61 (* '\a' -> 'a' *)
    | Byte.x0a => Some Byte.x6e (* '\n' -> 'n' *)
    | Byte.x0d => Some Byte.x72 (* '\r' -> 'r' *)
    | Byte.x09 => Some Byte.x74 (* '\t' -> 't' *)
    | Byte.x08 => Some Byte.x62 (* '\b' -> 'b' *)
    | Byte.x0c => Some Byte.x66 (* '\f' -> 'f' *)
    | Byte.x0b => Some Byte.x76 (* '\v' -> 'v' *)
    | _ => None
    end.

(** [(hex < 10) ? ('0' + hex) : ('A' - 10 + hex)] stored to a [uint8_t] *)
Definition hex_char (hex : Z) : byte :=
  byte.of_Z (if hex <? 10 then 0x30 + hex else 0x41 - 10 + hex).

(** ** The UTF-8 escaper (converters.c) *)

(** What one pass through the body of the [for] loop leaves behind: the
    variables for the next pass (after [pos_in += step]), or the value
    returned from inside the loop. *)
Inductive iteration : Type :=
| Continue (pos_in pos_copy pos_out : nat) (ptr_out : list byte)
| Return (code : Z) (ptr_out : list byte).

Definition string2str_body (field : list byte) (size str_size : nat)
    (pos_in pos_copy pos_out : nat) (ptr_out : list byte) : iteration :=
  let char_ptr := drop pos_in field in
  let char_max := (size - pos_in)%nat in (* Maximum character length *)
  let is_valid := utf8char_is_valid char_ptr char_max in
  let is_escapable := utf8char_is_escapable char_ptr char_max in
  let is_control := utf8char_is_control char_ptr char_max in
  (* Size of the current character *)
  let step := if is_valid >? 0 then Z.to_nat is_valid else 1%nat in
  if negb (is_valid =? 0) && negb (bool_decide (is_Some is_escapable))
     && negb is_control then
    (* This character will be just copied *)
    Continue (pos_in + step) pos_copy pos_out ptr_out
  else
    (* Interpretation of the character must be changed *)
    let copy_len := (pos_in - pos_copy)%nat in
    let out_remaining := (str_size - pos_out)%nat in
    (* Copy unchanged characters *)
    if (out_remaining <? copy_len)%nat then Return FDS_ERR_BUFFER ptr_out
    else
      let ptr_out := memcpy ptr_out pos_out (drop pos_copy field) copy_len in
      let out_remaining := (out_remaining - copy_len)%nat in
      let pos_out := (pos_out + copy_len)%nat in
      let pos_copy := (pos_in + 1)%nat in
      match is_escapable with
      | Some subst =>
          (* Is it an escapable character? *)
          let subst_len := 2%nat in
          if (out_remaining <? subst_len)%nat
          then Return FDS_ERR_BUFFER ptr_out
          else
            let ptr_out := mem_write ptr_out pos_out Byte.x5c (* '\\' *) in
            let ptr_out := mem_write ptr_out (pos_out + 1) subst in
            Continue (pos_in + step) pos_copy (pos_out + subst_len) ptr_out
      | None =>
          if is_control then
            (* Is it a control character? *)
            let subst_len := 4%nat in
            if (out_remaining <? subst_len)%nat
            then Return FDS_ERR_BUFFER ptr_out
            else
              let c := byte.unsigned (mem_read char_ptr 0) in
              let ptr_out := mem_write ptr_out pos_out Byte.x5c (* '\\' *) in
              let ptr_out :=
                mem_write ptr_out (pos_out + 1) Byte.x78 (* 'x' *) in
              let hex := Z.shiftr (Z.land c 0xF0) 4 in
              let ptr_out := mem_write ptr_out (pos_out + 2) (hex_char hex) in
              let hex := Z.land c 0x0F in
              let ptr_out := mem_write ptr_out (pos_out + 3) (hex_char hex) in
              Continue (pos_in + step) pos_copy (pos_out + subst_len) ptr_out
          else
            (* Invalid character -> replace with "REPLACEMENT CHARACTER" *)
            let subst_len := 3%nat in
            if (out_remaining <? subst_len)%nat
            then Return FDS_ERR_BUFFER ptr_out
            else
              (* Character U+FFFD in UTF8 encoding *)
              let ptr_out := mem_write ptr_out pos_out Byte.xef in
              let ptr_out := mem_write ptr_out (pos_out + 1) Byte.xbf in
              let ptr_out := mem_write ptr_out (pos_out + 2) Byte.xbd in
              Continue (pos_in + step) pos_copy (pos_out + subst_len) ptr_out
      end.

(** The [for] loop and the code after it.  Every pass moves [pos_in]
    forward, so [size - pos_in] passes are enough; [None] stands for running
    out of the [fuel] that bounds the passes. *)
Fixpoint string2str_loop (fuel : nat) (field : list byte)
    (size str_size : nat) (pos_in pos_copy pos_out : nat)
    (ptr_out : list byte) : option (Z * list byte) :=
  if (pos_in <? size)%nat then
    match fuel with
    | O => None
    | S fuel =>
        match string2str_body field size str_size
                pos_in pos_copy pos_out ptr_out with
        | Continue pos_in pos_copy pos_out ptr_out =>
            string2str_loop fuel field size str_size
              pos_in pos_copy pos_out ptr_out
        | Return code ptr_out => Some (code, ptr_out)
        end
    end
  else
    (* Copy the rest and add termination symbol *)
    let copy_len := (size - pos_copy)%nat in
    let out_remaining := (str_size - pos_out)%nat in
    if (out_remaining <? copy_len + 1)%nat
    then Some (FDS_ERR_BUFFER, ptr_out)
    else
      let ptr_out := memcpy ptr_out pos_out (drop pos_copy field) copy_len in
      let pos_out := (pos_out + copy_len)%nat in
      let ptr_out := mem_write ptr_out pos_out Byte.x00 in
      Some (to_int32 (Z.of_nat pos_out), ptr_out).

Definition fds_string2str (field : list byte) (size : nat)
    (str : list byte) (str_size : nat) : option (Z * list byte) :=
  if (str_size <? size + 1)%nat then
    (* The output buffer is definitely small *)
    Some (FDS_ERR_BUFFER, str)
  else string2str_loop size field size str_size 0 0 0 str.

(** Validation only.  As above, [size - idx] passes are enough. *)
Fixpoint utf8check_loop (fuel : nat) (field : list byte) (size idx : nat)
  : option Z :=
  if (idx <? size)%nat then
    match fuel with
    | O => None
    | S fuel =>
        let ptr := drop idx field in
        let remaining := (size - idx)%nat in
        let step := utf8char_is_valid ptr remaining in
        if step =? 0 then Some FDS_ERR_ARG
        else utf8check_loop fuel field size (idx + Z.to_nat step)
    end
  else Some FDS_OK.

Definition fds_string_utf8check (field : list byte) (size : nat)
  : option Z :=
  utf8check_loop size field size 0.

(** ** Renderers reached through the dispatch table (converters.c) *)

(** [int ( *converter_fn)(const void *, size_t, char *, size_t)]: the
    result and the output buffer afterwards ([None] only for a loop that
    ran out of fuel, which [fds_string2str_total] excludes). *)
Definition converter_fn : Type :=
  list byte -> nat -> list byte -> nat -> option (Z * list byte).

Definition FDS_CONVERT_STR_TRUE : list byte :=
  [Byte.x74; Byte.x72; Byte.x75; Byte.x65; Byte.x00].
Definition FDS_CONVERT_STRLEN_TRUE : nat := 5.
Definition FDS_CONVERT_STR_FALSE : list byte :=
  [Byte.x66; Byte.x61; Byte.x6c; Byte.x73; Byte.x65; Byte.x00].
Definition FDS_CONVERT_STRLEN_FALSE : nat := 6.

Definition fds_bool2str (field : list byte) (str : list byte)
    (str_size : nat) : Z * list byte :=
  let '(rc, result) := fds_get_bool field 1 false in
  if negb (rc =? 0) then (FDS_ERR_ARG, str)
  else
    let '(bool_str, bool_len) :=
      if result then (FDS_CONVERT_STR_TRUE, FDS_CONVERT_STRLEN_TRUE)
      else (FDS_CONVERT_STR_FALSE, FDS_CONVERT_STRLEN_FALSE) in
    if (str_size <? bool_len)%nat then (FDS_ERR_BUFFER, str)
    else (to_int32 (Z.of_nat (bool_len - 1)), memcpy str 0 bool_str bool_len).

(** The [while] loop of [fds_octet_array2str]: [size] counts down. *)
Fixpoint octet_array2str_loop (field_ptr : list byte) (size : nat)
    (str : list byte) (pos : nat) : list byte * nat :=
  match size with
  | O => (str, pos)
  | S size =>
      (* Convert byte to a pair of hexadecimal digits *)
      let c := byte.unsigned (mem_read field_ptr 0) in
      let byte_ := Z.shiftr (Z.land c 0xF0) 4 in
      let str := mem_write str pos (hex_char byte_) in
      let byte_ := Z.land c 0x0F in
      let str := mem_write str (pos + 1) (hex_char byte_) in
      octet_array2str_loop (drop 1 field_ptr) size str (pos + 2)
  end.

Definition fds_octet_array2str : converter_fn :=
  fun field size str str_size =>
    let real_len := (2 * size + 1)%nat in (* 2 characters per byte + '\0' *)
    if (str_size <? real_len)%nat then Some (FDS_ERR_BUFFER, str)
    else
      let '(str, pos) := octet_array2str_loop field size str 0 in
      let str := mem_write str pos Byte.x00 in
      Some (to_int32 (Z.of_nat (real_len - 1)), str).

Definition wrapper_bool : converter_fn :=
  fun field size str str_size =>
    if negb (size =? 1)%nat then Some (FDS_ERR_ARG, str)
    else Some (fds_bool2str field str str_size).

Section Dispatch.

(** The remaining renderers format through code that is not part of the
    sources ([snprintf], [strftime], [gmtime_r], [inet_ntop] and the
    integer formatters of [branchlut2.h]); the dispatch takes them as
    parameters. *)
Variables fds_uint2str_be fds_int2str_be fds_float2str_be fds_mac2str
          fds_ip2str : converter_fn.
Variable fds_datetime2str_be :
  list byte -> nat -> nat -> list byte -> nat -> Z -> option (Z * list byte).

Definition wrapper_ts_sec_be : converter_fn :=
  fun field size str str_size =>
    fds_datetime2str_be field size FDS_ET_DATE_TIME_SECONDS str str_size
      FDS_CONVERT_TF_SEC_UTC.

Definition wrapper_ts_msec_be : converter_fn :=
  fun field size str str_size =>
    fds_datetime2str_be field size FDS_ET_DATE_TIME_MILLISECONDS str str_size
      FDS_CONVERT_TF_MSEC_UTC.

Definition wrapper_ts_usec_be : converter_fn :=
  fun field size str str_size =>
    fds_datetime2str_be field size FDS_ET_DATE_TIME_MICROSECONDS str str_size
      FDS_CONVERT_TF_USEC_UTC.

Definition wrapper_ts_nsec_be : converter_fn :=
  fun field size str str_size =>
    fds_datetime2str_be field size FDS_ET_DATE_TIME_NANOSECONDS str str_size
      FDS_CONVERT_TF_NSEC_UTC.

Definition wrapper_ip4 : converter_fn :=
  fun field size str str_size =>
    if negb (size =? 4)%nat then Some (FDS_ERR_ARG, str)
    else fds_ip2str field size str str_size.

Definition wrapper_ip6 : converter_fn :=
  fun field size str str_size =>
    if negb (size =? 16)%nat then Some (FDS_ERR_ARG, str)
    else fds_ip2str field size str str_size.

(** Conversion table, based on types defined by
    [enum fds_iemgr_element_type] *)
Definition table : list converter_fn :=
  [ fds_octet_array2str    (* FDS_ET_OCTET_ARRAY *)
  ; fds_uint2str_be        (* FDS_ET_UNSIGNED_8 *)
  ; fds_uint2str_be        (* FDS_ET_UNSIGNED_16 *)
  ; fds_uint2str_be        (* FDS_ET_UNSIGNED_32 *)
  ; fds_uint2str_be        (* FDS_ET_UNSIGNED_64 *)
  ; fds_int2str_be         (* FDS_ET_SIGNED_8 *)
  ; fds_int2str_be         (* FDS_ET_SIGNED_16 *)
  ; fds_int2str_be         (* FDS_ET_SIGNED_32 *)
  ; fds_int2str_be         (* FDS_ET_SIGNED_64 *)
  ; fds_float2str_be       (* FDS_ET_FLOAT_32 *)
  ; fds_float2str_be       (* FDS_ET_FLOAT_64 *)
  ; wrapper_bool           (* FDS_ET_BOOLEAN *)
  ; fds_mac2str            (* FDS_ET_MAC_ADDRESS *)
  ; fds_string2str         (* FDS_ET_STRING *)
  ; wrapper_ts_sec_be      (* FDS_ET_DATE_TIME_SECONDS *)
  ; wrapper_ts_msec_be     (* FDS_ET_DATE_TIME_MILLISECONDS *)
  ; wrapper_ts_usec_be     (* FDS_ET_DATE_TIME_MICROSECONDS *)
  ; wrapper_ts_nsec_be     (* FDS_ET_DATE_TIME_NANOSECONDS *)
  ; wrapper_ip4            (* FDS_ET_IPV4_ADDRESS *)
  ; wrapper_ip6            (* FDS_ET_IPV6_ADDRESS *)
    (* Other types (basicList, subTemplateList, etc.) are not supported yet *)
  ].

Definition table_size : nat := length table.

Definition fds_field2str_be (field : list byte) (size : nat) (type : nat)
    (str : list byte) (str_size : nat) : option (Z * list byte) :=
  if (table_size <=? type)%nat then
    Some (FDS_ERR_FORMAT, str) (* Unsupported conversion type *)
  else
    match table !! type with
    | Some convert => convert field size str str_size
    | None => None
    end.

End Dispatch.

End Host.

(** * Vocabulary of the specification

    Definitions the statements below are written with; none of them is
    part of the library. *)

(** The [n] bytes of [v] in network byte order, and the unsigned value of
    bytes in network byte order. *)
Definition be_bytes (n : nat) (v : Z) : list byte := rev (le_split n v).
Definition be_value (bs : list byte) : Z := le_combine (rev bs).

(** The byte that fills the upper part of a sign-extended value. *)
Definition sign_fill (v : Z) : byte := if v <? 0 then Byte.xff else Byte.x00.

(** The size and type combinations the specification allows for a
    timestamp: 4 bytes for seconds, 8 bytes for the three finer types. *)
Definition datetime_combination_ok (size type : nat) : bool :=
  ((type =? FDS_ET_DATE_TIME_SECONDS)%nat && (size =? 4)%nat)
  || (((type =? FDS_ET_DATE_TIME_MILLISECONDS)%nat
       || (type =? FDS_ET_DATE_TIME_MICROSECONDS)%nat
       || (type =? FDS_ET_DATE_TIME_NANOSECONDS)%nat) && (size =? 8)%nat).

(** The NTP fraction [fds_set_datetime_hp_be] writes for [tv_nsec] with the
    microsecond mask, and the nanoseconds [fds_get_datetime_hp_be] reads
    back from a fraction with that mask. *)
Definition micro_fraction (nsec : Z) : Z :=
  Z.land
    (to_uint32 (to_uint64 (Z.shiftl (to_uint64 nsec) 32) / 1000000000))
    0xFFFFF800.

Definition micro_nsec (fraction : Z) : Z :=
  let fraction := Z.land fraction 0xFFFFF800 in
  let fraction := to_uint64 (fraction * 1000000000) in
  let fraction := Z.shiftr fraction 31 in
  let fraction :=
    if Z.land fraction 0x1 =? 0 then fraction else to_uint64 (fraction + 1) in
  to_int64 (Z.shiftr fraction 1).

(** A continuation byte, [10xx xxxx]. *)
Definition is_cont (b : byte) : bool :=
  Z.land (byte.unsigned b) 0xC0 =? 0x80.

(** The length of the structurally valid character at the start of [str],
    with at most [len] bytes to look at; 0 when there is none. *)
Definition utf8_len (str : list byte) (len : nat) : nat :=
  let c0 := byte.unsigned (mem_read str 0) in
  if Z.land c0 0x80 =? 0 then 1
  else if (Z.land c0 0xE0 =? 0xC0) && (2 <=? len)%nat then
    if is_cont (mem_read str 1) then 2 else 0
  else if (Z.land c0 0xF0 =? 0xE0) && (3 <=? len)%nat then
    if is_cont (mem_read str 1) && is_cont (mem_read str 2) then 3 else 0
  else if (Z.land c0 0xF8 =? 0xF0) && (4 <=? len)%nat then
    if is_cont (mem_read str 1) && is_cont (mem_read str 2)
       && is_cont (mem_read str 3) then 4 else 0
  else 0%nat.

(** The two upper bits of a byte. *)
Definition mask_c0 (b : byte) : byte :=
  byte.of_Z (Z.land (byte.unsigned b) 0xC0).

(** The four tests [utf8char_is_valid] makes on a first byte. *)
Definition lead_tests (b : byte) : bool * bool * bool * bool :=
  let c := byte.unsigned b in
  (Z.land c 0x80 =? 0, Z.land c 0xE0 =? 0xC0,
   Z.land c 0xF0 =? 0xE0, Z.land c 0xF8 =? 0xF0).

(** A sequence of structurally valid characters. *)
Inductive utf8_valid : list byte -> Prop :=
| utf8_valid_nil : utf8_valid []
| utf8_valid_char c rest :
    (0 < length c)%nat -> utf8_len c (length c) = length c ->
    utf8_valid rest -> utf8_valid (c ++ rest).


(** The digits of uppercase hexadecimal. *)
Definition hex_digits_upper : list byte :=
  [Byte.x30; Byte.x31; Byte.x32; Byte.x33; Byte.x34; Byte.x35; Byte.x36;
   Byte.x37; Byte.x38; Byte.x39; Byte.x41; Byte.x42; Byte.x43; Byte.x44;
   Byte.x45; Byte.x46].

Definition hex_upper (d : Z) : byte :=
  nth (Z.to_nat d) hex_digits_upper Byte.x00.


(** The millisecond fraction of the low-precision NTP path, written and
    read back: a millisecond is lost unless the fraction is a whole number
    of eighths of a second. *)
Definition lp_fraction (micro : bool) (m : Z) : Z :=
  let fraction := to_uint32 (to_uint64 (Z.shiftl m 32) / 1000) in
  if micro then Z.land fraction 0xFFFFF800 else fraction.

Definition lp_millis (micro : bool) (fraction : Z) : Z :=
  let fraction :=
    if micro then Z.land fraction 0xFFFFF800 else fraction in
  Z.shiftr (to_uint64 (fraction * 1000)) 32.

(** The text that stands for the character at the start of [str] when the
    escaper does not copy it: a backslash escape, a hexadecimal escape or
    the replacement character. *)
Definition replacement (str : list byte) : option (list byte) :=
  let c := byte.unsigned (mem_read str 0) in
  match utf8char_is_escapable str (length str) with
  | Some subst => Some [Byte.x5c; subst]
  | None =>
      if utf8char_is_control str (length str) then
        Some [Byte.x5c; Byte.x78; hex_upper (c / 16); hex_upper (c mod 16)]
      else if (utf8_len str (length str) =? 0)%nat then
        Some [Byte.xef; Byte.xbf; Byte.xbd]
      else None
  end.

(** The escaped form of a whole input, character by character; the input
    is its own fuel. *)
Fixpoint escape_text (fuel : nat) (str : list byte) : list byte :=
  match fuel with
  | O => []
  | S fuel =>
      match str with
      | [] => []
      | _ :: _ =>
          match replacement str with
          | Some text => text ++ escape_text fuel (drop 1 str)
          | None =>
              let k := utf8_len str (length str) in
              take k str ++ escape_text fuel (drop k str)
          end
      end
  end.

Definition escaped (str : list byte) : list byte :=
  escape_text (length str) str.

(** A sequence of structurally valid characters none of which the escaper
    takes for a control character. *)
Inductive utf8_plain : list byte -> Prop :=
| utf8_plain_nil : utf8_plain []
| utf8_plain_char c rest :
    (0 < length c)%nat -> utf8_len c (length c) = length c ->
    utf8char_is_control c (length c) = false ->
    utf8_plain rest -> utf8_plain (c ++ rest).


(** The step of the loop of [fds_string2str] at [pos_in]:
    [(is_valid > 0) ? (unsigned int) is_valid : 1]. *)
Definition char_step (host : byte_order) (field : list byte)
    (size pos_in : nat) : nat :=
  let is_valid :=
    utf8char_is_valid host (drop pos_in field) (size - pos_in) in
  if is_valid >? 0 then Z.to_nat is_valid else 1%nat.

(** The values [pos_in] takes: 0, and [pos_in + step] while
    [pos_in < size]. *)
Inductive char_start (host : byte_order) (field : list byte) (size : nat)
  : nat -> Prop :=
| char_start_first : char_start host field size 0
| char_start_next pos_in :
    char_start host field size pos_in -> (pos_in < size)%nat ->
    char_start host field size (pos_in + char_step host field size pos_in).

(** * Properties *)

(** ** Memory *)

Lemma load_bytes_length p n : length (load_bytes p n) = n.
Proof. unfold load_bytes. now rewrite length_map, length_seq. Qed.

Lemma load_bytes_nil_r p : load_bytes p 0 = [].
Proof. reflexivity. Qed.

Lemma load_bytes_cons b p n : load_bytes (b :: p) (S n) = b :: load_bytes p n.
Proof.
  unfold load_bytes. cbn [seq map]. f_equal.
  rewrite <- seq_shift, map_map. reflexivity.
Qed.

Lemma load_bytes_take p n : (n <= length p)%nat -> load_bytes p n = take n p.
Proof.
  revert p. induction n as [|n IH]; intros [|b p] Hn; cbn in Hn; try lia.
  - reflexivity.
  - reflexivity.
  - rewrite load_bytes_cons, IH by lia. reflexivity.
Qed.

Lemma load_bytes_app bs rest : load_bytes (bs ++ rest) (length bs) = bs.
Proof.
  rewrite load_bytes_take by (rewrite length_app; lia).
  now rewrite take_app_length.
Qed.

Lemma memcpy_0 p src n :
  (n <= length p)%nat -> (n <= length src)%nat ->
  memcpy p 0 src n = take n src ++ drop n p.
Proof.
  intros Hp Hs. unfold memcpy. rewrite load_bytes_take by lia.
  rewrite <- (take_drop n p) at 1.
  apply list_inserts_0_r. rewrite !length_take. lia.
Qed.

Lemma memcpy_0_exact p src :
  (length src <= length p)%nat ->
  memcpy p 0 src (length src) = src ++ drop (length src) p.
Proof. intros H. rewrite memcpy_0 by lia. now rewrite firstn_all. Qed.

Lemma memcpy_at p off src n :
  (off + n <= length p)%nat -> (n <= length src)%nat ->
  memcpy p off src n = take off p ++ take n src ++ drop (off + n) p.
Proof.
  intros Hp Hs. unfold memcpy. rewrite load_bytes_take by lia.
  rewrite <- (take_drop off p) at 1.
  replace off with (length (take off p) + 0)%nat at 1
    by (rewrite length_take; lia).
  rewrite list_inserts_app_r. f_equal.
  rewrite <- (take_drop n (drop off p)) at 1.
  rewrite list_inserts_0_r by (rewrite !length_take, length_drop; lia).
  now rewrite drop_drop.
Qed.

(** ** Byte order *)

Lemma be_bytes_length n v : length (be_bytes n v) = n.
Proof. unfold be_bytes. now rewrite length_rev, length_le_split. Qed.

Lemma be_value_bytes n v : be_value (be_bytes n v) = v mod 2 ^ (8 * Z.of_nat n).
Proof.
  unfold be_value, be_bytes. rewrite rev_involutive, le_combine_split.
  f_equal. f_equal. lia.
Qed.

Lemma le_split_eqm n a b :
  a mod 2 ^ (8 * Z.of_nat n) = b mod 2 ^ (8 * Z.of_nat n) ->
  le_split n a = le_split n b.
Proof.
  intros H. rewrite (le_split_mod a), (le_split_mod b).
  replace (Z.of_nat n * 8) with (8 * Z.of_nat n) by lia. now rewrite H.
Qed.

Lemma be_bytes_eqm n a b :
  a mod 2 ^ (8 * Z.of_nat n) = b mod 2 ^ (8 * Z.of_nat n) ->
  be_bytes n a = be_bytes n b.
Proof. intros H. unfold be_bytes. now rewrite (le_split_eqm n a b). Qed.

Lemma take_le_split s : forall n v,
  (s <= n)%nat -> take s (le_split n v) = le_split s v.
Proof.
  induction s as [|s IH]; intros [|n] v Hs; try lia; try reflexivity.
  change (le_split (S n) v) with (byte.of_Z v :: le_split n (Z.shiftr v 8)).
  change (le_split (S s) v) with (byte.of_Z v :: le_split s (Z.shiftr v 8)).
  cbn [firstn]. f_equal. apply IH. lia.
Qed.

Lemma drop_be_bytes s n v :
  (s <= n)%nat -> drop (n - s) (be_bytes n v) = be_bytes s v.
Proof.
  intros Hs. unfold be_bytes. rewrite skipn_rev, length_le_split.
  replace (n - (n - s))%nat with s by lia. now rewrite take_le_split.
Qed.

Section ByteOrderFacts.
Variable host : byte_order.

Lemma object_bytes_length n v : length (object_bytes host n v) = n.
Proof.
  unfold object_bytes. destruct host;
    now rewrite ?length_rev, length_le_split.
Qed.

Lemma object_bytes_eqm n a b :
  a mod 2 ^ (8 * Z.of_nat n) = b mod 2 ^ (8 * Z.of_nat n) ->
  object_bytes host n a = object_bytes host n b.
Proof.
  intros H. unfold object_bytes. now rewrite (le_split_eqm n a b).
Qed.

(** Storing [htobe(v)] leaves the big-endian bytes of [v] in memory. *)
Lemma object_bytes_host_to_be n v :
  object_bytes host n (host_to_be host n v) = be_bytes n v.
Proof.
  unfold object_bytes, host_to_be, be_bytes, bswap. destruct host.
  - apply split_le_combine'. now rewrite length_rev, length_le_split.
  - reflexivity.
Qed.

(** [betoh] of a loaded object is the big-endian value of its bytes. *)
Lemma host_to_be_object_value n bs :
  length bs = n -> host_to_be host n (object_value host bs) = be_value bs.
Proof.
  intros Hn. unfold object_value, host_to_be, be_value, bswap. destruct host.
  - now rewrite split_le_combine'.
  - reflexivity.
Qed.

Lemma host_to_be_eqm n a b :
  a mod 2 ^ (8 * Z.of_nat n) = b mod 2 ^ (8 * Z.of_nat n) ->
  be_bytes n (host_to_be host n a) = be_bytes n (host_to_be host n b).
Proof.
  intros H. unfold host_to_be, bswap. destruct host.
  - now rewrite (le_split_eqm n a b).
  - now apply be_bytes_eqm.
Qed.

Lemma store_spec n p v :
  (n <= length p)%nat ->
  store host n p v = object_bytes host n v ++ drop n p.
Proof.
  intros H. unfold store.
  rewrite memcpy_0 by (rewrite ?object_bytes_length; lia).
  rewrite firstn_all2 by (rewrite object_bytes_length; lia). reflexivity.
Qed.

Lemma load_app bs rest : load host (length bs) (bs ++ rest) = object_value host bs.
Proof. unfold load. now rewrite load_bytes_app. Qed.

Lemma load_store_be n p v :
  (n <= length p)%nat ->
  host_to_be host n (load host n (store host n p (host_to_be host n v)))
  = v mod 2 ^ (8 * Z.of_nat n).
Proof.
  intros H. rewrite store_spec, object_bytes_host_to_be by assumption.
  pose proof (load_app (be_bytes n v) (drop n p)) as L.
  rewrite be_bytes_length in L. rewrite L.
  rewrite host_to_be_object_value by apply be_bytes_length.
  apply be_value_bytes.
Qed.

End ByteOrderFacts.

(** ** Fixed-width integers *)

Lemma to_unsigned_small bits v :
  0 <= v < 2 ^ bits -> to_unsigned bits v = v.
Proof. intros H. unfold to_unsigned. now apply Z.mod_small. Qed.

Lemma to_signed_eqm bits a :
  0 < bits -> to_signed bits a mod 2 ^ bits = a mod 2 ^ bits.
Proof.
  intros Hb. unfold to_signed.
  assert (Hp : 0 < 2 ^ bits) by (apply Z.pow_pos_nonneg; lia).
  rewrite Zminus_mod_idemp_l.
  f_equal. lia.
Qed.

Lemma to_signed_small bits v :
  0 < bits -> - 2 ^ (bits - 1) <= v < 2 ^ (bits - 1) -> to_signed bits v = v.
Proof.
  intros Hb Hv. unfold to_signed.
  assert (E : 2 ^ bits = 2 * 2 ^ (bits - 1)).
  { rewrite <- Z.pow_succ_r by lia. f_equal. lia. }
  rewrite Z.mod_small by lia. lia.
Qed.

Lemma to_signed_mod bits a :
  0 < bits -> to_signed bits (a mod 2 ^ bits) = to_signed bits a.
Proof.
  intros Hb. unfold to_signed.
  assert (Hp : 0 < 2 ^ bits) by (apply Z.pow_pos_nonneg; lia).
  now rewrite Zplus_mod_idemp_l.
Qed.

(** ** Splitting and sign extension *)

Lemma le_split_app s : forall k v,
  le_split (s + k) v = le_split s v ++ le_split k (Z.shiftr v (8 * Z.of_nat s)).
Proof.
  induction s as [|s IH]; intros k v.
  - cbn [Nat.add]. now rewrite Z.shiftr_0_r.
  - change (le_split (S s + k) v)
      with (byte.of_Z v :: le_split (s + k) (Z.shiftr v 8)).
    change (le_split (S s) v) with (byte.of_Z v :: le_split s (Z.shiftr v 8)).
    rewrite IH, Z.shiftr_shiftr by lia. cbn [app]. repeat f_equal. lia.
Qed.

Lemma le_split_zeros k : le_split k 0 = repeat Byte.x00 k.
Proof. induction k as [|k IH]; [reflexivity|]. cbn [repeat]. now rewrite <- IH. Qed.

Lemma le_split_ones k : le_split k (-1) = repeat Byte.xff k.
Proof. induction k as [|k IH]; [reflexivity|]. cbn [repeat]. now rewrite <- IH. Qed.

Lemma be_bytes_extend s k v :
  - 2 ^ (8 * Z.of_nat s) <= v < 2 ^ (8 * Z.of_nat s) ->
  repeat (sign_fill v) k ++ be_bytes s v = be_bytes (s + k) v.
Proof.
  intros Hv. unfold be_bytes. rewrite le_split_app, rev_app_distr. f_equal.
  rewrite Z.shiftr_div_pow2 by lia. unfold sign_fill.
  assert (Hp : 0 < 2 ^ (8 * Z.of_nat s)) by (apply Z.pow_pos_nonneg; lia).
  destruct (Z.ltb_spec v 0).
  - replace (v / 2 ^ (8 * Z.of_nat s)) with (-1)
      by (apply Z.div_unique with (r := v + 2 ^ (8 * Z.of_nat s)); lia).
    now rewrite le_split_ones, rev_repeat.
  - rewrite Z.div_small by lia. now rewrite le_split_zeros, rev_repeat.
Qed.

Lemma byte_msb b :
  (Z.land (byte.unsigned b) 0x80 =? 0) = (byte.unsigned b <? 128).
Proof. destruct b; reflexivity. Qed.

Lemma be_bytes_head s v rest :
  mem_read (be_bytes (S s) v ++ rest) 0 = byte.of_Z (Z.shiftr v (8 * Z.of_nat s)).
Proof.
  unfold be_bytes. replace (S s) with (s + 1)%nat by lia.
  rewrite le_split_app, rev_app_distr. reflexivity.
Qed.

(** The first byte of a big-endian two's complement number carries its sign. *)
Lemma be_bytes_sign s v rest :
  - 2 ^ (8 * Z.of_nat (S s) - 1) <= v < 2 ^ (8 * Z.of_nat (S s) - 1) ->
  (Z.land (byte.unsigned (mem_read (be_bytes (S s) v ++ rest) 0)) 0x80 =? 0)
  = negb (v <? 0).
Proof.
  intros Hv. rewrite be_bytes_head, byte_msb, byte.unsigned_of_Z.
  unfold byte.wrap. rewrite Z.shiftr_div_pow2 by lia.
  replace (8 * Z.of_nat (S s) - 1) with (8 * Z.of_nat s + 7) in Hv by lia.
  rewrite Z.pow_add_r in Hv by lia.
  assert (Hp : 0 < 2 ^ (8 * Z.of_nat s)) by (apply Z.pow_pos_nonneg; lia).
  set (P := 2 ^ (8 * Z.of_nat s)) in *.
  change (2 ^ 7) with 128 in Hv. change (2 ^ 8) with 256.
  assert (Hq : -128 <= v / P < 128).
  { split.
    - apply Z.div_le_lower_bound; lia.
    - apply Z.div_lt_upper_bound; lia. }
  destruct (Z.ltb_spec v 0) as [Hn|Hn]; cbn [negb].
  - assert (v / P < 0) by (apply Z.div_lt_upper_bound; lia).
    replace ((v / P) mod 256) with (v / P + 256)
      by (apply Z.mod_unique with (q := -1); lia).
    apply Z.ltb_ge. lia.
  - assert (0 <= v / P) by (apply Z.div_pos; lia).
    rewrite Z.mod_small by lia. apply Z.ltb_lt. lia.
Qed.

Lemma to_signed_range bits a :
  0 < bits -> - 2 ^ (bits - 1) <= to_signed bits a < 2 ^ (bits - 1).
Proof.
  intros Hb. unfold to_signed.
  assert (E : 2 ^ bits = 2 * 2 ^ (bits - 1)).
  { rewrite <- Z.pow_succ_r by lia. f_equal. lia. }
  assert (Hp : 0 < 2 ^ (bits - 1)) by (apply Z.pow_pos_nonneg; lia).
  pose proof (Z.mod_pos_bound (a + 2 ^ (bits - 1)) (2 ^ bits)). lia.
Qed.

Lemma take_repeat {A} (x : A) n k : (k <= n)%nat -> take k (repeat x n) = repeat x k.
Proof.
  revert n. induction k as [|k IH]; intros [|n] H; try lia; try reflexivity.
  cbn. f_equal. apply IH. lia.
Qed.

Section OddWidthFacts.
Variable host : byte_order.

Lemma load_exact n bs rest :
  length bs = n -> load host n (bs ++ rest) = object_value host bs.
Proof. intros <-. apply load_app. Qed.

Lemma object_bytes_1 v : object_bytes host 1 v = be_bytes 1 v.
Proof. unfold object_bytes. now destruct host. Qed.

Lemma object_value_1 bs : length bs = 1%nat -> object_value host bs = be_value bs.
Proof.
  destruct bs as [|b [|? ?]]; try discriminate. intros _.
  unfold object_value. now destruct host.
Qed.

Lemma object_bytes_fill n v :
  v = 0 \/ v = -1 -> object_bytes host n v = repeat (sign_fill v) n.
Proof.
  unfold object_bytes.
  intros [-> | ->]; destruct host; cbn [sign_fill Z.ltb Z.compare];
    now rewrite ?le_split_zeros, ?le_split_ones, ?rev_repeat.
Qed.

(** The 8-byte scratch value of the odd-width getters after [memcpy]. *)
Lemma scratch_bytes s fill bs rest :
  (s <= 8)%nat -> length bs = s -> fill = 0 \/ fill = -1 ->
  memcpy (object_bytes host 8 fill) (8 - s) (bs ++ rest) s
  = repeat (sign_fill fill) (8 - s) ++ bs.
Proof.
  intros Hs Hl Hf. rewrite object_bytes_fill by assumption.
  rewrite memcpy_at by (rewrite ?repeat_length, ?length_app; lia).
  rewrite take_repeat by lia. f_equal.
  rewrite <- Hl, take_app_length.
  rewrite skipn_all2 by (rewrite repeat_length; lia).
  apply app_nil_r.
Qed.

Lemma be_value_range bs : 0 <= be_value bs < 2 ^ (8 * Z.of_nat (length bs)).
Proof.
  unfold be_value. pose proof (le_combine_bound (rev bs)) as H.
  now rewrite length_rev in H.
Qed.

Lemma get_uint_odd s v rest :
  (1 <= s <= 8)%nat -> 0 <= v < 2 ^ (8 * Z.of_nat s) ->
  be64toh host
    (object_value host
       (memcpy (object_bytes host 8 0) (8 - s) (be_bytes s v ++ rest) s)) = v.
Proof.
  intros Hs Hv.
  rewrite scratch_bytes by (rewrite ?be_bytes_length; auto; lia).
  unfold be64toh. rewrite host_to_be_object_value
    by (rewrite length_app, repeat_length, be_bytes_length; lia).
  replace (sign_fill 0) with (sign_fill v)
    by (unfold sign_fill; destruct (Z.ltb_spec v 0); [lia|reflexivity]).
  rewrite be_bytes_extend by lia.
  rewrite be_value_bytes. replace (s + (8 - s))%nat with 8%nat by lia.
  apply Z.mod_small. split; [lia|].
  eapply Z.lt_le_trans; [apply Hv|]. apply Z.pow_le_mono_r; lia.
Qed.

Lemma get_int_odd s v rest :
  (1 <= s <= 8)%nat ->
  - 2 ^ (8 * Z.of_nat s - 1) <= v < 2 ^ (8 * Z.of_nat s - 1) ->
  let field := be_bytes s v ++ rest in
  let new_value :=
    if Z.land (byte.unsigned (mem_read field 0)) 0x80 =? 0 then 0 else -1 in
  to_int64
    (be64toh host
       (to_uint64
          (to_int64
             (object_value host
                (memcpy (object_bytes host 8 new_value) (8 - s) field s)))))
  = v.
Proof.
  intros Hs Hv field new_value. subst field new_value.
  destruct s as [|s']; [lia|].
  rewrite be_bytes_sign by assumption.
  set (s := S s') in *.
  assert (Hfill : (if negb (v <? 0) then 0 else -1) = 0 /\ 0 <= v
                  \/ (if negb (v <? 0) then 0 else -1) = -1 /\ v < 0).
  { destruct (Z.ltb_spec v 0); cbn; lia. }
  set (fill := if negb (v <? 0) then 0 else -1) in *.
  rewrite scratch_bytes by (rewrite ?be_bytes_length; lia).
  replace (sign_fill fill) with (sign_fill v).
  2:{ unfold sign_fill. destruct Hfill as [[-> H]|[-> H]].
      - destruct (Z.ltb_spec v 0); [lia|reflexivity].
      - destruct (Z.ltb_spec v 0); [reflexivity|lia]. }
  assert (Hpow : 2 ^ (8 * Z.of_nat s) = 2 * 2 ^ (8 * Z.of_nat s - 1)).
  { rewrite <- Z.pow_succ_r by lia. f_equal. lia. }
  assert (Hp : 0 < 2 ^ (8 * Z.of_nat s - 1)) by (apply Z.pow_pos_nonneg; lia).
  rewrite be_bytes_extend by lia.
  replace (s + (8 - s))%nat with 8%nat by lia.
  set (X := object_value host (be_bytes 8 v)).
  assert (HX : be64toh host X = v mod 2 ^ 64).
  { unfold be64toh, X. rewrite host_to_be_object_value by apply be_bytes_length.
    rewrite be_value_bytes. reflexivity. }
  assert (Hr : 0 <= X < 2 ^ 64).
  { unfold X, object_value. destruct host.
    - pose proof (le_combine_bound (be_bytes 8 v)) as B.
      rewrite be_bytes_length in B. exact B.
    - pose proof (be_value_range (be_bytes 8 v)) as B.
      rewrite be_bytes_length in B. exact B. }
  unfold to_uint64, to_int64, to_unsigned.
  rewrite to_signed_eqm by lia. rewrite (Z.mod_small X) by assumption.
  rewrite HX. change (2 ^ 64) with (2 ^ (64)). rewrite to_signed_mod by lia.
  apply to_signed_small; [lia|].
  assert (2 ^ (8 * Z.of_nat s - 1) <= 2 ^ (64 - 1))
    by (apply Z.pow_le_mono_r; lia).
  lia.
Qed.

End OddWidthFacts.

(** ** Integer codec *)

(** Evaluate the closed powers of two of a hypothesis or of the goal. *)
Ltac eval_pow2 :=
  repeat match goal with
  | H : context [2 ^ ?e] |- _ =>
      let c := eval vm_compute in (2 ^ e) in
      progress change (2 ^ e) with c in H
  | |- context [2 ^ ?e] =>
      let c := eval vm_compute in (2 ^ e) in
      progress change (2 ^ e) with c
  end.

Tactic Notation "width_cases" ident(s) :=
  destruct s as [|[|[|[|[|[|[|[|[|s]]]]]]]]]; try lia.

Section IntegerCodecFacts.
Variable host : byte_order.

Lemma be_bytes_to_unsigned n v :
  be_bytes n (to_unsigned (8 * Z.of_nat n) v) = be_bytes n v.
Proof.
  apply be_bytes_eqm. unfold to_unsigned. apply Z.mod_mod.
  apply Z.pow_nonzero; lia.
Qed.

Lemma object_bytes_to_signed n v :
  (0 < n)%nat ->
  object_bytes host n (to_signed (8 * Z.of_nat n) v) = object_bytes host n v.
Proof. intros H. apply object_bytes_eqm, to_signed_eqm. lia. Qed.

Lemma store_be n field v :
  (n <= length field)%nat ->
  store host n field (host_to_be host n v) = be_bytes n v ++ drop n field.
Proof. intros H. now rewrite store_spec, object_bytes_host_to_be. Qed.

Lemma store_be_signed n field v :
  (0 < n)%nat -> (n <= length field)%nat ->
  store host n field (to_signed (8 * Z.of_nat n) (host_to_be host n v))
  = be_bytes n v ++ drop n field.
Proof.
  intros H0 H.
  now rewrite store_spec, object_bytes_to_signed, object_bytes_host_to_be.
Qed.

Lemma store_1 field v :
  (1 <= length field)%nat ->
  store host 1 field v = be_bytes 1 v ++ drop 1 field.
Proof. intros H. now rewrite store_spec, object_bytes_1. Qed.

(** The odd-width setters copy the low [s] bytes of the big-endian form. *)
Lemma set_odd_bytes s field x :
  (s <= 8)%nat -> (s <= length field)%nat ->
  memcpy field 0 (drop (8 - s) (object_bytes host 8 (htobe64 host x))) s
  = be_bytes s x ++ drop s field.
Proof.
  intros Hs Hl. unfold htobe64.
  rewrite object_bytes_host_to_be, drop_be_bytes by lia.
  rewrite memcpy_0 by (rewrite ?be_bytes_length; lia).
  now rewrite firstn_all2 by (rewrite be_bytes_length; lia).
Qed.

Lemma set_odd_bytes_signed s field x :
  (s <= 8)%nat -> (s <= length field)%nat ->
  memcpy field 0
    (drop (8 - s) (object_bytes host 8 (to_int64 (htobe64 host (to_uint64 x)))))
    s
  = be_bytes s x ++ drop s field.
Proof.
  intros Hs Hl. unfold to_int64.
  rewrite (object_bytes_to_signed 8) by lia.
  rewrite set_odd_bytes by assumption. f_equal.
  rewrite <- (drop_be_bytes s 8) by lia.
  unfold to_uint64. rewrite (be_bytes_to_unsigned 8).
  now rewrite drop_be_bytes by lia.
Qed.

(** *** What the setters write *)

Lemma fds_set_uint_be_bytes field s v :
  (1 <= s <= 8)%nat -> (s <= length field)%nat ->
  0 <= v < 2 ^ (8 * Z.of_nat s) ->
  fds_set_uint_be host field s v = (FDS_OK, be_bytes s v ++ drop s field).
Proof.
  intros Hs Hl Hv. width_cases s; eval_pow2;
    unfold fds_set_uint_be; cbv beta iota;
    unfold UINT8_MAX, UINT16_MAX, UINT32_MAX, to_uint64, to_unsigned.
  - (* 1 *)
    destruct (Z.gtb_spec v 255); [lia|].
    rewrite store_1 by assumption. unfold to_uint8.
    now rewrite (be_bytes_to_unsigned 1).
  - (* 2 *)
    destruct (Z.gtb_spec v 65535); [lia|].
    unfold htons, to_uint16. rewrite store_be by assumption.
    now rewrite (be_bytes_to_unsigned 2).
  - (* 3 *)
    cbn [Nat.eqb Nat.ltb Nat.leb orb]. 
    match goal with |- context [?a >=? ?b mod ?c] =>
      let k := eval vm_compute in (b mod c) in change (b mod c) with k end.
    destruct (Z.geb_spec v 16777216); [lia|].
    now rewrite set_odd_bytes by (assumption || lia).
  - (* 4 *)
    destruct (Z.gtb_spec v 4294967295); [lia|].
    unfold htonl, to_uint32. rewrite store_be by assumption.
    now rewrite (be_bytes_to_unsigned 4).
  - (* 5 *)
    cbn [Nat.eqb Nat.ltb Nat.leb orb].
    match goal with |- context [?a >=? ?b mod ?c] =>
      let k := eval vm_compute in (b mod c) in change (b mod c) with k end.
    destruct (Z.geb_spec v 1099511627776); [lia|].
    now rewrite set_odd_bytes by (assumption || lia).
  - (* 6 *)
    cbn [Nat.eqb Nat.ltb Nat.leb orb].
    match goal with |- context [?a >=? ?b mod ?c] =>
      let k := eval vm_compute in (b mod c) in change (b mod c) with k end.
    destruct (Z.geb_spec v 281474976710656); [lia|].
    now rewrite set_odd_bytes by (assumption || lia).
  - (* 7 *)
    cbn [Nat.eqb Nat.ltb Nat.leb orb].
    match goal with |- context [?a >=? ?b mod ?c] =>
      let k := eval vm_compute in (b mod c) in change (b mod c) with k end.
    destruct (Z.geb_spec v 72057594037927936); [lia|].
    now rewrite set_odd_bytes by (assumption || lia).
  - (* 8 *)
    unfold htobe64. now rewrite store_be by assumption.
Qed.

Lemma be_bytes_to_signed n v :
  (0 < n)%nat -> be_bytes n (to_signed (8 * Z.of_nat n) v) = be_bytes n v.
Proof. intros H. apply be_bytes_eqm, to_signed_eqm. lia. Qed.

Lemma fds_set_int_be_bytes field s v :
  (1 <= s <= 8)%nat -> (s <= length field)%nat ->
  - 2 ^ (8 * Z.of_nat s - 1) <= v < 2 ^ (8 * Z.of_nat s - 1) ->
  fds_set_int_be host field s v = (FDS_OK, be_bytes s v ++ drop s field).
Proof.
  intros Hs Hl Hv.
  assert (Hodd : forall limit,
    limit = 2 ^ (8 * Z.of_nat s - 1) - 1 ->
    (let '(value, over) :=
       if v >? limit then
         (to_int64 (htobe64 host (to_uint64 limit)), true)
       else if v <? Z.lnot limit then
         (to_int64 (htobe64 host (to_uint64 (Z.lnot limit))), true)
       else (to_int64 (htobe64 host (to_uint64 v)), false) in
     (if over then FDS_ERR_TRUNC else FDS_OK,
      memcpy field 0 (drop (8 - s) (object_bytes host 8 value)) s))
    = (FDS_OK, be_bytes s v ++ drop s field)).
  { intros limit ->. unfold Z.lnot.
    destruct (Z.gtb_spec v (2 ^ (8 * Z.of_nat s - 1) - 1)); [lia|].
    destruct (Z.ltb_spec v (Z.pred (- (2 ^ (8 * Z.of_nat s - 1) - 1))));
      [lia|].
    now rewrite set_odd_bytes_signed by lia. }
  width_cases s; unfold fds_set_int_be; cbv beta iota;
    try (cbn [Nat.eqb Nat.ltb Nat.leb orb]; apply Hodd; vm_compute; reflexivity);
    clear Hodd; eval_pow2;
    unfold INT8_MAX, INT8_MIN, INT16_MAX, INT16_MIN, INT32_MAX, INT32_MIN.
  - (* 1 *)
    destruct (Z.gtb_spec v 127); [lia|].
    destruct (Z.ltb_spec v (-128)); [lia|].
    rewrite store_1 by assumption. unfold to_int8.
    now rewrite (be_bytes_to_signed 1) by lia.
  - (* 2 *)
    destruct (Z.gtb_spec v 32767); [lia|].
    destruct (Z.ltb_spec v (-32768)); [lia|].
    unfold to_int16, to_uint16, htons.
    rewrite (store_be_signed 2) by (assumption || lia).
    now rewrite (be_bytes_to_unsigned 2), (be_bytes_to_signed 2) by lia.
  - (* 4 *)
    destruct (Z.gtb_spec v 2147483647); [lia|].
    destruct (Z.ltb_spec v (-2147483648)); [lia|].
    unfold to_int32, to_uint32, htonl.
    rewrite (store_be_signed 4) by (assumption || lia).
    now rewrite (be_bytes_to_unsigned 4), (be_bytes_to_signed 4) by lia.
  - (* 8 *)
    unfold to_int64, to_uint64, htobe64.
    rewrite (store_be_signed 8) by (assumption || lia).
    now rewrite (be_bytes_to_unsigned 8).
Qed.

(** *** What the getters read *)

Lemma fds_get_uint_be_bytes s v rest old :
  (1 <= s <= 8)%nat -> 0 <= v < 2 ^ (8 * Z.of_nat s) ->
  fds_get_uint_be host (be_bytes s v ++ rest) s old = (FDS_OK, v).
Proof.
  intros Hs Hv.
  pose proof (get_uint_odd host s v rest Hs Hv) as Hodd.
  assert (Hbe : be_value (be_bytes s v) = v)
    by (rewrite be_value_bytes; now apply Z.mod_small).
  width_cases s; unfold fds_get_uint_be; cbv beta iota zeta;
    try (cbn [Nat.eqb Nat.ltb Nat.leb orb]; now rewrite Hodd);
    clear Hodd; unfold be64toh, ntohl, ntohs;
    rewrite load_exact by apply be_bytes_length;
    rewrite ?host_to_be_object_value by apply be_bytes_length;
    rewrite ?object_value_1 by apply be_bytes_length;
    now rewrite Hbe.
Qed.

Lemma fds_get_int_be_bytes s v rest old :
  (1 <= s <= 8)%nat ->
  - 2 ^ (8 * Z.of_nat s - 1) <= v < 2 ^ (8 * Z.of_nat s - 1) ->
  fds_get_int_be host (be_bytes s v ++ rest) s old = (FDS_OK, v).
Proof.
  intros Hs Hv.
  pose proof (get_int_odd host s v rest Hs Hv) as Hodd. cbv zeta in Hodd.
  assert (Hbe : to_signed (8 * Z.of_nat s) (be_value (be_bytes s v)) = v).
  { rewrite be_value_bytes, to_signed_mod by lia.
    apply to_signed_small; [lia|assumption]. }
  width_cases s; unfold fds_get_int_be; cbv beta iota zeta;
    try (cbn [Nat.eqb Nat.ltb Nat.leb orb]; now rewrite Hodd);
    clear Hodd; unfold be64toh, ntohl, ntohs;
    rewrite load_exact by apply be_bytes_length;
    rewrite ?host_to_be_object_value by apply be_bytes_length;
    rewrite ?object_value_1 by apply be_bytes_length;
    unfold to_int8, to_int16, to_int32, to_int64;
    now rewrite <- Hbe at 2.
Qed.

End IntegerCodecFacts.

(** C1. For every width [s] from 1 to 8, written to a field of at least [s]
    bytes: an unsigned [u] below [2^(8s)] is stored by [fds_set_uint_be]
    with status [FDS_OK] and read back by [fds_get_uint_be] with status
    [FDS_OK] as exactly [u]; a signed [i] with
    [-2^(8s-1) <= i < 2^(8s-1)] is stored by [fds_set_int_be] and read back
    by [fds_get_int_be] likewise.  The widths 3, 5, 6 and 7 are included,
    and the byte order of the host does not matter. *)
Theorem int_codec_roundtrip (host : byte_order) (field : list byte)
    (s : nat) (u i : Z) :
  (1 <= s <= 8)%nat -> (s <= length field)%nat ->
  0 <= u < 2 ^ (8 * Z.of_nat s) ->
  - 2 ^ (8 * Z.of_nat s - 1) <= i < 2 ^ (8 * Z.of_nat s - 1) ->
  (fds_set_uint_be host field s u).1 = FDS_OK
  /\ (forall old,
        fds_get_uint_be host (fds_set_uint_be host field s u).2 s old
        = (FDS_OK, u))
  /\ (fds_set_int_be host field s i).1 = FDS_OK
  /\ (forall old,
        fds_get_int_be host (fds_set_int_be host field s i).2 s old
        = (FDS_OK, i)).
Proof.
  intros Hs Hl Hu Hi.
  rewrite fds_set_uint_be_bytes, fds_set_int_be_bytes by assumption.
  cbn [fst snd]. repeat split; intros old.
  - now apply fds_get_uint_be_bytes.
  - now apply fds_get_int_be_bytes.
Qed.

Lemma int_codec_roundtrip_witness :
  ((1 <= 3 <= 8)%nat /\ (3 <= length (repeat Byte.xaa 4))%nat
   /\ 0 <= 0x123456 < 2 ^ (8 * Z.of_nat 3)
   /\ - 2 ^ (8 * Z.of_nat 3 - 1) <= -2 < 2 ^ (8 * Z.of_nat 3 - 1))
  /\ (fds_set_uint_be BigEndian (repeat Byte.xaa 4) 3 0x123456).1 = FDS_OK
  /\ (forall old,
        fds_get_uint_be BigEndian
          (fds_set_uint_be BigEndian (repeat Byte.xaa 4) 3 0x123456).2 3 old
        = (FDS_OK, 0x123456))
  /\ (fds_set_int_be BigEndian (repeat Byte.xaa 4) 3 (-2)).1 = FDS_OK
  /\ (forall old,
        fds_get_int_be BigEndian
          (fds_set_int_be BigEndian (repeat Byte.xaa 4) 3 (-2)).2 3 old
        = (FDS_OK, -2)).
Proof.
  assert (H1 : (1 <= 3 <= 8)%nat) by lia.
  assert (H2 : (3 <= length (repeat Byte.xaa 4))%nat) by (simpl; lia).
  assert (H3 : 0 <= 0x123456 < 2 ^ (8 * Z.of_nat 3)) by (simpl; lia).
  assert (H4 : - 2 ^ (8 * Z.of_nat 3 - 1) <= -2 < 2 ^ (8 * Z.of_nat 3 - 1))
    by (simpl; lia).
  split; [exact (conj H1 (conj H2 (conj H3 H4)))|].
  exact (int_codec_roundtrip BigEndian (repeat Byte.xaa 4) 3 0x123456 (-2)
           H1 H2 H3 H4).
Defined.

(** C5. [fds_set_uint_be] of 256 into one byte returns [FDS_ERR_TRUNC]
    and stores [FF], which [fds_get_uint_be] reads with [FDS_OK] as 255;
    [fds_set_int_be] of -200 into one byte returns [FDS_ERR_TRUNC] and
    stores [80], which [fds_get_int_be] reads with [FDS_OK] as -128. *)
Theorem int_codec_saturation (host : byte_order) (field : list byte) :
  (1 <= length field)%nat ->
  fds_set_uint_be host field 1 256
  = (FDS_ERR_TRUNC, Byte.xff :: drop 1 field)
  /\ (forall old,
        fds_get_uint_be host (Byte.xff :: drop 1 field) 1 old = (FDS_OK, 255))
  /\ fds_set_int_be host field 1 (-200)
     = (FDS_ERR_TRUNC, Byte.x80 :: drop 1 field)
  /\ (forall old,
        fds_get_int_be host (Byte.x80 :: drop 1 field) 1 old
        = (FDS_OK, -128)).
Proof.
  intros Hl. destruct field as [|b rest]; [cbn in Hl; lia|].
  destruct host; repeat split; intros; vm_compute; reflexivity.
Qed.

Lemma int_codec_saturation_witness :
  (1 <= length [Byte.x00])%nat
  /\ fds_set_uint_be LittleEndian [Byte.x00] 1 256
     = (FDS_ERR_TRUNC, Byte.xff :: drop 1 [Byte.x00])
  /\ (forall old,
        fds_get_uint_be LittleEndian (Byte.xff :: drop 1 [Byte.x00]) 1 old
        = (FDS_OK, 255))
  /\ fds_set_int_be LittleEndian [Byte.x00] 1 (-200)
     = (FDS_ERR_TRUNC, Byte.x80 :: drop 1 [Byte.x00])
  /\ (forall old,
        fds_get_int_be LittleEndian (Byte.x80 :: drop 1 [Byte.x00]) 1 old
        = (FDS_OK, -128)).
Proof.
  assert (H : (1 <= length [Byte.x00])%nat) by (simpl; lia).
  split; [exact H|]. exact (int_codec_saturation LittleEndian [Byte.x00] H).
Defined.

(** C8. [fds_set_uint_be] and [fds_set_int_be] called with size 0 or a
    size above 8, and [fds_set_float_be] called with a size other than 4
    and 8, return [FDS_ERR_ARG] and leave every byte of the field as it
    was. *)
Theorem set_invalid_size_unchanged (host : byte_order) (double : Type)
    (double_bits float_bits : double -> Z)
    (double_lt : double -> double -> bool) (double_neg : double -> double)
    (isnormal : double -> bool) (FLT_MAX : double)
    (field : list byte) (size fsize : nat) (u i : Z) (d : double) :
  (size = 0 \/ 8 < size)%nat -> fsize <> 4%nat -> fsize <> 8%nat ->
  fds_set_uint_be host field size u = (FDS_ERR_ARG, field)
  /\ fds_set_int_be host field size i = (FDS_ERR_ARG, field)
  /\ fds_set_float_be host double double_bits float_bits double_lt double_neg
       isnormal FLT_MAX field fsize d = (FDS_ERR_ARG, field).
Proof.
  intros Hsize H4 H8. repeat split.
  - destruct size as [|[|[|[|[|[|[|[|[|n]]]]]]]]]; try lia; reflexivity.
  - destruct size as [|[|[|[|[|[|[|[|[|n]]]]]]]]]; try lia; reflexivity.
  - unfold fds_set_float_be.
    destruct (Nat.eqb_spec fsize 8); [contradiction|].
    destruct (Nat.eqb_spec fsize 4); [contradiction|]. reflexivity.
Qed.

Lemma set_invalid_size_unchanged_witness :
  ((9 = 0 \/ 8 < 9)%nat /\ 5%nat <> 4%nat /\ 5%nat <> 8%nat)
  /\ fds_set_uint_be LittleEndian [Byte.x01; Byte.x02] 9 7
     = (FDS_ERR_ARG, [Byte.x01; Byte.x02])
  /\ fds_set_int_be LittleEndian [Byte.x01; Byte.x02] 9 (-7)
     = (FDS_ERR_ARG, [Byte.x01; Byte.x02])
  /\ fds_set_float_be LittleEndian Z id id Z.ltb Z.opp (fun _ => true) 1
       [Byte.x01; Byte.x02] 5 0 = (FDS_ERR_ARG, [Byte.x01; Byte.x02]).
Proof.
  assert (H1 : (9 = 0 \/ 8 < 9)%nat) by lia.
  assert (H2 : 5%nat <> 4%nat) by lia.
  assert (H3 : 5%nat <> 8%nat) by lia.
  split; [exact (conj H1 (conj H2 H3))|].
  exact (set_invalid_size_unchanged LittleEndian Z id id Z.ltb Z.opp
           (fun _ => true) 1 [Byte.x01; Byte.x02] 9 5 7 (-7) 0 H1 H2 H3).
Defined.

(** ** Timestamp codec *)

(** C7. Each of [fds_set_datetime_lp_be], [fds_set_datetime_hp_be],
    [fds_get_datetime_lp_be] and [fds_get_datetime_hp_be] returns [FDS_OK]
    for type [FDS_ET_DATE_TIME_SECONDS] with size 4 and for the types
    [FDS_ET_DATE_TIME_MILLISECONDS], [..._MICROSECONDS] and
    [..._NANOSECONDS] with size 8; for every other combination of size and
    type it returns [FDS_ERR_ARG] and leaves the field, or the output
    variable, as it was. *)
Theorem datetime_size_type_check (host : byte_order) (field : list byte)
    (size type : nat) (value : Z) (ts : timespec)
    (old_value : Z) (old_ts : timespec) :
  if datetime_combination_ok size type then
    (fds_set_datetime_lp_be host field size type value).1 = FDS_OK
    /\ (fds_set_datetime_hp_be host field size type ts).1 = FDS_OK
    /\ (fds_get_datetime_lp_be host field size type old_value).1 = FDS_OK
    /\ (fds_get_datetime_hp_be host field size type old_ts).1 = FDS_OK
  else
    fds_set_datetime_lp_be host field size type value = (FDS_ERR_ARG, field)
    /\ fds_set_datetime_hp_be host field size type ts = (FDS_ERR_ARG, field)
    /\ fds_get_datetime_lp_be host field size type old_value
       = (FDS_ERR_ARG, old_value)
    /\ fds_get_datetime_hp_be host field size type old_ts
       = (FDS_ERR_ARG, old_ts).
Proof.
  unfold datetime_combination_ok, fds_set_datetime_lp_be,
    fds_set_datetime_hp_be, fds_get_datetime_lp_be, fds_get_datetime_hp_be,
    datetime_size_bad, FDS_ET_DATE_TIME_SECONDS,
    FDS_ET_DATE_TIME_MILLISECONDS, FDS_ET_DATE_TIME_MICROSECONDS,
    FDS_ET_DATE_TIME_NANOSECONDS.
  destruct (type =? 14)%nat eqn:E14, (type =? 15)%nat eqn:E15,
    (type =? 16)%nat eqn:E16, (type =? 17)%nat eqn:E17,
    (size =? 4)%nat eqn:S4, (size =? 8)%nat eqn:S8;
    cbn [andb orb negb fst snd]; auto;
    exfalso; rewrite ?Nat.eqb_eq in *; lia.
Qed.

(** C2. Writing the pair (1234567890 s, 500000000 ns) with
    [fds_set_datetime_hp_be], type [FDS_ET_DATE_TIME_NANOSECONDS] and size
    8, returns [FDS_OK] and leaves the NTP timestamp [CD 40 81 52 80 00 00
    00] in the field; [fds_get_datetime_hp_be] on these bytes, same type
    and size, returns [FDS_OK] and exactly the pair. *)
Theorem datetime_nano_example (host : byte_order) (field : list byte) :
  (8 <= length field)%nat ->
  fds_set_datetime_hp_be host field 8 FDS_ET_DATE_TIME_NANOSECONDS
    {| tv_sec := 1234567890; tv_nsec := 500000000 |}
  = (FDS_OK,
     [Byte.xcd; Byte.x40; Byte.x81; Byte.x52;
      Byte.x80; Byte.x00; Byte.x00; Byte.x00] ++ drop 8 field)
  /\ (forall old,
        fds_get_datetime_hp_be host
          ([Byte.xcd; Byte.x40; Byte.x81; Byte.x52;
            Byte.x80; Byte.x00; Byte.x00; Byte.x00] ++ drop 8 field)
          8 FDS_ET_DATE_TIME_NANOSECONDS old
        = (FDS_OK, {| tv_sec := 1234567890; tv_nsec := 500000000 |})).
Proof.
  intros Hl.
  destruct field as [|b0 [|b1 [|b2 [|b3 [|b4 [|b5 [|b6 [|b7 rest]]]]]]]];
    cbn in Hl; try lia.
  destruct host; split; intros; vm_compute; reflexivity.
Qed.

Section NtpPartFacts.
Variable host : byte_order.

Lemma store_part_be_0 field a :
  (4 <= length field)%nat ->
  store_part host field 0 (htonl host a) = be_bytes 4 a ++ drop 4 field.
Proof.
  intros Hl. unfold store_part, htonl. rewrite object_bytes_host_to_be.
  change (4 * 0)%nat with 0%nat.
  rewrite memcpy_0 by (rewrite ?be_bytes_length; lia).
  now rewrite firstn_all2 by (rewrite be_bytes_length; lia).
Qed.

Lemma store_part_be_1 pre rest b :
  length pre = 4%nat -> (4 <= length rest)%nat ->
  store_part host (pre ++ rest) 1 (htonl host b)
  = pre ++ be_bytes 4 b ++ drop 4 rest.
Proof.
  intros Hp Hl. unfold store_part, htonl. rewrite object_bytes_host_to_be.
  change (4 * 1)%nat with 4%nat.
  rewrite memcpy_at by (rewrite ?length_app, ?be_bytes_length; lia).
  rewrite take_app_length' by lia.
  rewrite (firstn_all2 (n := 4) (be_bytes 4 b))
    by (rewrite be_bytes_length; lia).
  rewrite drop_app_ge by lia.
  do 3 f_equal. lia.
Qed.

Lemma ntp_store field a b :
  (8 <= length field)%nat ->
  store_part host (store_part host field 0 (htonl host a)) 1 (htonl host b)
  = be_bytes 4 a ++ be_bytes 4 b ++ drop 8 field.
Proof.
  intros Hl. rewrite store_part_be_0 by lia.
  rewrite store_part_be_1
    by (rewrite ?be_bytes_length, ?length_drop; lia).
  now rewrite drop_drop.
Qed.

Lemma ntp_load_0 a rest :
  ntohl host (load_part host (be_bytes 4 a ++ rest) 0) = a mod 2 ^ 32.
Proof.
  unfold ntohl, load_part. change (4 * 0)%nat with 0%nat. rewrite drop_0.
  rewrite load_exact by apply be_bytes_length.
  rewrite host_to_be_object_value by apply be_bytes_length.
  apply be_value_bytes.
Qed.

Lemma ntp_load_1 a b rest :
  ntohl host (load_part host (be_bytes 4 a ++ be_bytes 4 b ++ rest) 1)
  = b mod 2 ^ 32.
Proof.
  unfold ntohl, load_part. change (4 * 1)%nat with 4%nat.
  rewrite drop_app_length' by (now rewrite be_bytes_length).
  rewrite load_exact by apply be_bytes_length.
  rewrite host_to_be_object_value by apply be_bytes_length.
  apply be_value_bytes.
Qed.

End NtpPartFacts.

(** Clearing the low 11 bits of a 32-bit value. *)
Lemma land_micro_mask x :
  0 <= x < 2 ^ 32 -> Z.land x 0xFFFFF800 = 2048 * (x / 2048).
Proof.
  intros Hx.
  change 0xFFFFF800 with (Z.land (Z.ones 32) (Z.lnot (Z.ones 11))).
  rewrite Z.land_assoc, Z.land_ones, Z.mod_small by lia.
  rewrite <- Z.ldiff_land, Z.ldiff_ones_r by lia.
  rewrite Z.shiftl_mul_pow2, Z.shiftr_div_pow2 by lia.
  change (2 ^ 11) with 2048. lia.
Qed.

Lemma land_1 y : Z.land y 1 = y mod 2.
Proof. change 1 with (Z.ones 1). now rewrite Z.land_ones by lia. Qed.

Lemma micro_fraction_spec n :
  0 <= n <= 999999999 ->
  micro_fraction n = 2048 * (n * 4294967296 / 1000000000 / 2048)
  /\ 0 <= micro_fraction n < 2 ^ 32.
Proof.
  intros Hn. unfold micro_fraction, to_uint32, to_uint64, to_unsigned.
  rewrite (Z.mod_small n) by lia.
  rewrite Z.shiftl_mul_pow2 by lia. change (2 ^ 32) with 4294967296.
  rewrite (Z.mod_small (n * 4294967296)) by lia.
  assert (H0 : 0 <= n * 4294967296 / 1000000000 < 4294967296).
  { split; [apply Z.div_pos; lia|apply Z.div_lt_upper_bound; lia]. }
  rewrite Z.mod_small by assumption.
  rewrite land_micro_mask by (change (2 ^ 32) with 4294967296; lia).
  split; [reflexivity|].
  Z.div_mod_to_equations. lia.
Qed.

Lemma micro_nsec_spec f :
  0 <= f < 2 ^ 32 -> f mod 2048 = 0 ->
  micro_nsec f = (f * 1000000000 / 2147483648 + 1) / 2.
Proof.
  intros Hf Hm. unfold micro_nsec, to_uint64, to_int64, to_unsigned.
  rewrite land_micro_mask by assumption.
  change (2 ^ 32) with 4294967296 in Hf.
  replace (2048 * (f / 2048)) with f by (Z.div_mod_to_equations; lia).
  rewrite (Z.mod_small (f * 1000000000)) by lia.
  rewrite !Z.shiftr_div_pow2 by lia.
  change (2 ^ 31) with 2147483648. change (2 ^ 1) with 2.
  set (y := f * 1000000000 / 2147483648).
  assert (Hy : 0 <= y < 2000000000).
  { subst y. split; [apply Z.div_pos; lia|apply Z.div_lt_upper_bound; lia]. }
  rewrite land_1.
  assert (Hy2 : (if y mod 2 =? 0 then y else (y + 1) mod 2 ^ 64) / 2
                = (y + 1) / 2).
  { destruct (Z.eqb_spec (y mod 2) 0).
    - Z.div_mod_to_equations. lia.
    - rewrite Z.mod_small by lia. reflexivity. }
  rewrite Hy2.
  apply to_signed_small; [lia|].
  change (2 ^ (64 - 1)) with 9223372036854775808.
  Z.div_mod_to_equations. lia.
Qed.

Lemma micro_error n :
  0 <= n <= 999999999 ->
  n - 477 <= micro_nsec (micro_fraction n) <= n.
Proof.
  intros Hn. destruct (micro_fraction_spec n Hn) as [E R].
  rewrite micro_nsec_spec; [|assumption|].
  2:{ rewrite E. rewrite Z.mul_comm. apply Z.mod_mul. lia. }
  rewrite E. Z.div_mod_to_equations. lia.
Qed.

Section MicroFacts.
Variable host : byte_order.

Lemma set_hp_micro field ts :
  (8 <= length field)%nat ->
  fds_set_datetime_hp_be host field 8 FDS_ET_DATE_TIME_MICROSECONDS ts
  = (FDS_OK,
     be_bytes 4 (to_uint32 (to_uint32 (tv_sec ts) + FDS_CONVERT_EPOCHS_DIFF))
     ++ be_bytes 4 (micro_fraction (tv_nsec ts)) ++ drop 8 field).
Proof.
  intros Hl. unfold fds_set_datetime_hp_be, datetime_size_bad,
    FDS_ET_DATE_TIME_SECONDS, FDS_ET_DATE_TIME_MILLISECONDS,
    FDS_ET_DATE_TIME_MICROSECONDS, FDS_ET_DATE_TIME_NANOSECONDS.
  cbn [Nat.eqb negb andb orb]. cbv zeta.
  now rewrite ntp_store by assumption.
Qed.

Lemma get_hp_micro a f rest old :
  0 <= f < 2 ^ 32 ->
  fds_get_datetime_hp_be host (be_bytes 4 a ++ be_bytes 4 f ++ rest) 8
    FDS_ET_DATE_TIME_MICROSECONDS old
  = (FDS_OK,
     {| tv_sec :=
          to_int64 (to_uint64 (a mod 2 ^ 32 - FDS_CONVERT_EPOCHS_DIFF));
        tv_nsec := micro_nsec f |}).
Proof.
  intros Hf. unfold fds_get_datetime_hp_be, datetime_size_bad,
    FDS_ET_DATE_TIME_SECONDS, FDS_ET_DATE_TIME_MILLISECONDS,
    FDS_ET_DATE_TIME_MICROSECONDS, FDS_ET_DATE_TIME_NANOSECONDS.
  cbn [Nat.eqb negb andb orb]. cbv zeta.
  rewrite ntp_load_0, ntp_load_1. rewrite (Z.mod_small f) by assumption.
  reflexivity.
Qed.

End MicroFacts.

(** C4, as amended.  For every [timespec] with [tv_nsec] in
    [0, 999999999], written with type [FDS_ET_DATE_TIME_MICROSECONDS] and
    size 8 and read back with the same type and size, both calls return
    [FDS_OK] and the [tv_nsec] read differs from the original by at most
    1000 ns.  It is in general not a multiple of 1000: the code clears
    the low 11 bits of the binary fraction and does not round to whole
    microseconds.  [micro_error] gives sharper bounds. *)
Theorem datetime_micro_roundtrip (host : byte_order) (field : list byte)
    (ts old : timespec) :
  (8 <= length field)%nat -> 0 <= tv_nsec ts <= 999999999 ->
  (fds_set_datetime_hp_be host field 8 FDS_ET_DATE_TIME_MICROSECONDS ts).1
  = FDS_OK
  /\ (fds_get_datetime_hp_be host
        (fds_set_datetime_hp_be host field 8 FDS_ET_DATE_TIME_MICROSECONDS
           ts).2
        8 FDS_ET_DATE_TIME_MICROSECONDS old).1 = FDS_OK
  /\ Z.abs
       (tv_nsec
          (fds_get_datetime_hp_be host
             (fds_set_datetime_hp_be host field 8
                FDS_ET_DATE_TIME_MICROSECONDS ts).2
             8 FDS_ET_DATE_TIME_MICROSECONDS old).2
        - tv_nsec ts) <= 1000.
Proof.
  intros Hl Hn. rewrite set_hp_micro by assumption. cbn [fst snd].
  rewrite get_hp_micro by (apply micro_fraction_spec; assumption).
  cbn [fst snd tv_nsec]. pose proof (micro_error (tv_nsec ts) Hn).
  repeat split. lia.
Qed.

Lemma datetime_micro_roundtrip_witness :
  ((8 <= length (repeat Byte.x00 8))%nat /\ 0 <= 1000 <= 999999999)
  /\ (fds_set_datetime_hp_be LittleEndian (repeat Byte.x00 8) 8
        FDS_ET_DATE_TIME_MICROSECONDS
        {| tv_sec := 1234567890; tv_nsec := 1000 |}).1 = FDS_OK
  /\ (fds_get_datetime_hp_be LittleEndian
        (fds_set_datetime_hp_be LittleEndian (repeat Byte.x00 8) 8
           FDS_ET_DATE_TIME_MICROSECONDS
           {| tv_sec := 1234567890; tv_nsec := 1000 |}).2
        8 FDS_ET_DATE_TIME_MICROSECONDS {| tv_sec := 0; tv_nsec := 0 |}).1
     = FDS_OK
  /\ Z.abs
       (tv_nsec
          (fds_get_datetime_hp_be LittleEndian
             (fds_set_datetime_hp_be LittleEndian (repeat Byte.x00 8) 8
                FDS_ET_DATE_TIME_MICROSECONDS
                {| tv_sec := 1234567890; tv_nsec := 1000 |}).2
             8 FDS_ET_DATE_TIME_MICROSECONDS
             {| tv_sec := 0; tv_nsec := 0 |}).2
        - 1000) <= 1000.
Proof.
  assert (H1 : (8 <= length (repeat Byte.x00 8))%nat) by (simpl; lia).
  assert (H2 : 0 <= 1000 <= 999999999) by lia.
  split; [exact (conj H1 H2)|].
  exact (datetime_micro_roundtrip LittleEndian (repeat Byte.x00 8)
           {| tv_sec := 1234567890; tv_nsec := 1000 |}
           {| tv_sec := 0; tv_nsec := 0 |} H1 H2).
Defined.

(** C4 as stated fails: 1000 ns written and read back through the
    microsecond encoding is 954 ns, which is not a multiple of 1000. *)
Lemma datetime_micro_multiple_counterexample :
  tv_nsec
    (fds_get_datetime_hp_be LittleEndian
       (fds_set_datetime_hp_be LittleEndian (repeat Byte.x00 8) 8
          FDS_ET_DATE_TIME_MICROSECONDS
          {| tv_sec := 1234567890; tv_nsec := 1000 |}).2
       8 FDS_ET_DATE_TIME_MICROSECONDS {| tv_sec := 0; tv_nsec := 0 |}).2
  = 954
  /\ tv_nsec
       (fds_get_datetime_hp_be LittleEndian
          (fds_set_datetime_hp_be LittleEndian (repeat Byte.x00 8) 8
             FDS_ET_DATE_TIME_MICROSECONDS
             {| tv_sec := 1234567890; tv_nsec := 1000 |}).2
          8 FDS_ET_DATE_TIME_MICROSECONDS {| tv_sec := 0; tv_nsec := 0 |}).2
     mod 1000 <> 0.
Proof. split; [vm_compute; reflexivity|vm_compute; discriminate]. Qed.

Lemma datetime_nano_example_witness :
  (8 <= length (repeat Byte.xaa 8))%nat
  /\ fds_set_datetime_hp_be LittleEndian (repeat Byte.xaa 8) 8
       FDS_ET_DATE_TIME_NANOSECONDS
       {| tv_sec := 1234567890; tv_nsec := 500000000 |}
     = (FDS_OK,
        [Byte.xcd; Byte.x40; Byte.x81; Byte.x52;
         Byte.x80; Byte.x00; Byte.x00; Byte.x00]
        ++ drop 8 (repeat Byte.xaa 8))
  /\ (forall old,
        fds_get_datetime_hp_be LittleEndian
          ([Byte.xcd; Byte.x40; Byte.x81; Byte.x52;
            Byte.x80; Byte.x00; Byte.x00; Byte.x00]
           ++ drop 8 (repeat Byte.xaa 8))
          8 FDS_ET_DATE_TIME_NANOSECONDS old
        = (FDS_OK, {| tv_sec := 1234567890; tv_nsec := 500000000 |})).
Proof.
  assert (H : (8 <= length (repeat Byte.xaa 8))%nat) by (simpl; lia).
  split; [exact H|].
  exact (datetime_nano_example LittleEndian (repeat Byte.xaa 8) H).
Defined.

(** ** UTF-8 characters *)

(** ** Bit masks over several bytes *)

Lemma land_low_shift8 a T : 0 <= a < 256 -> Z.land a (Z.shiftl T 8) = 0.
Proof.
  intros Ha. rewrite <- (Z.mod_small a (2 ^ 8)) by (change (2 ^ 8) with 256; lia).
  rewrite <- Z.land_ones by lia. rewrite <- Z.land_assoc.
  rewrite (Z.land_comm (Z.ones 8)), Z.land_ones by lia.
  rewrite Z.shiftl_mul_pow2 by lia. rewrite Z.mod_mul by lia.
  apply Z.land_0_r.
Qed.

Lemma lor_shift8 a T : 0 <= a < 256 -> Z.lor a (Z.shiftl T 8) = a + 256 * T.
Proof.
  intros Ha. rewrite <- Z.lxor_lor by (now apply land_low_shift8).
  rewrite <- Z.add_nocarry_lxor by (now apply land_low_shift8).
  rewrite Z.shiftl_mul_pow2 by lia. change (2 ^ 8) with 256. lia.
Qed.

Lemma land_bytes a m T M :
  0 <= a < 256 -> 0 <= m < 256 ->
  Z.land (Z.lor a (Z.shiftl T 8)) (Z.lor m (Z.shiftl M 8))
  = Z.lor (Z.land a m) (Z.shiftl (Z.land T M) 8).
Proof.
  intros Ha Hm. rewrite Z.land_lor_distr_l, !Z.land_lor_distr_r.
  rewrite (land_low_shift8 a M) by assumption.
  rewrite (Z.land_comm (Z.shiftl T 8) m), (land_low_shift8 m T) by assumption.
  rewrite Z.lor_0_r, Z.lor_0_l. now rewrite Z.shiftl_land.
Qed.

Lemma unsigned_mask_c0 b :
  byte.unsigned (mask_c0 b) = Z.land (byte.unsigned b) 0xC0.
Proof. destruct b; reflexivity. Qed.

Lemma is_cont_mask b : is_cont b = true <-> mask_c0 b = Byte.x80.
Proof. destruct b; split; first [reflexivity | discriminate]. Qed.

Lemma le_combine_cons b t :
  le_combine (b :: t) = Z.lor (byte.unsigned b) (Z.shiftl (le_combine t) 8).
Proof. reflexivity. Qed.

Lemma le_combine_land_c0 bs :
  Z.land (le_combine bs) (le_combine (repeat Byte.xc0 (length bs)))
  = le_combine (map mask_c0 bs).
Proof.
  induction bs as [|b t IH]; [reflexivity|].
  cbn [length repeat map]. rewrite !le_combine_cons.
  rewrite land_bytes by (apply byte.unsigned_range || (cbv; split; congruence)).
  now rewrite IH, unsigned_mask_c0.
Qed.

(** All bytes of a word are continuation bytes iff the word masked with
    [0xC0...C0] is [0x80...80]. *)
Lemma cont_mask bs :
  (Z.land (le_combine bs) (le_combine (repeat Byte.xc0 (length bs)))
   =? le_combine (repeat Byte.x80 (length bs)))
  = forallb is_cont bs.
Proof.
  rewrite le_combine_land_c0.
  destruct (Z.eqb_spec (le_combine (map mask_c0 bs))
              (le_combine (repeat Byte.x80 (length bs)))) as [E|E].
  - apply le_combine_inj in E; [|now rewrite length_map, repeat_length].
    symmetry. apply forallb_forall. intros b Hb. apply is_cont_mask.
    apply (repeat_spec (length bs)). rewrite <- E. now apply in_map.
  - symmetry. apply not_true_is_false. intros F. apply E. f_equal.
    clear E. induction bs as [|b t IH]; [reflexivity|].
    cbn [forallb] in F. apply andb_prop in F as [Fb Ft].
    cbn [map length repeat]. f_equal; [now apply is_cont_mask|now apply IH].
Qed.

Lemma mem_read_drop k p i : mem_read (drop k p) i = mem_read p (k + i).
Proof.
  unfold mem_read. revert p. induction k as [|k IH]; intros p.
  - now rewrite drop_0.
  - destruct p as [|b p]; [now destruct i|]. cbn [drop Nat.add nth]. apply IH.
Qed.

Section ValidCharFacts.
Variable host : byte_order.

Lemma object_bytes_value n bs :
  length bs = n -> object_bytes host n (object_value host bs) = bs.
Proof.
  intros Hn. unfold object_bytes, object_value. destruct host.
  - now apply split_le_combine'.
  - rewrite split_le_combine' by (now rewrite length_rev).
    apply rev_involutive.
Qed.

(** The 16-bit test of the two tail bytes of a 3-byte character. *)
Lemma tail2_test str :
  (Z.land (load host 2 (drop 1 str)) 0xC0C0 =? 0x8080)
  = is_cont (mem_read str 1) && is_cont (mem_read str 2).
Proof.
  unfold load, load_bytes. cbn [seq map]. rewrite !mem_read_drop.
  cbn [Nat.add]. unfold object_value.
  change 0xC0C0 with (le_combine (repeat Byte.xc0 2)).
  change 0x8080 with (le_combine (repeat Byte.x80 2)).
  destruct host; cbn [rev app].
  - rewrite (cont_mask [_; _]). cbn [forallb]. now rewrite andb_true_r.
  - rewrite (cont_mask [_; _]). cbn [forallb].
    rewrite andb_true_r. apply andb_comm.
Qed.

(** The 32-bit test of a 4-byte character after its first byte has been
    overwritten with [0x80]. *)
Lemma tail4_test str :
  (Z.land
     (object_value host
        (mem_write (object_bytes host 4 (load host 4 str)) 0 Byte.x80))
     0xC0C0C0C0 =? 0x80808080)
  = is_cont (mem_read str 1) && is_cont (mem_read str 2)
    && is_cont (mem_read str 3).
Proof.
  unfold load. rewrite object_bytes_value by apply load_bytes_length.
  unfold load_bytes, mem_write. cbn [seq map]. cbn [insert list_insert].
  unfold object_value.
  change 0xC0C0C0C0 with (le_combine (repeat Byte.xc0 4)).
  change 0x80808080 with (le_combine (repeat Byte.x80 4)).
  destruct host; cbn [rev app].
  - rewrite (cont_mask [_; _; _; _]). cbn [forallb].
    change (is_cont Byte.x80) with true. cbn [andb].
    now rewrite andb_true_r, andb_assoc.
  - rewrite (cont_mask [_; _; _; _]). cbn [forallb].
    change (is_cont Byte.x80) with true.
    destruct (is_cont (mem_read str 1)), (is_cont (mem_read str 2)),
      (is_cont (mem_read str 3)); reflexivity.
Qed.

(** [utf8char_is_valid] computes [utf8_len], whatever the byte order. *)
Lemma utf8char_is_valid_len str len :
  utf8char_is_valid host str len = Z.of_nat (utf8_len str len).
Proof.
  unfold utf8char_is_valid, utf8_len. cbv zeta.
  rewrite tail2_test, tail4_test. unfold is_cont.
  repeat match goal with
  | |- context [if ?c then _ else _] => destruct c
  end; reflexivity.
Qed.

End ValidCharFacts.

Lemma lead_byte_cases b :
  lead_tests b = (true, false, false, false)
  \/ lead_tests b = (false, true, false, false)
  \/ lead_tests b = (false, false, true, false)
  \/ lead_tests b = (false, false, false, true)
  \/ lead_tests b = (false, false, false, false).
Proof. destruct b; vm_compute; auto 6. Qed.

Ltac lead_cases b :=
  let E := fresh "E" in
  let E1 := fresh "E" in let E2 := fresh "E" in
  let E3 := fresh "E" in let E4 := fresh "E" in
  destruct (lead_byte_cases b) as [E|[E|[E|[E|E]]]];
  unfold lead_tests in E; cbv zeta in E;
  injection E as E1 E2 E3 E4; rewrite ?E1, ?E2, ?E3, ?E4.

Lemma utf8_len_bound str len :
  (utf8_len str len <= 4)%nat
  /\ (2 <= utf8_len str len -> utf8_len str len <= len)%nat.
Proof.
  unfold utf8_len. cbv zeta. lead_cases (mem_read str 0); cbn [andb];
    repeat match goal with
    | |- context [if ?c then _ else _] => destruct c eqn:?
    end; rewrite ?Nat.leb_le in *; lia.
Qed.

(** The length of a character depends on its own bytes only. *)
Lemma utf8_len_ext str len str' len' :
  (0 < utf8_len str len)%nat ->
  (forall i, (i < utf8_len str len)%nat -> mem_read str' i = mem_read str i) ->
  (utf8_len str len <= len')%nat ->
  utf8_len str' len' = utf8_len str len.
Proof.
  intros Hpos Hext Hlen.
  assert (E0 : mem_read str' 0 = mem_read str 0) by (apply Hext; lia).
  revert Hpos Hext Hlen. unfold utf8_len. cbv zeta. rewrite E0.
  lead_cases (mem_read str 0); cbn [andb]; intros Hpos Hext Hlen;
    try reflexivity; try lia.
  - destruct (2 <=? len)%nat; [|lia].
    destruct (is_cont (mem_read str 1)) eqn:C1; [|lia].
    rewrite (Hext 1%nat), C1 by lia.
    now rewrite (proj2 (Nat.leb_le 2 len')) by lia.
  - destruct (3 <=? len)%nat; [|lia].
    destruct (is_cont (mem_read str 1)) eqn:C1; cbn [andb] in *; [|lia].
    destruct (is_cont (mem_read str 2)) eqn:C2; [|lia].
    rewrite (Hext 1%nat), (Hext 2%nat), C1, C2 by lia.
    now rewrite (proj2 (Nat.leb_le 3 len')) by lia.
  - destruct (4 <=? len)%nat; [|lia].
    destruct (is_cont (mem_read str 1)) eqn:C1; cbn [andb] in *; [|lia].
    destruct (is_cont (mem_read str 2)) eqn:C2; cbn [andb] in *; [|lia].
    destruct (is_cont (mem_read str 3)) eqn:C3; [|lia].
    rewrite (Hext 1%nat), (Hext 2%nat), (Hext 3%nat), C1, C2, C3 by lia.
    now rewrite (proj2 (Nat.leb_le 4 len')) by lia.
Qed.

Lemma mem_read_app_l c rest i :
  (i < length c)%nat -> mem_read (c ++ rest) i = mem_read c i.
Proof. intros H. unfold mem_read. now apply app_nth1. Qed.

Lemma utf8_len_app c rest len' :
  (0 < length c)%nat -> utf8_len c (length c) = length c ->
  (length c <= len')%nat -> utf8_len (c ++ rest) len' = length c.
Proof.
  intros Hpos Hc Hl. transitivity (utf8_len c (length c)); [|exact Hc].
  apply utf8_len_ext; rewrite Hc.
  - assumption.
  - intros i Hi. now apply mem_read_app_l.
  - assumption.
Qed.




Section ValidatorFacts.
Variable host : byte_order.

Lemma utf8check_loop_valid l :
  utf8_valid l ->
  forall pre rest fuel, (length l <= fuel)%nat ->
    utf8check_loop host fuel (pre ++ l ++ rest) (length pre + length l)
      (length pre) = Some FDS_OK.
Proof.
  induction 1 as [|c l Hpos Hc Hl IH]; intros pre rest fuel Hfuel.
  - cbn [length]. rewrite Nat.add_0_r.
    destruct fuel; cbn [utf8check_loop]; now rewrite Nat.ltb_irrefl.
  - rewrite length_app in *. destruct fuel as [|fuel]; [lia|].
    cbn [utf8check_loop].
    rewrite (proj2 (Nat.ltb_lt _ _)) by lia.
    rewrite drop_app_length, utf8char_is_valid_len, <- app_assoc.
    rewrite utf8_len_app by (auto; lia).
    destruct (Z.eqb_spec (Z.of_nat (length c)) 0); [lia|].
    rewrite Nat2Z.id.
    specialize (IH (pre ++ c) rest fuel).
    rewrite length_app, <- !app_assoc in IH.
    rewrite Nat.add_assoc. apply IH. lia.
Qed.

(** Validation accepts a valid prefix of a buffer, read with its length. *)
Lemma utf8check_valid l rest :
  utf8_valid l ->
  fds_string_utf8check host (l ++ rest) (length l) = Some FDS_OK.
Proof.
  intros H. unfold fds_string_utf8check.
  apply (utf8check_loop_valid l H [] rest). lia.
Qed.

End ValidatorFacts.

(** ** More on memory: copies and single writes *)

Lemma memcpy_length p off src n : length (memcpy p off src n) = length p.
Proof. unfold memcpy. apply length_inserts. Qed.

Lemma mem_write_length p i b : length (mem_write p i b) = length p.
Proof. unfold mem_write. apply length_insert. Qed.

Lemma memcpy_spec p off src n :
  (off + n <= length p)%nat ->
  memcpy p off src n = take off p ++ load_bytes src n ++ drop (off + n) p.
Proof.
  intros Hp. unfold memcpy.
  rewrite <- (take_drop off p) at 1.
  replace off with (length (take off p) + 0)%nat at 1
    by (rewrite length_take; lia).
  rewrite list_inserts_app_r. f_equal.
  rewrite <- (take_drop n (drop off p)) at 1.
  rewrite list_inserts_0_r
    by (rewrite load_bytes_length, length_take, length_drop; lia).
  now rewrite drop_drop.
Qed.

Lemma take_memcpy p off src n :
  (off + n <= length p)%nat ->
  take (off + n) (memcpy p off src n) = take off p ++ load_bytes src n.
Proof.
  intros Hp. rewrite memcpy_spec by assumption.
  rewrite app_assoc. apply take_app_length'.
  rewrite length_app, length_take, load_bytes_length. lia.
Qed.


Lemma take_mem_write p i b :
  (i < length p)%nat -> take (i + 1) (mem_write p i b) = take i p ++ [b].
Proof.
  intros H. unfold mem_write. rewrite insert_take_drop by assumption.
  change (b :: drop (S i) p) with ([b] ++ drop (S i) p).
  rewrite app_assoc. apply take_app_length'.
  rewrite length_app, length_take. cbn. lia.
Qed.

Lemma take_write2 p i a b :
  (i + 2 <= length p)%nat ->
  take (i + 2) (mem_write (mem_write p i a) (i + 1) b) = take i p ++ [a; b].
Proof.
  intros H. replace (i + 2)%nat with (i + 1 + 1)%nat by lia.
  rewrite take_mem_write by (rewrite mem_write_length; lia).
  rewrite take_mem_write by lia. now rewrite <- app_assoc.
Qed.

Lemma take_write3 p i a b c :
  (i + 3 <= length p)%nat ->
  take (i + 3)
    (mem_write (mem_write (mem_write p i a) (i + 1) b) (i + 2) c)
  = take i p ++ [a; b; c].
Proof.
  intros H. replace (i + 3)%nat with (i + 2 + 1)%nat by lia.
  rewrite take_mem_write by (rewrite !mem_write_length; lia).
  rewrite take_write2 by lia. now rewrite <- app_assoc.
Qed.

Lemma take_write4 p i a b c d :
  (i + 4 <= length p)%nat ->
  take (i + 4)
    (mem_write
       (mem_write (mem_write (mem_write p i a) (i + 1) b) (i + 2) c)
       (i + 3) d)
  = take i p ++ [a; b; c; d].
Proof.
  intros H. replace (i + 4)%nat with (i + 3 + 1)%nat by lia.
  rewrite take_mem_write by (rewrite !mem_write_length; lia).
  rewrite take_write3 by lia. now rewrite <- app_assoc.
Qed.


Lemma load_bytes_S p n :
  load_bytes p (S n) = mem_read p 0 :: load_bytes (drop 1 p) n.
Proof.
  unfold load_bytes. cbn [seq map]. f_equal.
  rewrite <- seq_shift, map_map. apply map_ext. intros i.
  now rewrite mem_read_drop.
Qed.

Lemma load_bytes_add n : forall p m,
  load_bytes p (n + m) = load_bytes p n ++ load_bytes (drop n p) m.
Proof.
  induction n as [|n IH]; intros p m.
  - now rewrite drop_0.
  - cbn [Nat.add]. rewrite !load_bytes_S, IH, drop_drop. reflexivity.
Qed.

(** ** The escaper *)

(** ** Classification of the first byte *)

Lemma escapable_ascii str len subst :
  utf8char_is_escapable str len = Some subst ->
  lead_tests (mem_read str 0) = (true, false, false, false)
  /\ byte.unsigned subst < 128.
Proof.
  unfold utf8char_is_escapable. generalize (mem_read str 0). intros b.
  destruct b; vm_compute; intros H; try discriminate H;
    injection H as <-; split; reflexivity.
Qed.

Lemma control_lead str len :
  utf8char_is_control str len = true ->
  lead_tests (mem_read str 0) = (true, false, false, false)
  \/ lead_tests (mem_read str 0) = (false, false, false, false).
Proof.
  unfold utf8char_is_control. generalize (mem_read str 0). intros b.
  destruct b; vm_compute; intros H; try discriminate H; auto.
Qed.

Lemma utf8_len_lead_ascii str len :
  lead_tests (mem_read str 0) = (true, false, false, false) ->
  utf8_len str len = 1%nat.
Proof.
  unfold lead_tests, utf8_len. cbv zeta. intros E.
  injection E as E1 E2 E3 E4. now rewrite E1.
Qed.

Lemma utf8_len_lead_none str len :
  lead_tests (mem_read str 0) = (false, false, false, false) ->
  utf8_len str len = 0%nat.
Proof.
  unfold lead_tests, utf8_len. cbv zeta. intros E.
  injection E as E1 E2 E3 E4. now rewrite E1, E2, E3, E4.
Qed.





(** ** The loop invariant of the escaper *)

Section EscaperBodyFacts.
Variable host : byte_order.


End EscaperBodyFacts.

Section EscaperLoopFacts.
Variable host : byte_order.


End EscaperLoopFacts.



Section Termination.
Variable host : byte_order.

Lemma string2str_body_advances field size str_size pos_in pos_copy pos_out out :
  match string2str_body host field size str_size pos_in pos_copy pos_out out
  with
  | Continue pos_in' _ _ _ => (pos_in < pos_in')%nat
  | Return _ _ => True
  end.
Proof.
  unfold string2str_body. cbv zeta.
  set (v := utf8char_is_valid host (drop pos_in field) (size - pos_in)).
  set (step := if v >? 0 then Z.to_nat v else 1%nat).
  assert (Hstep : (0 < step)%nat)
    by (subst step; destruct (Z.gtb_spec v 0); lia).
  clearbody step.
  repeat match goal with
  | |- context [match ?c with _ => _ end] =>
      lazymatch type of c with
      | iteration => fail
      | _ => destruct c
      end
  end; try exact I; lia.
Qed.

Lemma string2str_loop_total field size str_size :
  forall fuel pos_in pos_copy pos_out out,
    (size - pos_in <= fuel)%nat ->
    exists r, string2str_loop host fuel field size str_size
                pos_in pos_copy pos_out out = Some r.
Proof.
  induction fuel as [|fuel IH]; intros pos_in pos_copy pos_out out Hfuel;
    cbn [string2str_loop]; destruct (Nat.ltb_spec pos_in size); try lia.
  - destruct (_ <? _)%nat; eauto.
  - pose proof (string2str_body_advances field size str_size pos_in pos_copy
                  pos_out out) as Hadv.
    destruct (string2str_body host field size str_size pos_in pos_copy
                pos_out out); [apply IH; lia|eauto].
  - destruct (_ <? _)%nat; eauto.
Qed.

(** The escaper always returns: its loop never runs out of fuel. *)
Lemma fds_string2str_total field size str str_size :
  exists r, fds_string2str host field size str str_size = Some r.
Proof.
  unfold fds_string2str. destruct (_ <? _)%nat; [eauto|].
  apply string2str_loop_total. lia.
Qed.

Lemma utf8check_loop_total field size :
  forall fuel idx, (size - idx <= fuel)%nat ->
    exists r, utf8check_loop host fuel field size idx = Some r.
Proof.
  induction fuel as [|fuel IH]; intros idx Hfuel;
    cbn [utf8check_loop]; destruct (Nat.ltb_spec idx size); try lia; eauto.
  rewrite utf8char_is_valid_len.
  destruct (Z.eqb_spec (Z.of_nat (utf8_len (drop idx field) (size - idx))) 0);
    [eauto|].
  apply IH. lia.
Qed.

(** So does the validator. *)
Lemma fds_string_utf8check_total field size :
  exists r, fds_string_utf8check host field size = Some r.
Proof. apply utf8check_loop_total. lia. Qed.

End Termination.

(** C6. With a capacity of at least 8, [fds_string2str] on the four bytes
    [41 0A C3 28] returns 7 and writes [41 5C 6E EF BF BD 28] and the
    terminating NUL: the invalid lead byte [C3] is replaced by U+FFFD and
    consumes one byte of input, so [28] is copied as a character of its
    own.  The rest of the buffer is untouched. *)
Theorem escaper_example (host : byte_order) (str : list byte)
    (str_size : nat) :
  (8 <= str_size)%nat -> (str_size <= length str)%nat ->
  fds_string2str host [Byte.x41; Byte.x0a; Byte.xc3; Byte.x28] 4 str str_size
  = Some (7, [Byte.x41; Byte.x5c; Byte.x6e; Byte.xef; Byte.xbf; Byte.xbd;
              Byte.x28; Byte.x00] ++ drop 8 str).
Proof.
  intros Hcap Hlen.
  destruct str as [|b0 [|b1 [|b2 [|b3 [|b4 [|b5 [|b6 [|b7 rest]]]]]]]];
    cbn [length] in Hlen; try lia.
  destruct str_size as [|[|[|[|[|[|[|[|k]]]]]]]]; try lia.
  destruct host; vm_compute; reflexivity.
Qed.

Lemma escaper_example_witness :
  ((8 <= 8)%nat /\ (8 <= length (repeat Byte.xaa 9))%nat)
  /\ fds_string2str BigEndian [Byte.x41; Byte.x0a; Byte.xc3; Byte.x28] 4
       (repeat Byte.xaa 9) 8
     = Some (7, [Byte.x41; Byte.x5c; Byte.x6e; Byte.xef; Byte.xbf; Byte.xbd;
                 Byte.x28; Byte.x00] ++ drop 8 (repeat Byte.xaa 9)).
Proof.
  assert (H1 : (8 <= 8)%nat) by lia.
  assert (H2 : (8 <= length (repeat Byte.xaa 9))%nat) by (simpl; lia).
  split; [exact (conj H1 H2)|].
  exact (escaper_example BigEndian (repeat Byte.xaa 9) 8 H1 H2).
Defined.

Lemma hex_char_hi b :
  hex_char (Z.shiftr (Z.land (byte.unsigned b) 0xF0) 4)
  = hex_upper (byte.unsigned b / 16).
Proof. destruct b; reflexivity. Qed.

Lemma hex_char_lo b :
  hex_char (Z.land (byte.unsigned b) 0x0F) = hex_upper (byte.unsigned b mod 16).
Proof. destruct b; reflexivity. Qed.

(** A first byte in [0x80, 0x9F] starts no character, is not escapable and
    is a control character. *)
Lemma c1_byte_class str len :
  0x80 <= byte.unsigned (mem_read str 0) <= 0x9F ->
  utf8_len str len = 0%nat
  /\ utf8char_is_escapable str len = None
  /\ utf8char_is_control str len = true.
Proof.
  unfold utf8_len, utf8char_is_escapable, utf8char_is_control. cbv zeta.
  generalize (mem_read str 0). intros b [H1 H2].
  apply Z.leb_le in H1, H2. revert H1 H2.
  destruct b; vm_compute; intros H1 H2;
    try discriminate H1; try discriminate H2; repeat split; reflexivity.
Qed.

Lemma drop_mem_write_lt p n i b :
  (i < n)%nat -> drop n (mem_write p i b) = drop n p.
Proof. intros H. unfold mem_write. now apply drop_insert_lt. Qed.

Lemma drop_memcpy p off src n k :
  (off + n <= length p)%nat -> (off + n <= k)%nat ->
  drop k (memcpy p off src n) = drop k p.
Proof.
  intros Hp Hk. rewrite memcpy_spec by assumption.
  rewrite app_assoc, drop_app_ge
    by (rewrite length_app, length_take, load_bytes_length; lia).
  rewrite length_app, length_take, load_bytes_length, drop_drop.
  f_equal. lia.
Qed.

(** One pass of the loop at a byte in [0x80, 0x9F]. *)
Lemma string2str_body_c1 (host : byte_order) (field : list byte)
    (size str_size pos_in pos_copy pos_out : nat) (ptr_out : list byte) :
  (pos_in < size)%nat -> (pos_copy <= pos_in)%nat ->
  (pos_out <= str_size <= length ptr_out)%nat ->
  0x80 <= byte.unsigned (mem_read field pos_in) <= 0x9F ->
  if (pos_out + (pos_in - pos_copy) + 4 <=? str_size)%nat then
    exists ptr_out',
      string2str_body host field size str_size pos_in pos_copy pos_out ptr_out
      = Continue (pos_in + 1) (pos_in + 1)
          (pos_out + (pos_in - pos_copy) + 4) ptr_out'
      /\ take (pos_out + (pos_in - pos_copy) + 4) ptr_out'
         = take pos_out ptr_out
           ++ load_bytes (drop pos_copy field) (pos_in - pos_copy)
           ++ [Byte.x5c; Byte.x78;
               hex_upper (byte.unsigned (mem_read field pos_in) / 16);
               hex_upper (byte.unsigned (mem_read field pos_in) mod 16)]
      /\ drop (pos_out + (pos_in - pos_copy) + 4) ptr_out'
         = drop (pos_out + (pos_in - pos_copy) + 4) ptr_out
  else
    exists ptr_out',
      string2str_body host field size str_size pos_in pos_copy pos_out ptr_out
      = Return FDS_ERR_BUFFER ptr_out'.
Proof.
  intros Hlt Hcopy Hout Hc.
  assert (Hb : mem_read (drop pos_in field) 0 = mem_read field pos_in)
    by (rewrite mem_read_drop; f_equal; lia).
  rewrite <- Hb in Hc.
  destruct (c1_byte_class (drop pos_in field) (size - pos_in) Hc)
    as (Hlen & Hesc & Hctl).
  unfold string2str_body. cbv zeta.
  rewrite utf8char_is_valid_len, Hlen, Hesc, Hctl.
  change (Z.of_nat 0 >? 0) with false. cbn [negb andb Z.of_nat Z.eqb].
  cbv iota.
  rewrite hex_char_hi, hex_char_lo, Hb.
  set (copy_len := (pos_in - pos_copy)%nat).
  destruct (Nat.leb_spec (pos_out + copy_len + 4) str_size) as [Hcap|Hcap].
  - rewrite (proj2 (Nat.ltb_ge _ _)) by lia.
    rewrite (proj2 (Nat.ltb_ge _ _)) by lia.
    eexists. split; [reflexivity|]. split.
    + rewrite take_write4 by (rewrite memcpy_length; lia).
      rewrite take_memcpy by lia. now rewrite <- app_assoc.
    + rewrite !drop_mem_write_lt by lia. apply drop_memcpy; lia.
  - destruct (Nat.ltb_spec (str_size - pos_out) copy_len);
      [eexists; reflexivity|].
    rewrite (proj2 (Nat.ltb_lt _ _)) by lia. eexists; reflexivity.
Qed.

(** The same on a whole call: a field that consists of one such byte. *)
Lemma escaper_c1_single (host : byte_order) (b : byte) (str : list byte)
    (str_size : nat) :
  0x80 <= byte.unsigned b <= 0x9F ->
  (5 <= str_size <= length str)%nat ->
  fds_string2str host [b] 1 str str_size
  = Some (4, [Byte.x5c; Byte.x78; hex_upper (byte.unsigned b / 16);
              hex_upper (byte.unsigned b mod 16); Byte.x00] ++ drop 5 str).
Proof.
  intros [H1 H2] [Hcap Hlen]. apply Z.leb_le in H1, H2.
  destruct str as [|b0 [|b1 [|b2 [|b3 [|b4 rest]]]]];
    cbn [length] in Hlen; try lia.
  destruct str_size as [|[|[|[|[|k]]]]]; try lia. clear Hcap Hlen.
  revert H1 H2.
  destruct b; vm_compute; intros H1 H2;
    try discriminate H1; try discriminate H2;
    destruct host; reflexivity.
Qed.

(** ** Dispatch *)

Section DispatchFacts.

Variable host : byte_order.
Variables fds_uint2str_be fds_int2str_be fds_float2str_be fds_mac2str
          fds_ip2str : converter_fn.
Variable fds_datetime2str_be :
  list byte -> nat -> nat -> list byte -> nat -> Z -> option (Z * list byte).

Local Notation "'field2str'" :=
  (fds_field2str_be host fds_uint2str_be fds_int2str_be fds_float2str_be
     fds_mac2str fds_ip2str fds_datetime2str_be).
Local Notation "'conversion_table'" :=
  (table host fds_uint2str_be fds_int2str_be fds_float2str_be
     fds_mac2str fds_ip2str fds_datetime2str_be).

(** C9. The conversion table of [fds_field2str_be] has twenty entries.
    For every type tag greater than or equal to its size, among them the
    structured types basicList, subTemplateList and subTemplateMultiList,
    the result is [FDS_ERR_FORMAT] (which is not [FDS_ERR_ARG]) with the
    output untouched, whatever the field, the sizes and the buffer; for
    every smaller tag the table has an entry and the result is that of the
    entry, which is for each tag the renderer named below. *)
Theorem field2str_dispatch (field : list byte) (size : nat) (type : nat)
    (str : list byte) (str_size : nat) :
  length conversion_table = 20%nat
  /\ (if (length conversion_table <=? type)%nat then
     field2str field size type str str_size = Some (FDS_ERR_FORMAT, str)
   else
     exists convert,
       conversion_table !! type = Some convert
       /\ field2str field size type str str_size
          = convert field size str str_size)
  /\ FDS_ERR_FORMAT <> FDS_ERR_ARG
  /\ field2str field size FDS_ET_BASIC_LIST str str_size
     = Some (FDS_ERR_FORMAT, str)
  /\ field2str field size FDS_ET_SUB_TEMPLATE_LIST str str_size
     = Some (FDS_ERR_FORMAT, str)
  /\ field2str field size FDS_ET_SUB_TEMPLATE_MULTILIST str str_size
     = Some (FDS_ERR_FORMAT, str)
  /\ field2str field size FDS_ET_OCTET_ARRAY str str_size
     = fds_octet_array2str field size str str_size
  /\ field2str field size FDS_ET_UNSIGNED_8 str str_size
     = fds_uint2str_be field size str str_size
  /\ field2str field size FDS_ET_UNSIGNED_16 str str_size
     = fds_uint2str_be field size str str_size
  /\ field2str field size FDS_ET_UNSIGNED_32 str str_size
     = fds_uint2str_be field size str str_size
  /\ field2str field size FDS_ET_UNSIGNED_64 str str_size
     = fds_uint2str_be field size str str_size
  /\ field2str field size FDS_ET_SIGNED_8 str str_size
     = fds_int2str_be field size str str_size
  /\ field2str field size FDS_ET_SIGNED_16 str str_size
     = fds_int2str_be field size str str_size
  /\ field2str field size FDS_ET_SIGNED_32 str str_size
     = fds_int2str_be field size str str_size
  /\ field2str field size FDS_ET_SIGNED_64 str str_size
     = fds_int2str_be field size str str_size
  /\ field2str field size FDS_ET_FLOAT_32 str str_size
     = fds_float2str_be field size str str_size
  /\ field2str field size FDS_ET_FLOAT_64 str str_size
     = fds_float2str_be field size str str_size
  /\ field2str field size FDS_ET_BOOLEAN str str_size
     = wrapper_bool field size str str_size
  /\ field2str field size FDS_ET_MAC_ADDRESS str str_size
     = fds_mac2str field size str str_size
  /\ field2str field size FDS_ET_STRING str str_size
     = fds_string2str host field size str str_size
  /\ field2str field size FDS_ET_DATE_TIME_SECONDS str str_size
     = wrapper_ts_sec_be fds_datetime2str_be field size str str_size
  /\ field2str field size FDS_ET_DATE_TIME_MILLISECONDS str str_size
     = wrapper_ts_msec_be fds_datetime2str_be field size str str_size
  /\ field2str field size FDS_ET_DATE_TIME_MICROSECONDS str str_size
     = wrapper_ts_usec_be fds_datetime2str_be field size str str_size
  /\ field2str field size FDS_ET_DATE_TIME_NANOSECONDS str str_size
     = wrapper_ts_nsec_be fds_datetime2str_be field size str str_size
  /\ field2str field size FDS_ET_IPV4_ADDRESS str str_size
     = wrapper_ip4 fds_ip2str field size str str_size
  /\ field2str field size FDS_ET_IPV6_ADDRESS str str_size
     = wrapper_ip6 fds_ip2str field size str str_size.
Proof.
  split; [reflexivity|].
  split; [|repeat split; (reflexivity || discriminate)].
  unfold fds_field2str_be, table_size.
  change (length conversion_table) with 20%nat.
  destruct (Nat.leb_spec 20 type) as [Hge|Hlt]; [reflexivity|].
  destruct (conversion_table !! type) as [convert|] eqn:E.
  - exists convert. auto.
  - apply lookup_ge_None in E.
    change (length conversion_table) with 20%nat in E. lia.
Qed.

End DispatchFacts.

(** * Further properties *)

(** ** Integer codec: saturation and decoding of arbitrary bytes *)

Lemma be_bytes_ones n : be_bytes n (2 ^ (8 * Z.of_nat n) - 1) = repeat Byte.xff n.
Proof.
  rewrite (be_bytes_eqm n _ (-1)).
  - unfold be_bytes. now rewrite le_split_ones, rev_repeat.
  - assert (0 < 2 ^ (8 * Z.of_nat n)) by (apply Z.pow_pos_nonneg; lia).
    replace (2 ^ (8 * Z.of_nat n) - 1) with (-1 + 1 * 2 ^ (8 * Z.of_nat n))
      by lia.
    apply Z.mod_add. lia.
Qed.

Section ClampFacts.
Variable host : byte_order.

Lemma object_bytes_ones n k :
  (n <= k)%nat ->
  object_bytes host n (2 ^ (8 * Z.of_nat k) - 1) = repeat Byte.xff n.
Proof.
  intros Hk. rewrite (object_bytes_eqm host n _ (-1)).
  - now rewrite object_bytes_fill by auto.
  - assert (0 < 2 ^ (8 * Z.of_nat n)) by (apply Z.pow_pos_nonneg; lia).
    replace (2 ^ (8 * Z.of_nat k))
      with (2 ^ (8 * Z.of_nat (k - n)) * 2 ^ (8 * Z.of_nat n))
      by (rewrite <- Z.pow_add_r by lia; f_equal; lia).
    replace (2 ^ (8 * Z.of_nat (k - n)) * 2 ^ (8 * Z.of_nat n) - 1)
      with (-1 + 2 ^ (8 * Z.of_nat (k - n)) * 2 ^ (8 * Z.of_nat n)) by lia.
    apply Z.mod_add. lia.
Qed.

(** A value that does not fit is replaced by the largest one. *)
Lemma fds_set_uint_be_over field s u :
  (1 <= s <= 8)%nat -> (s <= length field)%nat ->
  2 ^ (8 * Z.of_nat s) <= u < 2 ^ 64 ->
  fds_set_uint_be host field s u
  = (FDS_ERR_TRUNC, be_bytes s (2 ^ (8 * Z.of_nat s) - 1) ++ drop s field).
Proof.
  intros Hs Hl Hu. rewrite be_bytes_ones.
  assert (Hodd : (s <= 8)%nat ->
    memcpy field 0 (object_bytes host 8 UINT64_MAX) s
    = repeat Byte.xff s ++ drop s field).
  { intros H8. change UINT64_MAX with (2 ^ (8 * Z.of_nat 8) - 1).
    rewrite object_bytes_ones by lia.
    rewrite memcpy_0 by (rewrite ?repeat_length; lia).
    now rewrite take_repeat by lia. }
  width_cases s; eval_pow2;
    unfold fds_set_uint_be; cbv beta iota;
    unfold UINT8_MAX, UINT16_MAX, UINT32_MAX, to_uint64, to_unsigned.
  - destruct (Z.gtb_spec u 255); [|lia].
    rewrite store_spec by assumption.
    now rewrite (object_bytes_ones 1 1 (le_n 1) : object_bytes host 1 255 = _).
  - destruct (Z.gtb_spec u 65535); [|lia].
    rewrite store_spec by assumption.
    now rewrite (object_bytes_ones 2 2 (le_n 2) : object_bytes host 2 65535 = _).
  - cbn [Nat.eqb Nat.ltb Nat.leb orb].
    match goal with |- context [?a >=? ?b mod ?c] =>
      let k := eval vm_compute in (b mod c) in change (b mod c) with k end.
    destruct (Z.geb_spec u 16777216); [|lia].
    cbv zeta. now rewrite Hodd by lia.
  - destruct (Z.gtb_spec u 4294967295); [|lia].
    rewrite store_spec by assumption.
    now rewrite (object_bytes_ones 4 4 (le_n 4)
                 : object_bytes host 4 4294967295 = _).
  - cbn [Nat.eqb Nat.ltb Nat.leb orb].
    match goal with |- context [?a >=? ?b mod ?c] =>
      let k := eval vm_compute in (b mod c) in change (b mod c) with k end.
    destruct (Z.geb_spec u 1099511627776); [|lia].
    cbv zeta. now rewrite Hodd by lia.
  - cbn [Nat.eqb Nat.ltb Nat.leb orb].
    match goal with |- context [?a >=? ?b mod ?c] =>
      let k := eval vm_compute in (b mod c) in change (b mod c) with k end.
    destruct (Z.geb_spec u 281474976710656); [|lia].
    cbv zeta. now rewrite Hodd by lia.
  - cbn [Nat.eqb Nat.ltb Nat.leb orb].
    match goal with |- context [?a >=? ?b mod ?c] =>
      let k := eval vm_compute in (b mod c) in change (b mod c) with k end.
    destruct (Z.geb_spec u 72057594037927936); [|lia].
    cbv zeta. now rewrite Hodd by lia.
Qed.

(** A signed value outside the range of the width is replaced by the
    bound it crossed. *)
Lemma fds_set_int_be_over field s i :
  (1 <= s <= 8)%nat -> (s <= length field)%nat ->
  - 2 ^ 63 <= i < 2 ^ 63 ->
  i < - 2 ^ (8 * Z.of_nat s - 1) \/ 2 ^ (8 * Z.of_nat s - 1) <= i ->
  fds_set_int_be host field s i
  = (FDS_ERR_TRUNC,
     be_bytes s (if i <? 0 then - 2 ^ (8 * Z.of_nat s - 1)
                 else 2 ^ (8 * Z.of_nat s - 1) - 1) ++ drop s field).
Proof.
  intros Hs Hl Ht Hi.
  assert (Hp : 0 < 2 ^ (8 * Z.of_nat s - 1)) by (apply Z.pow_pos_nonneg; lia).
  assert (Hodd : forall limit,
    limit = 2 ^ (8 * Z.of_nat s - 1) - 1 ->
    (let '(value, over) :=
       if i >? limit then
         (to_int64 (htobe64 host (to_uint64 limit)), true)
       else if i <? Z.lnot limit then
         (to_int64 (htobe64 host (to_uint64 (Z.lnot limit))), true)
       else (to_int64 (htobe64 host (to_uint64 i)), false) in
     (if over then FDS_ERR_TRUNC else FDS_OK,
      memcpy field 0 (drop (8 - s) (object_bytes host 8 value)) s))
    = (FDS_ERR_TRUNC,
       be_bytes s (if i <? 0 then - 2 ^ (8 * Z.of_nat s - 1)
                   else 2 ^ (8 * Z.of_nat s - 1) - 1) ++ drop s field)).
  { intros limit ->. unfold Z.lnot.
    destruct (Z.gtb_spec i (2 ^ (8 * Z.of_nat s - 1) - 1)).
    - rewrite set_odd_bytes_signed by lia.
      destruct (Z.ltb_spec i 0); [lia|reflexivity].
    - destruct (Z.ltb_spec i (Z.pred (- (2 ^ (8 * Z.of_nat s - 1) - 1))));
        [|lia].
      rewrite set_odd_bytes_signed by lia.
      destruct (Z.ltb_spec i 0); [|lia].
      do 3 f_equal. lia. }
  width_cases s; unfold fds_set_int_be; cbv beta iota;
    try (cbn [Nat.eqb Nat.ltb Nat.leb orb]; apply Hodd; vm_compute; reflexivity);
    clear Hodd Hp; eval_pow2;
    unfold INT8_MAX, INT8_MIN, INT16_MAX, INT16_MIN, INT32_MAX, INT32_MIN.
  - (* 1 *)
    destruct (Z.gtb_spec i 127).
    + destruct (Z.ltb_spec i 0); [lia|]. now rewrite store_1 by assumption.
    + destruct (Z.ltb_spec i (-128)); [|lia].
      destruct (Z.ltb_spec i 0); [|lia]. now rewrite store_1 by assumption.
  - (* 2 *)
    unfold to_int16, to_uint16, htons.
    destruct (Z.gtb_spec i 32767).
    + destruct (Z.ltb_spec i 0); [lia|].
      rewrite (store_be_signed host 2) by (assumption || lia).
      now rewrite (be_bytes_to_unsigned 2), (be_bytes_to_signed 2) by lia.
    + destruct (Z.ltb_spec i (-32768)); [|lia].
      destruct (Z.ltb_spec i 0); [|lia].
      rewrite (store_be_signed host 2) by (assumption || lia).
      now rewrite (be_bytes_to_unsigned 2), (be_bytes_to_signed 2) by lia.
  - (* 4 *)
    unfold to_int32, to_uint32, htonl.
    destruct (Z.gtb_spec i 2147483647).
    + destruct (Z.ltb_spec i 0); [lia|].
      rewrite (store_be_signed host 4) by (assumption || lia).
      now rewrite (be_bytes_to_unsigned 4), (be_bytes_to_signed 4) by lia.
    + destruct (Z.ltb_spec i (-2147483648)); [|lia].
      destruct (Z.ltb_spec i 0); [|lia].
      rewrite (store_be_signed host 4) by (assumption || lia).
      now rewrite (be_bytes_to_unsigned 4), (be_bytes_to_signed 4) by lia.
Qed.

(** *** Decoding bytes that no setter wrote *)

Lemma be_bytes_value bs : be_bytes (length bs) (be_value bs) = bs.
Proof.
  unfold be_bytes, be_value. rewrite <- (length_rev bs).
  rewrite split_le_combine. apply rev_involutive.
Qed.

Lemma field_be_bytes field s :
  (s <= length field)%nat ->
  field = be_bytes s (be_value (take s field)) ++ drop s field.
Proof.
  intros Hl.
  assert (L : length (take s field) = s) by (rewrite length_take; lia).
  rewrite <- L at 1. rewrite be_bytes_value. now rewrite take_drop.
Qed.

Lemma be_value_take_range field s :
  (s <= length field)%nat ->
  0 <= be_value (take s field) < 2 ^ (8 * Z.of_nat s).
Proof.
  intros Hl. pose proof (be_value_range (take s field)) as H.
  rewrite length_take in H. now replace (s `min` length field)%nat with s in H by lia.
Qed.

Lemma fds_get_uint_be_any field s old :
  (1 <= s <= 8)%nat -> (s <= length field)%nat ->
  fds_get_uint_be host field s old = (FDS_OK, be_value (take s field)).
Proof.
  intros Hs Hl. rewrite (field_be_bytes field s Hl) at 1.
  apply fds_get_uint_be_bytes; [assumption|now apply be_value_take_range].
Qed.

Lemma fds_get_int_be_any field s old :
  (1 <= s <= 8)%nat -> (s <= length field)%nat ->
  fds_get_int_be host field s old
  = (FDS_OK, to_signed (8 * Z.of_nat s) (be_value (take s field))).
Proof.
  intros Hs Hl. rewrite (field_be_bytes field s Hl) at 1.
  rewrite <- (be_bytes_to_signed s) by lia.
  apply fds_get_int_be_bytes; [assumption|].
  replace (8 * Z.of_nat s - 1) with (8 * Z.of_nat s - 1) by lia.
  apply to_signed_range. lia.
Qed.

End ClampFacts.

Lemma to_signed_cases bits v :
  0 < bits -> 0 <= v < 2 ^ bits ->
  to_signed bits v = if v <? 2 ^ (bits - 1) then v else v - 2 ^ bits.
Proof.
  intros Hb Hv.
  assert (E : 2 ^ bits = 2 * 2 ^ (bits - 1)).
  { rewrite <- Z.pow_succ_r by lia. f_equal. lia. }
  destruct (Z.ltb_spec v (2 ^ (bits - 1))).
  - apply to_signed_small; lia.
  - transitivity (to_signed bits (v - 2 ^ bits)).
    + rewrite <- (to_signed_mod bits v), <- (to_signed_mod bits (v - 2 ^ bits))
        by assumption.
      f_equal. replace (v - 2 ^ bits) with (v + (-1) * 2 ^ bits) by lia.
      now rewrite Z.mod_add by lia.
    + apply to_signed_small; lia.
Qed.

(** X1. For every width [s] from 1 to 8 and every [uint64_t] value,
    [fds_set_uint_be] writes the [s] bytes of the value clamped to
    [2^(8s) - 1] in network byte order, leaves the bytes after them alone
    and returns [FDS_OK] when the value fits and [FDS_ERR_TRUNC] when it
    was clamped; [fds_get_uint_be] then reads the clamped value. *)
Theorem uint_codec_clamp (host : byte_order) (field : list byte)
    (s : nat) (u old : Z) :
  (1 <= s <= 8)%nat -> (s <= length field)%nat -> 0 <= u < 2 ^ 64 ->
  let max := 2 ^ (8 * Z.of_nat s) - 1 in
  let r := fds_set_uint_be host field s u in
  r.1 = (if u <=? max then FDS_OK else FDS_ERR_TRUNC)
  /\ r.2 = be_bytes s (Z.min u max) ++ drop s field
  /\ fds_get_uint_be host r.2 s old = (FDS_OK, Z.min u max).
Proof.
  intros Hs Hl Hu max r. subst r.
  assert (Hp : 0 < 2 ^ (8 * Z.of_nat s)) by (apply Z.pow_pos_nonneg; lia).
  destruct (Z.leb_spec u max) as [Hle|Hgt]; subst max.
  - rewrite Z.min_l by assumption.
    rewrite fds_set_uint_be_bytes by (assumption || lia). cbn [fst snd].
    repeat split. apply fds_get_uint_be_bytes; [assumption|lia].
  - rewrite Z.min_r by lia.
    rewrite fds_set_uint_be_over by (assumption || lia). cbn [fst snd].
    repeat split. apply fds_get_uint_be_bytes; [assumption|lia].
Qed.

Lemma uint_codec_clamp_witness :
  ((1 <= 3 <= 8)%nat /\ (3 <= length (repeat Byte.x00 4))%nat
   /\ 0 <= 0x1234567 < 2 ^ 64)
  /\ (fds_set_uint_be BigEndian (repeat Byte.x00 4) 3 0x1234567).1
     = FDS_ERR_TRUNC
  /\ fds_get_uint_be BigEndian
       (fds_set_uint_be BigEndian (repeat Byte.x00 4) 3 0x1234567).2 3 0
     = (FDS_OK, 0xFFFFFF).
Proof.
  assert (H1 : (1 <= 3 <= 8)%nat) by lia.
  assert (H2 : (3 <= length (repeat Byte.x00 4))%nat) by (simpl; lia).
  assert (H3 : 0 <= 0x1234567 < 2 ^ 64) by lia.
  split; [exact (conj H1 (conj H2 H3))|].
  pose proof (uint_codec_clamp BigEndian (repeat Byte.x00 4) 3 0x1234567 0
                H1 H2 H3) as (A & _ & C).
  split; [exact A|exact C].
Defined.

(** X2. For every width [s] from 1 to 8 and every [int64_t] value,
    [fds_set_int_be] writes the value clamped to
    [[-2^(8s-1), 2^(8s-1) - 1]], returns [FDS_ERR_TRUNC] exactly when it
    clamped, and [fds_get_int_be] reads the clamped value back. *)
Theorem int_codec_clamp (host : byte_order) (field : list byte)
    (s : nat) (i old : Z) :
  (1 <= s <= 8)%nat -> (s <= length field)%nat -> - 2 ^ 63 <= i < 2 ^ 63 ->
  let min := - 2 ^ (8 * Z.of_nat s - 1) in
  let max := 2 ^ (8 * Z.of_nat s - 1) - 1 in
  let r := fds_set_int_be host field s i in
  r.1 = (if (min <=? i) && (i <=? max) then FDS_OK else FDS_ERR_TRUNC)
  /\ r.2 = be_bytes s (Z.max min (Z.min i max)) ++ drop s field
  /\ fds_get_int_be host r.2 s old = (FDS_OK, Z.max min (Z.min i max)).
Proof.
  intros Hs Hl Hi min max r. subst r.
  assert (Hp : 0 < 2 ^ (8 * Z.of_nat s - 1)) by (apply Z.pow_pos_nonneg; lia).
  destruct (Z.leb_spec min i) as [Hlo|Hlo];
    [destruct (Z.leb_spec i max) as [Hhi|Hhi]|]; subst min max;
    cbn [andb].
  - rewrite Z.min_l, Z.max_r by lia.
    rewrite fds_set_int_be_bytes by (assumption || lia). cbn [fst snd].
    repeat split. apply fds_get_int_be_bytes; [assumption|lia].
  - rewrite Z.min_r, Z.max_r by lia.
    rewrite fds_set_int_be_over by (assumption || lia). cbn [fst snd].
    destruct (Z.ltb_spec i 0); [lia|].
    repeat split. apply fds_get_int_be_bytes; [assumption|lia].
  - rewrite Z.min_l, Z.max_l by lia.
    rewrite fds_set_int_be_over by (assumption || lia). cbn [fst snd].
    destruct (Z.ltb_spec i 0); [|lia].
    repeat split. apply fds_get_int_be_bytes; [assumption|lia].
Qed.

Lemma int_codec_clamp_witness :
  ((1 <= 3 <= 8)%nat /\ (3 <= length (repeat Byte.x00 4))%nat
   /\ - 2 ^ 63 <= -8388609 < 2 ^ 63)
  /\ (fds_set_int_be LittleEndian (repeat Byte.x00 4) 3 (-8388609)).1
     = FDS_ERR_TRUNC
  /\ fds_get_int_be LittleEndian
       (fds_set_int_be LittleEndian (repeat Byte.x00 4) 3 (-8388609)).2 3 0
     = (FDS_OK, -8388608).
Proof.
  assert (H1 : (1 <= 3 <= 8)%nat) by lia.
  assert (H2 : (3 <= length (repeat Byte.x00 4))%nat) by (simpl; lia).
  assert (H3 : - 2 ^ 63 <= -8388609 < 2 ^ 63) by lia.
  split; [exact (conj H1 (conj H2 H3))|].
  pose proof (int_codec_clamp LittleEndian (repeat Byte.x00 4) 3 (-8388609) 0
                H1 H2 H3) as (A & _ & C).
  split; [exact A|exact C].
Defined.

(** X3. On any field of at least [s] bytes, [1 <= s <= 8], the integer
    getters return [FDS_OK]: [fds_get_uint_be] gives the big-endian value
    [u] of the first [s] bytes, which is below [2^(8s)], and
    [fds_get_int_be] gives its two's-complement reading, [u] when the top
    bit is clear and [u - 2^(8s)] otherwise. *)
Theorem int_decode_any_bytes (host : byte_order) (field : list byte)
    (s : nat) (old : Z) :
  (1 <= s <= 8)%nat -> (s <= length field)%nat ->
  let u := be_value (take s field) in
  fds_get_uint_be host field s old = (FDS_OK, u)
  /\ fds_get_int_be host field s old
     = (FDS_OK, if u <? 2 ^ (8 * Z.of_nat s - 1) then u
                else u - 2 ^ (8 * Z.of_nat s))
  /\ 0 <= u < 2 ^ (8 * Z.of_nat s).
Proof.
  intros Hs Hl u. subst u.
  pose proof (be_value_take_range field s Hl) as Hr.
  rewrite fds_get_uint_be_any, fds_get_int_be_any by assumption.
  rewrite to_signed_cases by (lia || assumption). auto.
Qed.

Lemma int_decode_any_bytes_witness :
  ((1 <= 3 <= 8)%nat
   /\ (3 <= length [Byte.xff; Byte.x00; Byte.x01; Byte.x77])%nat)
  /\ fds_get_uint_be LittleEndian [Byte.xff; Byte.x00; Byte.x01; Byte.x77] 3 0
     = (FDS_OK, 0xFF0001)
  /\ fds_get_int_be LittleEndian [Byte.xff; Byte.x00; Byte.x01; Byte.x77] 3 0
     = (FDS_OK, -65535).
Proof.
  assert (H1 : (1 <= 3 <= 8)%nat) by lia.
  assert (H2 : (3 <= length [Byte.xff; Byte.x00; Byte.x01; Byte.x77])%nat)
    by (simpl; lia).
  split; [exact (conj H1 H2)|].
  pose proof (int_decode_any_bytes LittleEndian
                [Byte.xff; Byte.x00; Byte.x01; Byte.x77] 3 0 H1 H2)
    as (A & B & _).
  split; [exact A|exact B].
Defined.

(** X4. Reading an integer from any [s] bytes and writing it with the
    same width reproduces those bytes, with status [FDS_OK], for the
    unsigned and for the signed pair of functions. *)
Theorem int_decode_reencode (host : byte_order) (field out : list byte)
    (s : nat) (old : Z) :
  (1 <= s <= 8)%nat -> (s <= length field)%nat -> (s <= length out)%nat ->
  fds_set_uint_be host out s (fds_get_uint_be host field s old).2
  = (FDS_OK, take s field ++ drop s out)
  /\ fds_set_int_be host out s (fds_get_int_be host field s old).2
     = (FDS_OK, take s field ++ drop s out).
Proof.
  intros Hs Hl Ho.
  pose proof (be_value_take_range field s Hl) as Hr.
  assert (L : length (take s field) = s) by (rewrite length_take; lia).
  assert (E : be_bytes s (be_value (take s field)) = take s field).
  { rewrite <- L at 1. apply be_bytes_value. }
  rewrite fds_get_uint_be_any, fds_get_int_be_any by assumption.
  cbn [snd]. split.
  - rewrite fds_set_uint_be_bytes by assumption. now rewrite E.
  - rewrite fds_set_int_be_bytes
      by (assumption || (apply to_signed_range; lia)).
    rewrite be_bytes_to_signed by lia. now rewrite E.
Qed.

Lemma int_decode_reencode_witness :
  ((1 <= 5 <= 8)%nat
   /\ (5 <= length [Byte.x80; Byte.x01; Byte.x02; Byte.x03; Byte.x04])%nat
   /\ (5 <= length (repeat Byte.x00 6))%nat)
  /\ fds_set_uint_be LittleEndian (repeat Byte.x00 6) 5
       (fds_get_uint_be LittleEndian
          [Byte.x80; Byte.x01; Byte.x02; Byte.x03; Byte.x04] 5 0).2
     = (FDS_OK,
        take 5 [Byte.x80; Byte.x01; Byte.x02; Byte.x03; Byte.x04]
        ++ drop 5 (repeat Byte.x00 6))
  /\ fds_set_int_be LittleEndian (repeat Byte.x00 6) 5
       (fds_get_int_be LittleEndian
          [Byte.x80; Byte.x01; Byte.x02; Byte.x03; Byte.x04] 5 0).2
     = (FDS_OK,
        take 5 [Byte.x80; Byte.x01; Byte.x02; Byte.x03; Byte.x04]
        ++ drop 5 (repeat Byte.x00 6)).
Proof.
  assert (H1 : (1 <= 5 <= 8)%nat) by lia.
  assert (H2 : (5 <= length [Byte.x80; Byte.x01; Byte.x02; Byte.x03;
                             Byte.x04])%nat) by (simpl; lia).
  assert (H3 : (5 <= length (repeat Byte.x00 6))%nat) by (simpl; lia).
  split; [exact (conj H1 (conj H2 H3))|].
  exact (int_decode_reencode LittleEndian
           [Byte.x80; Byte.x01; Byte.x02; Byte.x03; Byte.x04]
           (repeat Byte.x00 6) 5 0 H1 H2 H3).
Defined.

(** ** Timestamp codec: what is written and what is read back *)

Ltac datetime_unfold f :=
  unfold f, datetime_size_bad,
    FDS_ET_DATE_TIME_SECONDS, FDS_ET_DATE_TIME_MILLISECONDS,
    FDS_ET_DATE_TIME_MICROSECONDS, FDS_ET_DATE_TIME_NANOSECONDS;
  cbn [Nat.eqb negb andb orb]; cbv zeta.

Section WireFacts.
Variable host : byte_order.

Lemma load_be n v rest :
  host_to_be host n (load host n (be_bytes n v ++ rest))
  = v mod 2 ^ (8 * Z.of_nat n).
Proof.
  rewrite load_exact by apply be_bytes_length.
  rewrite host_to_be_object_value by apply be_bytes_length.
  apply be_value_bytes.
Qed.

Lemma set_hp_nano field ts :
  (8 <= length field)%nat ->
  fds_set_datetime_hp_be host field 8 FDS_ET_DATE_TIME_NANOSECONDS ts
  = (FDS_OK,
     be_bytes 4 (to_uint32 (to_uint32 (tv_sec ts) + FDS_CONVERT_EPOCHS_DIFF))
     ++ be_bytes 4
          (to_uint32
             (to_uint64 (Z.shiftl (to_uint64 (tv_nsec ts)) 32) / 1000000000))
     ++ drop 8 field).
Proof.
  intros Hl. datetime_unfold fds_set_datetime_hp_be.
  now rewrite ntp_store by assumption.
Qed.

Lemma get_hp_nano a f rest old :
  0 <= f < 2 ^ 32 ->
  fds_get_datetime_hp_be host (be_bytes 4 a ++ be_bytes 4 f ++ rest) 8
    FDS_ET_DATE_TIME_NANOSECONDS old
  = (FDS_OK,
     {| tv_sec :=
          to_int64 (to_uint64 (a mod 2 ^ 32 - FDS_CONVERT_EPOCHS_DIFF));
        tv_nsec := (f * 1000000000 / 2147483648 + 1) / 2 |}).
Proof.
  intros Hf. datetime_unfold fds_get_datetime_hp_be.
  rewrite ntp_load_0, ntp_load_1. rewrite (Z.mod_small f) by assumption.
  do 2 f_equal.
  unfold to_uint64, to_int64, to_unsigned.
  change (2 ^ 32) with 4294967296 in Hf.
  rewrite (Z.mod_small (f * 1000000000)) by lia.
  rewrite !Z.shiftr_div_pow2 by lia.
  change (2 ^ 31) with 2147483648. change (2 ^ 1) with 2.
  set (y := f * 1000000000 / 2147483648).
  assert (Hy : 0 <= y < 2000000000).
  { subst y. split; [apply Z.div_pos; lia|apply Z.div_lt_upper_bound; lia]. }
  rewrite land_1.
  assert (Hy2 : (if y mod 2 =? 0 then y else (y + 1) mod 2 ^ 64) / 2
                = (y + 1) / 2).
  { destruct (Z.eqb_spec (y mod 2) 0).
    - Z.div_mod_to_equations. lia.
    - rewrite Z.mod_small by lia. reflexivity. }
  rewrite Hy2.
  apply to_signed_small; [lia|].
  change (2 ^ (64 - 1)) with 9223372036854775808.
  Z.div_mod_to_equations. lia.
Qed.

End WireFacts.

(** The NTP fraction of [tv_nsec] and the nanoseconds read back from it:
    the rounding of the getter undoes the truncation of the setter. *)
Lemma nano_fraction_spec n :
  0 <= n <= 999999999 ->
  to_uint32 (to_uint64 (Z.shiftl (to_uint64 n) 32) / 1000000000)
  = n * 4294967296 / 1000000000
  /\ 0 <= n * 4294967296 / 1000000000 < 2 ^ 32.
Proof.
  intros Hn. unfold to_uint32, to_uint64, to_unsigned.
  rewrite (Z.mod_small n) by lia.
  rewrite Z.shiftl_mul_pow2 by lia. change (2 ^ 32) with 4294967296.
  rewrite (Z.mod_small (n * 4294967296)) by lia.
  assert (H0 : 0 <= n * 4294967296 / 1000000000 < 4294967296).
  { split; [apply Z.div_pos; lia|apply Z.div_lt_upper_bound; lia]. }
  now rewrite Z.mod_small by assumption.
Qed.

Lemma nano_fraction_exact n :
  0 <= n <= 999999999 ->
  (n * 4294967296 / 1000000000 * 1000000000 / 2147483648 + 1) / 2 = n.
Proof. intros Hn. Z.div_mod_to_equations. lia. Qed.

(** The seconds of an NTP timestamp: one era of 2^32 seconds from 1900. *)
Lemma ntp_seconds_spec sec :
  - 2 ^ 63 <= sec < 2 ^ 63 ->
  to_int64
    (to_uint64
       (to_uint32 (to_uint32 sec + FDS_CONVERT_EPOCHS_DIFF) mod 2 ^ 32
        - FDS_CONVERT_EPOCHS_DIFF))
  = (sec + FDS_CONVERT_EPOCHS_DIFF) mod 2 ^ 32 - FDS_CONVERT_EPOCHS_DIFF.
Proof.
  intros Hs. unfold to_uint32, to_uint64, to_int64, to_unsigned,
    FDS_CONVERT_EPOCHS_DIFF.
  rewrite Z.add_mod_idemp_l by lia. rewrite Z.mod_mod by lia.
  change (2 ^ 64) with (2 ^ (64)). rewrite to_signed_mod by lia.
  apply to_signed_small; [lia|].
  change (2 ^ (64 - 1)) with 9223372036854775808.
  change (2 ^ 32) with 4294967296.
  Z.div_mod_to_equations. lia.
Qed.

(** A fraction with the microsecond mask applied. *)
Lemma micro_mask_low_bits f :
  0 <= f < 2 ^ 32 ->
  exists g, Z.land f 0xFFFFF800 = g /\ 0 <= g < 2 ^ 32 /\ g mod 2048 = 0.
Proof.
  intros Hf. exists (2048 * (f / 2048)).
  split; [now apply land_micro_mask|].
  change (2 ^ 32) with 4294967296 in *.
  split; [Z.div_mod_to_equations; lia|].
  rewrite Z.mul_comm. apply Z.mod_mul. lia.
Qed.

Lemma lp_fraction_range micro m : 0 <= lp_fraction micro m < 2 ^ 32.
Proof.
  unfold lp_fraction, to_uint32, to_unsigned. cbv zeta.
  set (x := _ mod 2 ^ 32).
  assert (Hx : 0 <= x < 2 ^ 32) by (apply Z.mod_pos_bound; lia).
  destruct micro; [|assumption].
  rewrite land_micro_mask by assumption.
  change (2 ^ 32) with 4294967296 in *. Z.div_mod_to_equations. lia.
Qed.

Lemma lp_millis_fraction micro m :
  0 <= m < 1000 ->
  lp_millis micro (lp_fraction micro m)
  = if m mod 125 =? 0 then m else m - 1.
Proof.
  intros Hm.
  assert (Hall : forallb
            (fun k : nat =>
               let m := Z.of_nat k in
               (lp_millis true (lp_fraction true m)
                =? (if m mod 125 =? 0 then m else m - 1))
               && (lp_millis false (lp_fraction false m)
                   =? (if m mod 125 =? 0 then m else m - 1)))
            (seq 0 1000) = true) by (vm_compute; reflexivity).
  rewrite forallb_forall in Hall.
  assert (Hin : In (Z.to_nat m) (seq 0 1000)) by (apply in_seq; lia).
  specialize (Hall (Z.to_nat m) Hin). cbv zeta in Hall.
  rewrite Z2Nat.id in Hall by lia.
  apply andb_prop in Hall as [H1 H2].
  destruct micro; now apply Z.eqb_eq.
Qed.

Section TimestampFacts.
Variable host : byte_order.

Lemma set_lp_ntp field type value :
  (8 <= length field)%nat ->
  type = FDS_ET_DATE_TIME_MICROSECONDS
  \/ type = FDS_ET_DATE_TIME_NANOSECONDS ->
  fds_set_datetime_lp_be host field 8 type value
  = (FDS_OK,
     be_bytes 4
       (to_uint32 (to_uint64 (value / 1000 + FDS_CONVERT_EPOCHS_DIFF)))
     ++ be_bytes 4
          (lp_fraction (type =? FDS_ET_DATE_TIME_MICROSECONDS)%nat
             (value mod 1000))
     ++ drop 8 field).
Proof.
  intros Hl [-> | ->]; datetime_unfold fds_set_datetime_lp_be;
    now rewrite ntp_store by assumption.
Qed.

Lemma get_lp_ntp a f rest type old :
  0 <= f < 2 ^ 32 ->
  type = FDS_ET_DATE_TIME_MICROSECONDS
  \/ type = FDS_ET_DATE_TIME_NANOSECONDS ->
  fds_get_datetime_lp_be host (be_bytes 4 a ++ be_bytes 4 f ++ rest) 8
    type old
  = (FDS_OK,
     to_uint64
       (to_uint64
          (to_uint64 (a mod 2 ^ 32 - FDS_CONVERT_EPOCHS_DIFF) * 1000)
        + lp_millis (type =? FDS_ET_DATE_TIME_MICROSECONDS)%nat f)).
Proof.
  intros Hf [-> | ->]; datetime_unfold fds_get_datetime_lp_be;
    rewrite ntp_load_0, ntp_load_1; rewrite (Z.mod_small f) by assumption;
    reflexivity.
Qed.

Lemma set_seconds_bytes field x :
  (4 <= length field)%nat ->
  store host 4 field (htonl host (to_uint32 x))
  = be_bytes 4 x ++ drop 4 field.
Proof.
  intros Hl. unfold htonl. rewrite store_be by assumption.
  unfold to_uint32. now rewrite (be_bytes_to_unsigned 4).
Qed.

Lemma set_millis_bytes field x :
  (8 <= length field)%nat ->
  store host 8 field (htobe64 host x) = be_bytes 8 x ++ drop 8 field.
Proof. intros Hl. unfold htobe64. now rewrite store_be by assumption. Qed.

Lemma get_seconds_bytes x rest :
  ntohl host (load host 4 (be_bytes 4 x ++ rest)) = x mod 2 ^ 32.
Proof. unfold ntohl. now rewrite load_be. Qed.

Lemma get_millis_bytes x rest :
  be64toh host (load host 8 (be_bytes 8 x ++ rest)) = x mod 2 ^ 64.
Proof. unfold be64toh. now rewrite load_be. Qed.

End TimestampFacts.

(** X5. The nanosecond encoding loses nothing inside its era: for every
    [tv_sec] from 1900-01-01 up to, but excluding, 2036-02-07 06:28:16 UTC
    and every [tv_nsec] in [[0, 999999999]], [fds_set_datetime_hp_be]
    followed by [fds_get_datetime_hp_be] returns exactly the pair written:
    the rounding of the getter undoes the truncation of the setter. *)
Theorem datetime_nano_roundtrip (host : byte_order) (field : list byte)
    (ts old : timespec) :
  (8 <= length field)%nat ->
  - FDS_CONVERT_EPOCHS_DIFF <= tv_sec ts < 2 ^ 32 - FDS_CONVERT_EPOCHS_DIFF ->
  0 <= tv_nsec ts <= 999999999 ->
  (fds_set_datetime_hp_be host field 8 FDS_ET_DATE_TIME_NANOSECONDS ts).1
  = FDS_OK
  /\ fds_get_datetime_hp_be host
       (fds_set_datetime_hp_be host field 8 FDS_ET_DATE_TIME_NANOSECONDS
          ts).2
       8 FDS_ET_DATE_TIME_NANOSECONDS old
     = (FDS_OK, ts).
Proof.
  intros Hl Hs Hn. rewrite set_hp_nano by assumption. cbn [fst snd].
  split; [reflexivity|].
  destruct (nano_fraction_spec (tv_nsec ts) Hn) as [-> Hf].
  rewrite get_hp_nano by assumption.
  rewrite nano_fraction_exact by assumption.
  unfold FDS_CONVERT_EPOCHS_DIFF in Hs. change (2 ^ 32) with 4294967296 in Hs.
  rewrite ntp_seconds_spec by lia.
  unfold FDS_CONVERT_EPOCHS_DIFF. change (2 ^ 32) with 4294967296.
  rewrite Z.mod_small by lia.
  destruct ts as [sec nsec]. cbn [tv_sec tv_nsec]. do 2 f_equal. lia.
Qed.

Lemma datetime_nano_roundtrip_witness :
  ((8 <= length (repeat Byte.x00 8))%nat
   /\ - FDS_CONVERT_EPOCHS_DIFF <= -86400
      < 2 ^ 32 - FDS_CONVERT_EPOCHS_DIFF
   /\ 0 <= 999999999 <= 999999999)
  /\ (fds_set_datetime_hp_be BigEndian (repeat Byte.x00 8) 8
        FDS_ET_DATE_TIME_NANOSECONDS
        {| tv_sec := -86400; tv_nsec := 999999999 |}).1 = FDS_OK
  /\ fds_get_datetime_hp_be BigEndian
       (fds_set_datetime_hp_be BigEndian (repeat Byte.x00 8) 8
          FDS_ET_DATE_TIME_NANOSECONDS
          {| tv_sec := -86400; tv_nsec := 999999999 |}).2
       8 FDS_ET_DATE_TIME_NANOSECONDS {| tv_sec := 0; tv_nsec := 0 |}
     = (FDS_OK, {| tv_sec := -86400; tv_nsec := 999999999 |}).
Proof.
  assert (H1 : (8 <= length (repeat Byte.x00 8))%nat) by (simpl; lia).
  assert (H2 : - FDS_CONVERT_EPOCHS_DIFF <= -86400
               < 2 ^ 32 - FDS_CONVERT_EPOCHS_DIFF)
    by (unfold FDS_CONVERT_EPOCHS_DIFF; lia).
  assert (H3 : 0 <= 999999999 <= 999999999) by lia.
  split; [exact (conj H1 (conj H2 H3))|].
  exact (datetime_nano_roundtrip BigEndian (repeat Byte.x00 8)
           {| tv_sec := -86400; tv_nsec := 999999999 |}
           {| tv_sec := 0; tv_nsec := 0 |} H1 H2 H3).
Defined.

(** X6. The NTP encodings keep the seconds modulo [2^32]: a [tv_sec]
    in the [2^32] seconds from 2036-02-07 06:28:16 UTC on is written and
    read back without an error, and comes back [2^32] seconds early. *)
Theorem datetime_ntp_era_wrap (host : byte_order) (field : list byte)
    (type : nat) (ts old : timespec) :
  (8 <= length field)%nat ->
  type = FDS_ET_DATE_TIME_MICROSECONDS
  \/ type = FDS_ET_DATE_TIME_NANOSECONDS ->
  2 ^ 32 - FDS_CONVERT_EPOCHS_DIFF <= tv_sec ts
  < 2 * 2 ^ 32 - FDS_CONVERT_EPOCHS_DIFF ->
  (fds_set_datetime_hp_be host field 8 type ts).1 = FDS_OK
  /\ (fds_get_datetime_hp_be host
        (fds_set_datetime_hp_be host field 8 type ts).2 8 type old).1
     = FDS_OK
  /\ tv_sec
       (fds_get_datetime_hp_be host
          (fds_set_datetime_hp_be host field 8 type ts).2 8 type old).2
     = tv_sec ts - 2 ^ 32.
Proof.
  intros Hl Ht Hs.
  unfold FDS_CONVERT_EPOCHS_DIFF in Hs. change (2 ^ 32) with 4294967296 in Hs.
  assert (E : (tv_sec ts + FDS_CONVERT_EPOCHS_DIFF) mod 2 ^ 32
              - FDS_CONVERT_EPOCHS_DIFF = tv_sec ts - 2 ^ 32).
  { unfold FDS_CONVERT_EPOCHS_DIFF. change (2 ^ 32) with 4294967296.
    Z.div_mod_to_equations. lia. }
  destruct Ht as [-> | ->].
  - rewrite set_hp_micro by assumption. cbn [fst snd].
    rewrite get_hp_micro.
    + cbn [fst snd tv_sec]. rewrite ntp_seconds_spec by lia. auto.
    + unfold micro_fraction, to_uint32, to_unsigned.
      set (x := _ mod 2 ^ 32).
      assert (Hx : 0 <= x < 2 ^ 32) by (apply Z.mod_pos_bound; lia).
      rewrite land_micro_mask by assumption.
      change (2 ^ 32) with 4294967296 in *. Z.div_mod_to_equations. lia.
  - rewrite set_hp_nano by assumption. cbn [fst snd].
    rewrite get_hp_nano by (apply Z.mod_pos_bound; lia).
    cbn [fst snd tv_sec]. rewrite ntp_seconds_spec by lia. auto.
Qed.

Lemma datetime_ntp_era_wrap_witness :
  ((8 <= length (repeat Byte.x00 8))%nat
   /\ (FDS_ET_DATE_TIME_NANOSECONDS = FDS_ET_DATE_TIME_MICROSECONDS
       \/ FDS_ET_DATE_TIME_NANOSECONDS = FDS_ET_DATE_TIME_NANOSECONDS)
   /\ 2 ^ 32 - FDS_CONVERT_EPOCHS_DIFF <= 2085978496
      < 2 * 2 ^ 32 - FDS_CONVERT_EPOCHS_DIFF)
  /\ tv_sec
       (fds_get_datetime_hp_be LittleEndian
          (fds_set_datetime_hp_be LittleEndian (repeat Byte.x00 8) 8
             FDS_ET_DATE_TIME_NANOSECONDS
             {| tv_sec := 2085978496; tv_nsec := 0 |}).2
          8 FDS_ET_DATE_TIME_NANOSECONDS {| tv_sec := 0; tv_nsec := 0 |}).2
     = -2208988800.
Proof.
  assert (H1 : (8 <= length (repeat Byte.x00 8))%nat) by (simpl; lia).
  assert (H2 : FDS_ET_DATE_TIME_NANOSECONDS = FDS_ET_DATE_TIME_MICROSECONDS
               \/ FDS_ET_DATE_TIME_NANOSECONDS = FDS_ET_DATE_TIME_NANOSECONDS)
    by (right; reflexivity).
  assert (H3 : 2 ^ 32 - FDS_CONVERT_EPOCHS_DIFF <= 2085978496
               < 2 * 2 ^ 32 - FDS_CONVERT_EPOCHS_DIFF)
    by (unfold FDS_CONVERT_EPOCHS_DIFF; lia).
  split; [exact (conj H1 (conj H2 H3))|].
  exact (proj2 (proj2
           (datetime_ntp_era_wrap LittleEndian (repeat Byte.x00 8)
              FDS_ET_DATE_TIME_NANOSECONDS
              {| tv_sec := 2085978496; tv_nsec := 0 |}
              {| tv_sec := 0; tv_nsec := 0 |} H1 H2 H3))).
Defined.

(** X7. Through the high-precision functions, seconds in [[0, 2^32)] come
    back unchanged with [tv_nsec = 0] from a 4-byte seconds field, and
    with [tv_nsec] rounded down to whole milliseconds from an 8-byte
    milliseconds field. *)
Theorem datetime_hp_coarse_roundtrip (host : byte_order)
    (field4 field8 : list byte) (ts old : timespec) :
  (4 <= length field4)%nat -> (8 <= length field8)%nat ->
  0 <= tv_sec ts < 2 ^ 32 -> 0 <= tv_nsec ts <= 999999999 ->
  fds_get_datetime_hp_be host
    (fds_set_datetime_hp_be host field4 4 FDS_ET_DATE_TIME_SECONDS ts).2
    4 FDS_ET_DATE_TIME_SECONDS old
  = (FDS_OK, {| tv_sec := tv_sec ts; tv_nsec := 0 |})
  /\ fds_get_datetime_hp_be host
       (fds_set_datetime_hp_be host field8 8 FDS_ET_DATE_TIME_MILLISECONDS
          ts).2
       8 FDS_ET_DATE_TIME_MILLISECONDS old
     = (FDS_OK,
        {| tv_sec := tv_sec ts;
           tv_nsec := tv_nsec ts / 1000000 * 1000000 |}).
Proof.
  intros Hl4 Hl8 Hs Hn. change (2 ^ 32) with 4294967296 in Hs. split.
  - datetime_unfold fds_set_datetime_hp_be. cbn [snd].
    rewrite set_seconds_bytes by assumption.
    datetime_unfold fds_get_datetime_hp_be.
    rewrite get_seconds_bytes.
    change (2 ^ 32) with 4294967296. rewrite Z.mod_small by assumption.
    do 2 f_equal. apply to_signed_small; [lia|].
    change (2 ^ (64 - 1)) with 9223372036854775808. lia.
  - datetime_unfold fds_set_datetime_hp_be. cbn [snd].
    rewrite set_millis_bytes by assumption.
    datetime_unfold fds_get_datetime_hp_be.
    rewrite get_millis_bytes.
    unfold to_uint64, to_int64, to_unsigned.
    change (2 ^ 64) with 18446744073709551616.
    rewrite (Z.mod_small (tv_sec ts)) by lia.
    rewrite (Z.mod_small (tv_nsec ts)) by lia.
    rewrite (Z.mod_small (tv_sec ts * 1000)) by lia.
    assert (Hq : 0 <= tv_nsec ts / 1000000 < 1000).
    { split; [apply Z.div_pos; lia|apply Z.div_lt_upper_bound; lia]. }
    set (q := tv_nsec ts / 1000000) in *.
    rewrite !(Z.mod_small (tv_sec ts * 1000 + q)) by lia.
    replace ((tv_sec ts * 1000 + q) / 1000) with (tv_sec ts)
      by (Z.div_mod_to_equations; lia).
    replace ((tv_sec ts * 1000 + q) mod 1000) with q
      by (Z.div_mod_to_equations; lia).
    rewrite (Z.mod_small (q * 1000000)) by lia.
    f_equal. f_equal; apply to_signed_small; try lia;
      change (2 ^ (64 - 1)) with 9223372036854775808; lia.
Qed.

Lemma datetime_hp_coarse_roundtrip_witness :
  ((4 <= length (repeat Byte.x00 4))%nat
   /\ (8 <= length (repeat Byte.x00 8))%nat
   /\ 0 <= 1234567890 < 2 ^ 32 /\ 0 <= 123456789 <= 999999999)
  /\ fds_get_datetime_hp_be LittleEndian
       (fds_set_datetime_hp_be LittleEndian (repeat Byte.x00 4) 4
          FDS_ET_DATE_TIME_SECONDS
          {| tv_sec := 1234567890; tv_nsec := 123456789 |}).2
       4 FDS_ET_DATE_TIME_SECONDS {| tv_sec := 0; tv_nsec := 0 |}
     = (FDS_OK, {| tv_sec := 1234567890; tv_nsec := 0 |})
  /\ fds_get_datetime_hp_be LittleEndian
       (fds_set_datetime_hp_be LittleEndian (repeat Byte.x00 8) 8
          FDS_ET_DATE_TIME_MILLISECONDS
          {| tv_sec := 1234567890; tv_nsec := 123456789 |}).2
       8 FDS_ET_DATE_TIME_MILLISECONDS {| tv_sec := 0; tv_nsec := 0 |}
     = (FDS_OK, {| tv_sec := 1234567890; tv_nsec := 123000000 |}).
Proof.
  assert (H1 : (4 <= length (repeat Byte.x00 4))%nat) by (simpl; lia).
  assert (H2 : (8 <= length (repeat Byte.x00 8))%nat) by (simpl; lia).
  assert (H3 : 0 <= 1234567890 < 2 ^ 32) by lia.
  assert (H4 : 0 <= 123456789 <= 999999999) by lia.
  split; [exact (conj H1 (conj H2 (conj H3 H4)))|].
  exact (datetime_hp_coarse_roundtrip LittleEndian
           (repeat Byte.x00 4) (repeat Byte.x00 8)
           {| tv_sec := 1234567890; tv_nsec := 123456789 |}
           {| tv_sec := 0; tv_nsec := 0 |} H1 H2 H3 H4).
Defined.

(** X8. Through the low-precision functions a millisecond count comes
    back unchanged from a milliseconds field; from a seconds field it
    comes back as whole seconds, the seconds taken modulo [2^32]. *)
Theorem datetime_lp_coarse_roundtrip (host : byte_order)
    (field4 field8 : list byte) (value old : Z) :
  (4 <= length field4)%nat -> (8 <= length field8)%nat ->
  0 <= value < 2 ^ 64 ->
  fds_get_datetime_lp_be host
    (fds_set_datetime_lp_be host field8 8 FDS_ET_DATE_TIME_MILLISECONDS
       value).2
    8 FDS_ET_DATE_TIME_MILLISECONDS old
  = (FDS_OK, value)
  /\ fds_get_datetime_lp_be host
       (fds_set_datetime_lp_be host field4 4 FDS_ET_DATE_TIME_SECONDS
          value).2
       4 FDS_ET_DATE_TIME_SECONDS old
     = (FDS_OK, (value / 1000) mod 2 ^ 32 * 1000).
Proof.
  intros Hl4 Hl8 Hv. split.
  - datetime_unfold fds_set_datetime_lp_be. cbn [snd].
    rewrite set_millis_bytes by assumption.
    datetime_unfold fds_get_datetime_lp_be.
    rewrite get_millis_bytes. now rewrite Z.mod_small by assumption.
  - datetime_unfold fds_set_datetime_lp_be. cbn [snd].
    rewrite set_seconds_bytes by assumption.
    datetime_unfold fds_get_datetime_lp_be.
    rewrite get_seconds_bytes.
    unfold to_uint64, to_unsigned. f_equal. apply Z.mod_small.
    pose proof (Z.mod_pos_bound (value / 1000) (2 ^ 32)) as B.
    change (2 ^ 32) with 4294967296 in *.
    change (2 ^ 64) with 18446744073709551616. lia.
Qed.

Lemma datetime_lp_coarse_roundtrip_witness :
  ((4 <= length (repeat Byte.x00 4))%nat
   /\ (8 <= length (repeat Byte.x00 8))%nat
   /\ 0 <= 1234567890123 < 2 ^ 64)
  /\ fds_get_datetime_lp_be BigEndian
       (fds_set_datetime_lp_be BigEndian (repeat Byte.x00 8) 8
          FDS_ET_DATE_TIME_MILLISECONDS 1234567890123).2
       8 FDS_ET_DATE_TIME_MILLISECONDS 0
     = (FDS_OK, 1234567890123)
  /\ fds_get_datetime_lp_be BigEndian
       (fds_set_datetime_lp_be BigEndian (repeat Byte.x00 4) 4
          FDS_ET_DATE_TIME_SECONDS 1234567890123).2
       4 FDS_ET_DATE_TIME_SECONDS 0
     = (FDS_OK, 1234567890000).
Proof.
  assert (H1 : (4 <= length (repeat Byte.x00 4))%nat) by (simpl; lia).
  assert (H2 : (8 <= length (repeat Byte.x00 8))%nat) by (simpl; lia).
  assert (H3 : 0 <= 1234567890123 < 2 ^ 64) by lia.
  split; [exact (conj H1 (conj H2 H3))|].
  exact (datetime_lp_coarse_roundtrip BigEndian
           (repeat Byte.x00 4) (repeat Byte.x00 8) 1234567890123 0
           H1 H2 H3).
Defined.

(** X9. Through the low-precision functions and an NTP field
    (microseconds or nanoseconds), a millisecond count before 2036 comes
    back unchanged when it is a multiple of 125 ms and one millisecond
    short otherwise: the fraction is truncated when written and again
    when read. *)
Theorem datetime_lp_ntp_roundtrip (host : byte_order) (field : list byte)
    (type : nat) (value old : Z) :
  (8 <= length field)%nat ->
  type = FDS_ET_DATE_TIME_MICROSECONDS
  \/ type = FDS_ET_DATE_TIME_NANOSECONDS ->
  0 <= value -> value / 1000 + FDS_CONVERT_EPOCHS_DIFF < 2 ^ 32 ->
  fds_get_datetime_lp_be host
    (fds_set_datetime_lp_be host field 8 type value).2 8 type old
  = (FDS_OK, if value mod 125 =? 0 then value else value - 1).
Proof.
  intros Hl Ht Hv Hs.
  rewrite set_lp_ntp by assumption. cbn [snd].
  rewrite get_lp_ntp by (apply lp_fraction_range || assumption).
  assert (Hm : 0 <= value mod 1000 < 1000) by (apply Z.mod_pos_bound; lia).
  rewrite lp_millis_fraction by assumption.
  assert (Hq : 0 <= value / 1000) by (apply Z.div_pos; lia).
  unfold FDS_CONVERT_EPOCHS_DIFF in *.
  change (2 ^ 32) with 4294967296 in *.
  unfold to_uint32, to_uint64, to_unsigned.
  change (2 ^ 64) with 18446744073709551616.
  change (2 ^ 32) with 4294967296.
  rewrite (Z.mod_small (value / 1000 + 2208988800)) by lia.
  rewrite (Z.mod_small (value / 1000 + 2208988800)) by lia.
  rewrite (Z.mod_small (value / 1000 + 2208988800)) by lia.
  replace (value / 1000 + 2208988800 - 2208988800) with (value / 1000) by lia.
  rewrite (Z.mod_small (value / 1000)) by lia.
  rewrite (Z.mod_small (value / 1000 * 1000)) by lia.
  replace (value mod 1000 mod 125) with (value mod 125)
    by (Z.div_mod_to_equations; lia).
  f_equal.
  destruct (Z.eqb_spec (value mod 125) 0) as [E|E];
    rewrite Z.mod_small; Z.div_mod_to_equations; lia.
Qed.

Lemma datetime_lp_ntp_roundtrip_witness :
  ((8 <= length (repeat Byte.x00 8))%nat
   /\ (FDS_ET_DATE_TIME_NANOSECONDS = FDS_ET_DATE_TIME_MICROSECONDS
       \/ FDS_ET_DATE_TIME_NANOSECONDS = FDS_ET_DATE_TIME_NANOSECONDS)
   /\ 0 <= 1234567890123
   /\ 1234567890123 / 1000 + FDS_CONVERT_EPOCHS_DIFF < 2 ^ 32)
  /\ fds_get_datetime_lp_be LittleEndian
       (fds_set_datetime_lp_be LittleEndian (repeat Byte.x00 8) 8
          FDS_ET_DATE_TIME_NANOSECONDS 1234567890123).2
       8 FDS_ET_DATE_TIME_NANOSECONDS 0
     = (FDS_OK, 1234567890122).
Proof.
  assert (H1 : (8 <= length (repeat Byte.x00 8))%nat) by (simpl; lia).
  assert (H2 : FDS_ET_DATE_TIME_NANOSECONDS = FDS_ET_DATE_TIME_MICROSECONDS
               \/ FDS_ET_DATE_TIME_NANOSECONDS = FDS_ET_DATE_TIME_NANOSECONDS)
    by (right; reflexivity).
  assert (H3 : 0 <= 1234567890123) by lia.
  assert (H4 : 1234567890123 / 1000 + FDS_CONVERT_EPOCHS_DIFF < 2 ^ 32)
    by (vm_compute; reflexivity).
  split; [exact (conj H1 (conj H2 (conj H3 H4)))|].
  exact (datetime_lp_ntp_roundtrip LittleEndian (repeat Byte.x00 8)
           FDS_ET_DATE_TIME_NANOSECONDS 1234567890123 0 H1 H2 H3 H4).
Defined.

(** The fraction every microsecond setter writes ends in eleven zero bits,
    and the getters ignore those bits. *)
Lemma micro_mask_low x : 0 <= x < 2 ^ 32 ->
  Z.land (Z.land x 0xFFFFF800) 0x7FF = 0
  /\ 0 <= Z.land x 0xFFFFF800 < 2 ^ 32.
Proof.
  intros Hx. rewrite land_micro_mask by assumption.
  change 0x7FF with (Z.ones 11). rewrite Z.land_ones by lia.
  change (2 ^ 11) with 2048. change (2 ^ 32) with 4294967296 in *.
  split; [rewrite Z.mul_comm; apply Z.mod_mul; lia|].
  Z.div_mod_to_equations. lia.
Qed.

Lemma be_value_fraction a f rest :
  0 <= f < 2 ^ 32 ->
  be_value (take 4 (drop 4 (be_bytes 4 a ++ be_bytes 4 f ++ rest))) = f.
Proof.
  intros Hf.
  rewrite drop_app_length' by (now rewrite be_bytes_length).
  rewrite take_app_length' by (now rewrite be_bytes_length).
  rewrite be_value_bytes. now apply Z.mod_small.
Qed.

(** X10. Both setters write a microseconds field whose fraction has its
    low eleven bits clear, whatever the time. *)
Theorem datetime_micro_wire_mask (host : byte_order) (field : list byte)
    (ts : timespec) (value : Z) :
  (8 <= length field)%nat ->
  Z.land
    (be_value
       (take 4 (drop 4
          (fds_set_datetime_hp_be host field 8
             FDS_ET_DATE_TIME_MICROSECONDS ts).2))) 0x7FF = 0
  /\ Z.land
       (be_value
          (take 4 (drop 4
             (fds_set_datetime_lp_be host field 8
                FDS_ET_DATE_TIME_MICROSECONDS value).2))) 0x7FF = 0.
Proof.
  intros Hl. split.
  - rewrite set_hp_micro by assumption. cbn [snd].
    assert (H : Z.land (micro_fraction (tv_nsec ts)) 0x7FF = 0
                /\ 0 <= micro_fraction (tv_nsec ts) < 2 ^ 32).
    { unfold micro_fraction, to_uint32, to_unsigned.
      apply micro_mask_low, Z.mod_pos_bound. lia. }
    destruct H as [E R]. rewrite be_value_fraction by exact R. exact E.
  - rewrite set_lp_ntp by (assumption || now left). cbn [snd].
    change (FDS_ET_DATE_TIME_MICROSECONDS =? FDS_ET_DATE_TIME_MICROSECONDS)%nat
      with true.
    assert (H : Z.land (lp_fraction true (value mod 1000)) 0x7FF = 0
                /\ 0 <= lp_fraction true (value mod 1000) < 2 ^ 32).
    { unfold lp_fraction, to_uint32, to_unsigned. cbv zeta iota.
      apply micro_mask_low, Z.mod_pos_bound. lia. }
    destruct H as [E R]. rewrite be_value_fraction by exact R. exact E.
Qed.

Lemma datetime_micro_wire_mask_witness :
  (8 <= length (repeat Byte.xff 8))%nat
  /\ Z.land
       (be_value
          (take 4 (drop 4
             (fds_set_datetime_hp_be LittleEndian (repeat Byte.xff 8) 8
                FDS_ET_DATE_TIME_MICROSECONDS
                {| tv_sec := 1; tv_nsec := 999999999 |}).2))) 0x7FF = 0
  /\ Z.land
       (be_value
          (take 4 (drop 4
             (fds_set_datetime_lp_be LittleEndian (repeat Byte.xff 8) 8
                FDS_ET_DATE_TIME_MICROSECONDS 1999).2))) 0x7FF = 0.
Proof.
  assert (H1 : (8 <= length (repeat Byte.xff 8))%nat) by (simpl; lia).
  split; [exact H1|].
  exact (datetime_micro_wire_mask LittleEndian (repeat Byte.xff 8)
           {| tv_sec := 1; tv_nsec := 999999999 |} 1999 H1).
Defined.

(** ** Timestamps read from bytes that no setter wrote *)

Lemma ntp_field_bytes field :
  (8 <= length field)%nat ->
  field
  = be_bytes 4 (be_value (take 4 field))
    ++ be_bytes 4 (be_value (take 4 (drop 4 field))) ++ drop 8 field.
Proof.
  intros Hl.
  rewrite (field_be_bytes field 4) at 1 by lia. f_equal.
  rewrite (field_be_bytes (drop 4 field) 4) at 1
    by (rewrite length_drop; lia).
  now rewrite drop_drop.
Qed.

Lemma micro_nsec_mask f :
  micro_nsec (Z.land f 0xFFFFF800) = micro_nsec f.
Proof.
  unfold micro_nsec. cbv zeta.
  now rewrite <- Z.land_assoc, Z.land_diag.
Qed.

(** X11. Whatever the eight bytes of the field, the nanoseconds read
    from a nanoseconds field are between 0 and 1000000000, and they are
    1000000000, one more than a [timespec] should hold, exactly when
    the fraction is [0xFFFFFFFE] or [0xFFFFFFFF]; the nanoseconds read
    from a microseconds field are at most 999999523. *)
Theorem datetime_hp_decode_range (host : byte_order) (field : list byte)
    (old : timespec) :
  (8 <= length field)%nat ->
  let fraction := be_value (take 4 (drop 4 field)) in
  let nano :=
    tv_nsec
      (fds_get_datetime_hp_be host field 8 FDS_ET_DATE_TIME_NANOSECONDS
         old).2 in
  let micro :=
    tv_nsec
      (fds_get_datetime_hp_be host field 8 FDS_ET_DATE_TIME_MICROSECONDS
         old).2 in
  0 <= nano <= 1000000000
  /\ (nano = 1000000000 <-> 0xFFFFFFFE <= fraction)
  /\ 0 <= micro <= 999999523.
Proof.
  intros Hl fraction nano micro. subst nano micro.
  assert (Hf : 0 <= fraction < 2 ^ 32).
  { apply (be_value_take_range (drop 4 field) 4).
    rewrite length_drop. lia. }
  rewrite (ntp_field_bytes field Hl). fold fraction.
  rewrite get_hp_nano, get_hp_micro by assumption.
  cbn [snd tv_nsec].
  rewrite <- micro_nsec_mask.
  destruct (micro_mask_low_bits fraction Hf) as (g & Eg & Hg & Mg).
  rewrite Eg, micro_nsec_spec by assumption.
  change (2 ^ 32) with 4294967296 in *.
  split; [Z.div_mod_to_equations; lia|].
  split; [split; intros H; Z.div_mod_to_equations; lia|].
  Z.div_mod_to_equations; lia.
Qed.

Lemma datetime_hp_decode_range_witness :
  (8 <= length [Byte.x00; Byte.x00; Byte.x00; Byte.x00;
                Byte.xff; Byte.xff; Byte.xff; Byte.xfe])%nat
  /\ tv_nsec
       (fds_get_datetime_hp_be LittleEndian
          [Byte.x00; Byte.x00; Byte.x00; Byte.x00;
           Byte.xff; Byte.xff; Byte.xff; Byte.xfe] 8
          FDS_ET_DATE_TIME_NANOSECONDS {| tv_sec := 0; tv_nsec := 0 |}).2
     = 1000000000.
Proof.
  assert (H1 : (8 <= length [Byte.x00; Byte.x00; Byte.x00; Byte.x00;
                             Byte.xff; Byte.xff; Byte.xff; Byte.xfe])%nat)
    by (simpl; lia).
  split; [exact H1|].
  apply (proj1 (proj2
           (datetime_hp_decode_range LittleEndian
              [Byte.x00; Byte.x00; Byte.x00; Byte.x00;
               Byte.xff; Byte.xff; Byte.xff; Byte.xfe]
              {| tv_sec := 0; tv_nsec := 0 |} H1))).
  vm_compute. discriminate.
Defined.

(** ** Floating-point fields *)

Section FloatFacts.
Variable host : byte_order.
Variable double : Type.
Variables double_bits float_bits : double -> Z.
Variable double_lt : double -> double -> bool.
Variable double_neg : double -> double.
Variable isnormal : double -> bool.
Variable FLT_MAX : double.
Variables double_of_u64 float_of_u32 : Z -> double.

Local Notation "'set_float'" :=
  (fds_set_float_be host double double_bits float_bits double_lt double_neg
     isnormal FLT_MAX).
Local Notation "'get_float'" :=
  (fds_get_float_be host double double_of_u64 float_of_u32).

Lemma get_set_float_8 field value old :
  (8 <= length field)%nat -> 0 <= double_bits value < 2 ^ 64 ->
  get_float (set_float field 8 value).2 8 old
  = (FDS_OK, double_of_u64 (double_bits value)).
Proof.
  intros Hl Hr. unfold fds_set_float_be, fds_get_float_be.
  cbn [Nat.eqb snd]. unfold htobe64, be64toh.
  rewrite store_be by assumption. rewrite load_be.
  now rewrite Z.mod_small by assumption.
Qed.

Lemma get_set_float_4 field value old :
  (4 <= length field)%nat ->
  (forall v, 0 <= float_bits v < 2 ^ 32) ->
  get_float (set_float field 4 value).2 4 old
  = (FDS_OK,
     float_of_u32
       (float_bits
          (if double_lt value (double_neg FLT_MAX) && isnormal value
           then double_neg FLT_MAX
           else if double_lt FLT_MAX value && isnormal value then FLT_MAX
           else value))).
Proof.
  intros Hl Hr. unfold fds_set_float_be, fds_get_float_be.
  cbn [Nat.eqb]. unfold htonl, ntohl.
  destruct (double_lt value (double_neg FLT_MAX) && isnormal value);
    [|destruct (double_lt FLT_MAX value && isnormal value)];
    cbn [snd]; rewrite store_be by assumption; rewrite load_be;
    now rewrite Z.mod_small by apply Hr.
Qed.

End FloatFacts.

(** X12. On a platform whose reinterpretation of a [double] as 64 bits
    can be undone, [fds_set_float_be] with size 8 never fails and
    [fds_get_float_be] returns the value written; with size 4, a value
    that is written without [FDS_ERR_TRUNC] comes back as the value of its
    [float] conversion. *)
Theorem float_codec_roundtrip (host : byte_order) (double : Type)
    (double_bits float_bits : double -> Z)
    (double_lt : double -> double -> bool) (double_neg : double -> double)
    (isnormal : double -> bool) (FLT_MAX : double)
    (double_of_u64 float_of_u32 : Z -> double)
    (field : list byte) (value old : double) :
  (8 <= length field)%nat ->
  (forall v, 0 <= double_bits v < 2 ^ 64) ->
  (forall v, 0 <= float_bits v < 2 ^ 32) ->
  (forall v, double_of_u64 (double_bits v) = v) ->
  (fds_set_float_be host double double_bits float_bits double_lt double_neg
     isnormal FLT_MAX field 8 value).1 = FDS_OK
  /\ fds_get_float_be host double double_of_u64 float_of_u32
       (fds_set_float_be host double double_bits float_bits double_lt
          double_neg isnormal FLT_MAX field 8 value).2 8 old
     = (FDS_OK, value)
  /\ ((fds_set_float_be host double double_bits float_bits double_lt
         double_neg isnormal FLT_MAX field 4 value).1 = FDS_OK ->
      fds_get_float_be host double double_of_u64 float_of_u32
        (fds_set_float_be host double double_bits float_bits double_lt
           double_neg isnormal FLT_MAX field 4 value).2 4 old
      = (FDS_OK, float_of_u32 (float_bits value))).
Proof.
  intros Hl Hd Hf Hinv. split; [reflexivity|]. split.
  - rewrite get_set_float_8 by (assumption || apply Hd). now rewrite Hinv.
  - intros Hok. rewrite get_set_float_4 by (assumption || lia).
    revert Hok. unfold fds_set_float_be. cbn [Nat.eqb].
    destruct (double_lt value (double_neg FLT_MAX) && isnormal value);
      [cbn; discriminate|].
    destruct (double_lt FLT_MAX value && isnormal value);
      [cbn; discriminate|reflexivity].
Qed.

Lemma float_codec_roundtrip_witness :
  ((8 <= length (repeat Byte.x00 8))%nat
   /\ (forall v : byte, 0 <= byte.unsigned v < 2 ^ 64)
   /\ (forall v : byte, 0 <= byte.unsigned v < 2 ^ 32)
   /\ (forall v : byte, byte.of_Z (byte.unsigned v) = v))
  /\ fds_get_float_be LittleEndian byte byte.of_Z byte.of_Z
       (fds_set_float_be LittleEndian byte byte.unsigned byte.unsigned
          (fun _ _ => false) (fun v => v) (fun _ => true) Byte.xff
          (repeat Byte.x00 8) 8 Byte.x2a).2 8 Byte.x00
     = (FDS_OK, Byte.x2a).
Proof.
  assert (H1 : (8 <= length (repeat Byte.x00 8))%nat) by (simpl; lia).
  assert (H2 : forall v : byte, 0 <= byte.unsigned v < 2 ^ 64).
  { intros v. pose proof (byte.unsigned_range v). lia. }
  assert (H3 : forall v : byte, 0 <= byte.unsigned v < 2 ^ 32).
  { intros v. pose proof (byte.unsigned_range v). lia. }
  assert (H4 : forall v : byte, byte.of_Z (byte.unsigned v) = v).
  { intros v. destruct v; reflexivity. }
  split; [exact (conj H1 (conj H2 (conj H3 H4)))|].
  exact (proj1 (proj2
           (float_codec_roundtrip LittleEndian byte byte.unsigned
              byte.unsigned (fun _ _ => false) (fun v => v)
              (fun _ => true) Byte.xff byte.of_Z byte.of_Z
              (repeat Byte.x00 8) Byte.x2a Byte.x00 H1 H2 H3 H4))).
Defined.

(** ** Booleans, addresses and byte strings *)

Lemma mem_write_0 p b :
  (1 <= length p)%nat -> mem_write p 0 b = b :: drop 1 p.
Proof. destruct p; cbn; [lia|reflexivity]. Qed.

Lemma load_memcpy_0 p src n :
  (n <= length p)%nat -> (n <= length src)%nat ->
  load_bytes (memcpy p 0 src n) n = take n src.
Proof.
  intros Hp Hs. rewrite memcpy_0 by assumption.
  rewrite load_bytes_take by (rewrite length_app, length_take; lia).
  apply take_app_length'. rewrite length_take. lia.
Qed.

(** Copying out what was copied in. *)
Lemma memcpy_memcpy field value out n :
  (n <= length field)%nat -> (n <= length value)%nat ->
  (n <= length out)%nat ->
  memcpy out 0 (memcpy field 0 value n) n = take n value ++ drop n out.
Proof.
  intros Hf Hv Ho. unfold memcpy at 1. rewrite load_memcpy_0 by assumption.
  fold (memcpy out 0 value n).
  transitivity (memcpy out 0 value n).
  - unfold memcpy. now rewrite load_bytes_take by assumption.
  - now apply memcpy_0.
Qed.





(** X14. [fds_set_bool] writes the byte 1 for true and 2 for false into
    the first byte only, and [fds_get_bool] reads the value back. *)
Theorem bool_codec_roundtrip (field : list byte) (b old : bool) :
  (1 <= length field)%nat ->
  fds_set_bool field 1 b
  = (FDS_OK, (if b then Byte.x01 else Byte.x02) :: drop 1 field)
  /\ fds_get_bool (fds_set_bool field 1 b).2 1 old = (FDS_OK, b).
Proof.
  intros Hl. unfold fds_set_bool. cbn [Nat.eqb negb snd].
  rewrite mem_write_0 by assumption. split; [reflexivity|].
  now destruct b.
Qed.

Lemma bool_codec_roundtrip_witness :
  (1 <= length [Byte.x00; Byte.x07])%nat
  /\ fds_set_bool [Byte.x00; Byte.x07] 1 false
     = (FDS_OK, Byte.x02 :: drop 1 [Byte.x00; Byte.x07])
  /\ fds_get_bool (fds_set_bool [Byte.x00; Byte.x07] 1 false).2 1 true
     = (FDS_OK, false).
Proof.
  assert (H1 : (1 <= length [Byte.x00; Byte.x07])%nat) by (simpl; lia).
  split; [exact H1|].
  exact (bool_codec_roundtrip [Byte.x00; Byte.x07] false true H1).
Defined.

(** X15. Rendering of a boolean through [wrapper_bool]: a field of size
    1 holding the byte 1 gives "true" and the result 4 when the buffer has
    5 bytes, the byte 2 gives "false" and the result 5 when it has 6;
    a smaller buffer gives [FDS_ERR_BUFFER], any other byte or size gives
    [FDS_ERR_ARG], and in both cases the buffer is not written. *)
Theorem bool2str_spec (field str : list byte) (size str_size : nat) :
  (str_size <= length str)%nat ->
  wrapper_bool field size str str_size
  = Some
      (if negb (size =? 1)%nat then (FDS_ERR_ARG, str)
       else if byte.unsigned (mem_read field 0) =? 1 then
         if (5 <=? str_size)%nat then
           (4, [Byte.x74; Byte.x72; Byte.x75; Byte.x65; Byte.x00]
               ++ drop 5 str)
         else (FDS_ERR_BUFFER, str)
       else if byte.unsigned (mem_read field 0) =? 2 then
         if (6 <=? str_size)%nat then
           (5, [Byte.x66; Byte.x61; Byte.x6c; Byte.x73; Byte.x65; Byte.x00]
               ++ drop 6 str)
         else (FDS_ERR_BUFFER, str)
       else (FDS_ERR_ARG, str)).
Proof.
  intros Hl. unfold wrapper_bool.
  destruct (size =? 1)%nat; [|reflexivity]. cbn [negb]. f_equal.
  unfold fds_bool2str, fds_get_bool. cbn [Nat.eqb negb].
  destruct (mem_read field 0); try reflexivity.
  - (* true *)
    cbn -[memcpy Nat.ltb Nat.leb drop].
    unfold FDS_CONVERT_STRLEN_TRUE.
    destruct (Nat.ltb_spec str_size 5), (Nat.leb_spec 5 str_size);
      try lia; [reflexivity|].
    f_equal. apply (memcpy_0_exact str FDS_CONVERT_STR_TRUE). cbn. lia.
  - (* false *)
    cbn -[memcpy Nat.ltb Nat.leb drop].
    unfold FDS_CONVERT_STRLEN_FALSE.
    destruct (Nat.ltb_spec str_size 6), (Nat.leb_spec 6 str_size);
      try lia; [reflexivity|].
    f_equal. apply (memcpy_0_exact str FDS_CONVERT_STR_FALSE). cbn. lia.
Qed.

Lemma bool2str_spec_witness :
  (5 <= length (repeat Byte.xaa 6))%nat
  /\ wrapper_bool [Byte.x01] 1%nat (repeat Byte.xaa 6) 5%nat
     = Some (4, [Byte.x74; Byte.x72; Byte.x75; Byte.x65; Byte.x00; Byte.xaa]).
Proof.
  assert (H1 : (5 <= length (repeat Byte.xaa 6))%nat) by (simpl; lia).
  split; [exact H1|].
  exact (bool2str_spec [Byte.x01] (repeat Byte.xaa 6) 1 5 H1).
Defined.

(** X16. [fds_set_octet_array] and [fds_set_string] reject the size 0,
    leaving the field as it was, and otherwise copy [size] bytes;
    [fds_get_octet_array] and [fds_get_string] accept every size, 0
    included, and copy the bytes out again. *)
Theorem byte_string_codec_roundtrip (field value out : list byte)
    (size : nat) :
  (size <= length field)%nat -> (size <= length value)%nat ->
  (size <= length out)%nat ->
  fds_set_octet_array field size value
  = (if (size =? 0)%nat then (FDS_ERR_ARG, field)
     else (FDS_OK, take size value ++ drop size field))
  /\ fds_get_octet_array (fds_set_octet_array field size value).2 size out
     = (FDS_OK, take size value ++ drop size out)
  /\ fds_set_string field size value
     = (if (size =? 0)%nat then (FDS_ERR_ARG, field)
        else (FDS_OK, take size value ++ drop size field))
  /\ fds_get_string (fds_set_string field size value).2 size out
     = (FDS_OK, take size value ++ drop size out).
Proof.
  intros Hf Hv Ho.
  unfold fds_set_octet_array, fds_set_string, fds_get_octet_array,
    fds_get_string.
  destruct size as [|n]; cbn [Nat.eqb fst snd].
  - unfold memcpy. rewrite load_bytes_nil_r. cbn. now rewrite drop_0.
  - rewrite memcpy_memcpy by assumption.
    now rewrite (memcpy_0 field value) by assumption.
Qed.

Lemma byte_string_codec_roundtrip_witness :
  ((2 <= length [Byte.x00; Byte.x00; Byte.x00])%nat
   /\ (2 <= length [Byte.x41; Byte.x42])%nat
   /\ (2 <= length [Byte.xaa; Byte.xaa; Byte.xaa])%nat)
  /\ fds_get_string
       (fds_set_string [Byte.x00; Byte.x00; Byte.x00] 2
          [Byte.x41; Byte.x42]).2 2 [Byte.xaa; Byte.xaa; Byte.xaa]
     = (FDS_OK, [Byte.x41; Byte.x42; Byte.xaa]).
Proof.
  assert (H1 : (2 <= length [Byte.x00; Byte.x00; Byte.x00])%nat)
    by (simpl; lia).
  assert (H2 : (2 <= length [Byte.x41; Byte.x42])%nat) by (simpl; lia).
  assert (H3 : (2 <= length [Byte.xaa; Byte.xaa; Byte.xaa])%nat)
    by (simpl; lia).
  split; [exact (conj H1 (conj H2 H3))|].
  exact (proj2 (proj2 (proj2
           (byte_string_codec_roundtrip [Byte.x00; Byte.x00; Byte.x00]
              [Byte.x41; Byte.x42] [Byte.xaa; Byte.xaa; Byte.xaa] 2
              H1 H2 H3)))).
Defined.

(** X17. [fds_set_ip] accepts the sizes 4 and 16 only and [fds_set_mac]
    the size 6 only; what they write, [fds_get_ip] and [fds_get_mac] copy
    out again; with any other size all four return [FDS_ERR_ARG] and
    leave the field, or the output, as it was. *)
Theorem address_codec_roundtrip (field value out : list byte) (size : nat) :
  (size <= length field)%nat -> (size <= length value)%nat ->
  (size <= length out)%nat ->
  fds_set_ip field size value
  = (if (size =? 4)%nat || (size =? 16)%nat
     then (FDS_OK, take size value ++ drop size field)
     else (FDS_ERR_ARG, field))
  /\ fds_get_ip (fds_set_ip field size value).2 size out
     = (if (size =? 4)%nat || (size =? 16)%nat
        then (FDS_OK, take size value ++ drop size out)
        else (FDS_ERR_ARG, out))
  /\ fds_set_mac field size value
     = (if (size =? 6)%nat
        then (FDS_OK, take size value ++ drop size field)
        else (FDS_ERR_ARG, field))
  /\ fds_get_mac (fds_set_mac field size value).2 size out
     = (if (size =? 6)%nat
        then (FDS_OK, take size value ++ drop size out)
        else (FDS_ERR_ARG, out)).
Proof.
  intros Hf Hv Ho.
  pose proof (memcpy_memcpy field value out size Hf Hv Ho) as M.
  pose proof (memcpy_0 field value size Hf Hv) as M0.
  unfold fds_set_ip, fds_set_mac, fds_get_ip, fds_get_mac.
  repeat split.
  - destruct (size =? 4)%nat, (size =? 16)%nat;
      cbn [negb andb orb]; now rewrite ?M0.
  - destruct (size =? 4)%nat, (size =? 16)%nat;
      cbn [negb andb orb snd]; now rewrite ?M.
  - destruct (Nat.eqb_spec size 6) as [E|N]; cbn [negb];
      [subst size; now rewrite M0|reflexivity].
  - destruct (Nat.eqb_spec size 6) as [E|N]; cbn [negb snd];
      [subst size; now rewrite M|reflexivity].
Qed.

Lemma address_codec_roundtrip_witness :
  ((4 <= length (repeat Byte.x00 4))%nat
   /\ (4 <= length [Byte.xc0; Byte.xa8; Byte.x00; Byte.x01])%nat
   /\ (4 <= length (repeat Byte.xaa 5))%nat)
  /\ fds_get_ip
       (fds_set_ip (repeat Byte.x00 4) 4
          [Byte.xc0; Byte.xa8; Byte.x00; Byte.x01]).2 4 (repeat Byte.xaa 5)
     = (FDS_OK, [Byte.xc0; Byte.xa8; Byte.x00; Byte.x01; Byte.xaa]).
Proof.
  assert (H1 : (4 <= length (repeat Byte.x00 4))%nat) by (simpl; lia).
  assert (H2 : (4 <= length [Byte.xc0; Byte.xa8; Byte.x00; Byte.x01])%nat)
    by (simpl; lia).
  assert (H3 : (4 <= length (repeat Byte.xaa 5))%nat) by (simpl; lia).
  split; [exact (conj H1 (conj H2 H3))|].
  exact (proj1 (proj2
           (address_codec_roundtrip (repeat Byte.x00 4)
              [Byte.xc0; Byte.xa8; Byte.x00; Byte.x01] (repeat Byte.xaa 5) 4
              H1 H2 H3))).
Defined.

(** ** The validator accepts the valid sequences and nothing else *)

Lemma mem_read_take k p i :
  (i < k)%nat -> mem_read (take k p) i = mem_read p i.
Proof.
  unfold mem_read. revert p i. induction k as [|k IH]; intros p i Hi; [lia|].
  destruct p as [|b p]; [now destruct i|].
  destruct i as [|i]; [reflexivity|]. cbn [take nth]. apply IH. lia.
Qed.

(** The character found by [utf8_len], cut out of its buffer. *)
Lemma utf8_len_take str len :
  (0 < utf8_len str len)%nat -> (utf8_len str len <= length str)%nat ->
  let c := take (utf8_len str len) str in
  length c = utf8_len str len /\ utf8_len c (length c) = length c.
Proof.
  intros Hpos Hl c.
  assert (L : length c = utf8_len str len)
    by (unfold c; rewrite length_take; lia).
  split; [assumption|]. rewrite L at 2. rewrite L at 1.
  apply utf8_len_ext; [assumption| |lia].
  intros i Hi. unfold c. now apply mem_read_take.
Qed.

Section ValidatorExact.
Variable host : byte_order.

Lemma utf8check_loop_sound field size :
  (size <= length field)%nat ->
  forall fuel idx, (size - idx <= fuel)%nat -> (idx <= size)%nat ->
    utf8check_loop host fuel field size idx = Some FDS_ERR_ARG
    \/ (utf8check_loop host fuel field size idx = Some FDS_OK
        /\ utf8_valid (take (size - idx) (drop idx field))).
Proof.
  intros Hl fuel.
  induction fuel as [|fuel IH]; intros idx Hfuel Hidx;
    cbn [utf8check_loop]; destruct (Nat.ltb_spec idx size) as [Hlt|Hge];
    try lia.
  - right. split; [reflexivity|].
    replace (size - idx)%nat with 0%nat by lia. constructor.
  - rewrite utf8char_is_valid_len.
    set (str := drop idx field). set (k := utf8_len str (size - idx)).
    destruct (Z.eqb_spec (Z.of_nat k) 0) as [E|N]; [now left|].
    rewrite Nat2Z.id.
    pose proof (utf8_len_bound str (size - idx)) as [_ Hk]. fold k in Hk.
    assert (Hks : (idx + k <= size)%nat) by lia.
    destruct (IH (idx + k)%nat) as [Harg|[Hok Hv]]; try lia; [now left|].
    right. split; [assumption|].
    assert (Ls : (k <= length str)%nat)
      by (unfold str; rewrite length_drop; lia).
    destruct (utf8_len_take str (size - idx)) as [Lc Hc]; fold k; try lia.
    fold k in Lc, Hc.
    replace (take (size - idx) str)
      with (take k str ++ take (size - (idx + k)) (drop (idx + k) field)).
    + constructor; [lia|assumption|assumption].
    + unfold str. rewrite <- (drop_drop field k idx).
      rewrite <- (take_drop k (take (size - idx) (drop idx field))).
      rewrite take_take, skipn_firstn_comm. do 2 f_equal; lia.
  - right. split; [reflexivity|].
    replace (size - idx)%nat with 0%nat by lia. constructor.
Qed.

End ValidatorExact.

(** X18. [fds_string_utf8check] returns [FDS_OK] exactly when the first
    [size] bytes are a sequence of structurally valid characters, and
    [FDS_ERR_ARG] otherwise. *)
Theorem utf8check_exact (host : byte_order) (field : list byte)
    (size : nat) :
  (size <= length field)%nat ->
  (fds_string_utf8check host field size = Some FDS_OK
   <-> utf8_valid (take size field))
  /\ (fds_string_utf8check host field size = Some FDS_OK
      \/ fds_string_utf8check host field size = Some FDS_ERR_ARG).
Proof.
  intros Hl.
  assert (S := utf8check_loop_sound host field size Hl size 0%nat
                 ltac:(lia) ltac:(lia)).
  rewrite Nat.sub_0_r, drop_0 in S.
  fold (fds_string_utf8check host field size) in S.
  split; [split|].
  - intros Hok. destruct S as [Harg|[_ Hv]]; [|assumption].
    rewrite Hok in Harg. discriminate Harg.
  - intros Hv.
    pose proof (utf8check_valid host (take size field) (drop size field) Hv)
      as V.
    rewrite take_drop, length_take in V.
    now replace (size `min` length field)%nat with size in V by lia.
  - destruct S as [Harg|[Hok _]]; auto.
Qed.

Lemma utf8check_exact_witness :
  (2 <= length [Byte.xc3; Byte.xa9; Byte.xff])%nat
  /\ (fds_string_utf8check LittleEndian [Byte.xc3; Byte.xa9; Byte.xff] 2
      = Some FDS_OK
      <-> utf8_valid (take 2 [Byte.xc3; Byte.xa9; Byte.xff])).
Proof.
  assert (H1 : (2 <= length [Byte.xc3; Byte.xa9; Byte.xff])%nat)
    by (simpl; lia).
  split; [exact H1|].
  exact (proj1 (utf8check_exact LittleEndian [Byte.xc3; Byte.xa9; Byte.xff]
                  2 H1)).
Defined.

(** ** The escaper and the validator read the first [size] bytes only *)

Lemma utf8_len_agree a b len :
  (0 < len)%nat ->
  (forall i, (i < len)%nat -> mem_read a i = mem_read b i) ->
  utf8_len a len = utf8_len b len.
Proof.
  intros Hpos H. unfold utf8_len. cbv zeta. rewrite (H 0%nat) by lia.
  destruct (Nat.leb_spec 2 len); [rewrite (H 1%nat) by lia|];
    (destruct (Nat.leb_spec 3 len); [rewrite (H 2%nat) by lia|]);
    (destruct (Nat.leb_spec 4 len); [rewrite (H 3%nat) by lia|]);
    rewrite ?andb_false_r; try reflexivity; lia.
Qed.

Lemma load_bytes_agree a b n :
  (forall i, (i < n)%nat -> mem_read a i = mem_read b i) ->
  load_bytes a n = load_bytes b n.
Proof.
  intros H. unfold load_bytes. apply map_ext_in.
  intros i Hi. apply in_seq in Hi. apply H. lia.
Qed.

Section Locality.
Variable host : byte_order.

(** The step of a pass stays inside the input. *)
Lemma string2str_body_positions field size str_size pos_in pos_copy pos_out
    out :
  (pos_copy <= pos_in < size)%nat ->
  match string2str_body host field size str_size pos_in pos_copy pos_out out
  with
  | Continue pos_in' pos_copy' _ _ =>
      (pos_copy' <= pos_in' <= size)%nat /\ (pos_in < pos_in')%nat
  | Return _ _ => True
  end.
Proof.
  intros Hpos. unfold string2str_body. cbv zeta.
  rewrite utf8char_is_valid_len.
  set (k := utf8_len (drop pos_in field) (size - pos_in)).
  pose proof (utf8_len_bound (drop pos_in field) (size - pos_in)) as [_ Hk].
  fold k in Hk.
  set (step := if Z.of_nat k >? 0 then Z.to_nat (Z.of_nat k) else 1%nat).
  assert (Hstep : (0 < step <= size - pos_in)%nat).
  { subst step. destruct (Z.gtb_spec (Z.of_nat k) 0); rewrite ?Nat2Z.id; lia. }
  clearbody step. clearbody k.
  repeat match goal with
  | |- context [match ?c with _ => _ end] =>
      lazymatch type of c with
      | iteration => fail
      | _ => destruct c
      end
  end; try exact I; lia.
Qed.

Lemma string2str_body_local field field' size str_size pos_in pos_copy
    pos_out out :
  (forall i, (i < size)%nat -> mem_read field i = mem_read field' i) ->
  (pos_copy <= pos_in < size)%nat ->
  string2str_body host field size str_size pos_in pos_copy pos_out out
  = string2str_body host field' size str_size pos_in pos_copy pos_out out.
Proof.
  intros H Hpos. unfold string2str_body. cbv zeta.
  rewrite !utf8char_is_valid_len.
  assert (E0 : mem_read (drop pos_in field) 0 = mem_read (drop pos_in field') 0).
  { rewrite !mem_read_drop. apply H. lia. }
  assert (Ek : utf8_len (drop pos_in field) (size - pos_in)
               = utf8_len (drop pos_in field') (size - pos_in)).
  { apply utf8_len_agree; [lia|]. intros i Hi. rewrite !mem_read_drop.
    apply H. lia. }
  assert (El : load_bytes (drop pos_copy field) (pos_in - pos_copy)
               = load_bytes (drop pos_copy field') (pos_in - pos_copy)).
  { apply load_bytes_agree. intros i Hi. rewrite !mem_read_drop.
    apply H. lia. }
  unfold utf8char_is_escapable, utf8char_is_control, memcpy.
  now rewrite E0, Ek, El.
Qed.

Lemma string2str_loop_local field field' size str_size :
  (forall i, (i < size)%nat -> mem_read field i = mem_read field' i) ->
  forall fuel pos_in pos_copy pos_out out,
    (pos_copy <= pos_in <= size)%nat ->
    string2str_loop host fuel field size str_size pos_in pos_copy pos_out out
    = string2str_loop host fuel field' size str_size pos_in pos_copy pos_out
        out.
Proof.
  intros H fuel.
  induction fuel as [|fuel IH]; intros pos_in pos_copy pos_out out Hpos;
    cbn [string2str_loop]; destruct (Nat.ltb_spec pos_in size) as [Hlt|Hge];
    try reflexivity.
  - unfold memcpy. f_equal.
    rewrite (load_bytes_agree (drop pos_copy field) (drop pos_copy field'));
      [reflexivity|].
    intros i Hi. rewrite !mem_read_drop. apply H. lia.
  - rewrite <- (string2str_body_local field field') by (assumption || lia).
    pose proof (string2str_body_positions field size str_size pos_in
                  pos_copy pos_out out ltac:(lia)) as P.
    destruct (string2str_body host field size str_size pos_in pos_copy
                pos_out out); [|reflexivity].
    apply IH. lia.
  - unfold memcpy.
    rewrite (load_bytes_agree (drop pos_copy field) (drop pos_copy field'));
      [reflexivity|].
    intros i Hi. rewrite !mem_read_drop. apply H. lia.
Qed.

Lemma fds_string2str_local field field' size str str_size :
  (forall i, (i < size)%nat -> mem_read field i = mem_read field' i) ->
  fds_string2str host field size str str_size
  = fds_string2str host field' size str str_size.
Proof.
  intros H. unfold fds_string2str. destruct (_ <? _)%nat; [reflexivity|].
  apply string2str_loop_local; [assumption|lia].
Qed.

Lemma utf8check_loop_local field field' size :
  (forall i, (i < size)%nat -> mem_read field i = mem_read field' i) ->
  forall fuel idx,
    utf8check_loop host fuel field size idx
    = utf8check_loop host fuel field' size idx.
Proof.
  intros H fuel.
  induction fuel as [|fuel IH]; intros idx; cbn [utf8check_loop];
    destruct (Nat.ltb_spec idx size) as [Hlt|Hge]; try reflexivity.
  rewrite !utf8char_is_valid_len.
  rewrite (utf8_len_agree (drop idx field) (drop idx field')).
  - destruct (_ =? 0); [reflexivity|apply IH].
  - lia.
  - intros i Hi. rewrite !mem_read_drop. apply H. lia.
Qed.

Lemma fds_string2str_take field size str str_size :
  fds_string2str host field size str str_size
  = fds_string2str host (take size field) size str str_size.
Proof.
  apply fds_string2str_local. intros i Hi. symmetry.
  now apply mem_read_take.
Qed.

End Locality.

(** X19. [fds_string2str] and [fds_string_utf8check] read the first
    [size] bytes of the field and nothing after them: two fields that
    agree there give the same results, also when the last bytes look
    like the start of a longer character. *)
Theorem string_reads_bounded (host : byte_order) (field field' : list byte)
    (size : nat) (str : list byte) (str_size : nat) :
  (forall i, (i < size)%nat -> mem_read field i = mem_read field' i) ->
  fds_string2str host field size str str_size
  = fds_string2str host field' size str str_size
  /\ fds_string_utf8check host field size
     = fds_string_utf8check host field' size.
Proof.
  intros H. split.
  - now apply fds_string2str_local.
  - now apply utf8check_loop_local.
Qed.

Lemma string_reads_bounded_witness :
  (forall i, (i < 1)%nat ->
     mem_read [Byte.xc3; Byte.xa9] i = mem_read [Byte.xc3; Byte.x41] i)
  /\ fds_string2str LittleEndian [Byte.xc3; Byte.xa9] 1 (repeat Byte.x00 8) 8
     = fds_string2str LittleEndian [Byte.xc3; Byte.x41] 1 (repeat Byte.x00 8)
         8
  /\ fds_string_utf8check LittleEndian [Byte.xc3; Byte.xa9] 1
     = fds_string_utf8check LittleEndian [Byte.xc3; Byte.x41] 1.
Proof.
  assert (H1 : forall i, (i < 1)%nat ->
            mem_read [Byte.xc3; Byte.xa9] i = mem_read [Byte.xc3; Byte.x41] i).
  { intros i Hi. destruct i; [reflexivity|lia]. }
  split; [exact H1|].
  exact (string_reads_bounded LittleEndian [Byte.xc3; Byte.xa9]
           [Byte.xc3; Byte.x41] 1 (repeat Byte.x00 8) 8 H1).
Defined.

(** ** Text functions and the byte order of the host *)

Lemma string2str_body_host field size str_size pos_in pos_copy pos_out out :
  string2str_body LittleEndian field size str_size pos_in pos_copy pos_out out
  = string2str_body BigEndian field size str_size pos_in pos_copy pos_out out.
Proof.
  unfold string2str_body. now rewrite !utf8char_is_valid_len.
Qed.

Lemma string2str_loop_host field size str_size :
  forall fuel pos_in pos_copy pos_out out,
    string2str_loop LittleEndian fuel field size str_size
      pos_in pos_copy pos_out out
    = string2str_loop BigEndian fuel field size str_size
        pos_in pos_copy pos_out out.
Proof.
  induction fuel as [|fuel IH]; intros pos_in pos_copy pos_out out;
    cbn [string2str_loop]; [reflexivity|].
  rewrite string2str_body_host.
  destruct (string2str_body BigEndian field size str_size pos_in pos_copy
              pos_out out); now rewrite ?IH.
Qed.

Lemma utf8check_loop_host field size :
  forall fuel idx,
    utf8check_loop LittleEndian fuel field size idx
    = utf8check_loop BigEndian fuel field size idx.
Proof.
  induction fuel as [|fuel IH]; intros idx; cbn [utf8check_loop];
    [reflexivity|].
  rewrite !utf8char_is_valid_len. now rewrite IH.
Qed.

(** X20. The results of [fds_string2str] and [fds_string_utf8check] do
    not depend on the byte order of the host, although the validation of
    a character reads its continuation bytes as 16- and 32-bit words. *)
Theorem string_host_independent (host host' : byte_order)
    (field : list byte) (size : nat) (str : list byte) (str_size : nat) :
  fds_string2str host field size str str_size
  = fds_string2str host' field size str str_size
  /\ fds_string_utf8check host field size
     = fds_string_utf8check host' field size.
Proof.
  unfold fds_string2str, fds_string_utf8check.
  pose proof (string2str_loop_host field size str_size size 0%nat 0%nat
                0%nat str) as L.
  pose proof (utf8check_loop_host field size size 0%nat) as C.
  destruct host, host'; rewrite ?L, ?C; auto.
Qed.

(** ** The text the escaper produces *)

Lemma replacement_length str text :
  replacement str = Some text -> (2 <= length text <= 4)%nat.
Proof.
  unfold replacement. cbv zeta.
  destruct (utf8char_is_escapable _ _); [intros [= <-]; cbn; lia|].
  destruct (utf8char_is_control _ _); [intros [= <-]; cbn; lia|].
  destruct (_ =? _)%nat; [intros [= <-]; cbn; lia|discriminate].
Qed.

Lemma replacement_none str :
  replacement str = None ->
  utf8char_is_escapable str (length str) = None
  /\ utf8char_is_control str (length str) = false
  /\ (0 < utf8_len str (length str))%nat.
Proof.
  unfold replacement. cbv zeta.
  destruct (utf8char_is_escapable _ _); [discriminate|].
  destruct (utf8char_is_control _ _); [discriminate|].
  destruct (Nat.eqb_spec (utf8_len str (length str)) 0); [discriminate|].
  intros _. repeat split. lia.
Qed.

Lemma utf8_len_le_length str :
  str <> [] -> (utf8_len str (length str) <= length str)%nat.
Proof.
  intros Hne. pose proof (utf8_len_bound str (length str)) as [_ H].
  destruct str; [congruence|]. cbn [length] in *. lia.
Qed.

Lemma escape_text_fuel : forall f1 f2 str,
  (length str <= f1)%nat -> (length str <= f2)%nat ->
  escape_text f1 str = escape_text f2 str.
Proof.
  induction f1 as [|f1 IH]; intros f2 str H1 H2.
  - destruct str; [|cbn in H1; lia]. now destruct f2.
  - destruct f2 as [|f2]; [destruct str; [reflexivity|cbn in H2; lia]|].
    cbn [escape_text]. destruct str as [|b str]; [reflexivity|].
    destruct (replacement (b :: str)) eqn:R.
    + f_equal. apply IH; rewrite length_drop; cbn [length] in *; lia.
    + apply replacement_none in R as (_ & _ & Hk). cbv zeta. f_equal.
      apply IH; rewrite length_drop; cbn [length] in *; lia.
Qed.

Lemma escaped_nil : escaped [] = [].
Proof. reflexivity. Qed.

Lemma escaped_unfold str :
  str <> [] ->
  escaped str
  = match replacement str with
    | Some text => text ++ escaped (drop 1 str)
    | None =>
        take (utf8_len str (length str)) str
        ++ escaped (drop (utf8_len str (length str)) str)
    end.
Proof.
  intros Hne. unfold escaped at 1. destruct str as [|b str]; [congruence|].
  cbn [length escape_text]. destruct (replacement (b :: str)) eqn:R.
  - f_equal; try (apply escape_text_fuel; rewrite length_drop;
                  cbn [length]; lia).
  - apply replacement_none in R as (_ & _ & Hk). cbv zeta.
    f_equal; try (apply escape_text_fuel; rewrite length_drop;
                  cbn [length] in *; lia).
Qed.

(** Escaping never shortens a text and at most quadruples it. *)
Lemma escaped_length str :
  (length str <= length (escaped str) <= 4 * length str)%nat.
Proof.
  assert (H : forall n str, (length str <= n)%nat ->
            (length str <= length (escaped str) <= 4 * length str)%nat).
  { clear str. induction n as [|n IH]; intros str Hn;
      (destruct str as [|b str]; [cbn; lia|]); [cbn in Hn; lia|].
    rewrite escaped_unfold by congruence.
    destruct (replacement (b :: str)) eqn:R.
    - apply replacement_length in R.
      specialize (IH (drop 1 (b :: str))).
      rewrite length_drop in IH. rewrite length_app.
      cbn [length] in *. lia.
    - apply replacement_none in R as (_ & _ & Hk).
      pose proof (utf8_len_le_length (b :: str) ltac:(congruence)) as Hle.
      set (k := utf8_len (b :: str) (length (b :: str))) in *.
      specialize (IH (drop k (b :: str))).
      rewrite length_drop in IH.
      rewrite length_app, length_take. cbn [length] in *. lia. }
  now apply (H (length str)).
Qed.

(** *** Plain text is left alone *)

Lemma not_control_not_escapable str len :
  utf8char_is_control str len = false ->
  utf8char_is_escapable str len = None.
Proof.
  unfold utf8char_is_control, utf8char_is_escapable.
  generalize (mem_read str 0). intros b.
  destruct b; vm_compute; intros H; try discriminate H; reflexivity.
Qed.

Lemma control_first_byte str len str' len' :
  mem_read str' 0 = mem_read str 0 ->
  utf8char_is_control str' len' = utf8char_is_control str len.
Proof. unfold utf8char_is_control. now intros ->. Qed.

Lemma replacement_plain_char c rest :
  (0 < length c)%nat -> utf8_len c (length c) = length c ->
  utf8char_is_control c (length c) = false ->
  replacement (c ++ rest) = None
  /\ utf8_len (c ++ rest) (length (c ++ rest)) = length c.
Proof.
  intros Hpos Hc Hctl.
  assert (Hk : utf8_len (c ++ rest) (length (c ++ rest)) = length c)
    by (apply utf8_len_app; rewrite ?length_app; (assumption || lia)).
  split; [|assumption].
  assert (Hctl' : utf8char_is_control (c ++ rest) (length (c ++ rest)) = false).
  { rewrite <- Hctl. apply control_first_byte. now apply mem_read_app_l. }
  unfold replacement. cbv zeta.
  rewrite (not_control_not_escapable _ _ Hctl'), Hctl', Hk.
  destruct (Nat.eqb_spec (length c) 0); [lia|reflexivity].
Qed.

Lemma escaped_plain str : utf8_plain str -> escaped str = str.
Proof.
  induction 1 as [|c rest Hpos Hc Hctl Hrest IH]; [reflexivity|].
  destruct (replacement_plain_char c rest Hpos Hc Hctl) as [R K].
  rewrite escaped_unfold by (destruct c; [cbn in Hpos; lia|discriminate]).
  rewrite R, K. rewrite take_app_length, drop_app_length. now rewrite IH.
Qed.

Lemma utf8_plain_app a b : utf8_plain a -> utf8_plain b -> utf8_plain (a ++ b).
Proof.
  induction 1 as [|c rest Hpos Hc Hctl Hrest IH]; intros Hb; [assumption|].
  rewrite <- app_assoc. constructor; auto.
Qed.

Lemma utf8_plain_one c :
  (0 < length c)%nat -> utf8_len c (length c) = length c ->
  utf8char_is_control c (length c) = false -> utf8_plain c.
Proof.
  intros Hpos Hc Hctl. rewrite <- (app_nil_r c). constructor; auto.
  constructor.
Qed.

(** Printable ASCII, the quotation mark and the backslash included. *)
Lemma utf8_plain_ascii l :
  Forall (fun b => 0x20 <= byte.unsigned b < 0x7F) l -> utf8_plain l.
Proof.
  induction 1 as [|b l Hb Hl IH]; [constructor|].
  change (b :: l) with ([b] ++ l).
  assert (Hbb : (0x20 <=? byte.unsigned b) && (byte.unsigned b <? 0x7F)
                = true).
  { apply andb_true_intro. split; [apply Z.leb_le|apply Z.ltb_lt]; lia. }
  clear Hb.
  constructor; [cbn; lia| | |assumption];
    unfold utf8_len, utf8char_is_control; cbv zeta;
    change (mem_read [b] 0) with b;
    revert Hbb; destruct b; vm_compute; intros Hbb;
    try discriminate Hbb; reflexivity.
Qed.

Lemma replacement_is_plain str text :
  replacement str = Some text -> utf8_plain text.
Proof.
  unfold replacement. cbv zeta.
  destruct (utf8char_is_escapable str (length str)) as [subst|] eqn:E.
  - intros [= <-]. apply utf8_plain_ascii.
    revert E. unfold utf8char_is_escapable. generalize (mem_read str 0).
    intros b E.
    assert (Hs : (0x20 <=? byte.unsigned subst)
                 && (byte.unsigned subst <? 0x7F) = true).
    { revert E. destruct b; vm_compute; intros E; try discriminate E;
        injection E as <-; reflexivity. }
    apply andb_prop in Hs as [H1 H2]. apply Z.leb_le in H1.
    apply Z.ltb_lt in H2. repeat constructor; (cbv; congruence) || lia.
  - destruct (utf8char_is_control str (length str)).
    + intros [= <-]. apply utf8_plain_ascii.
      generalize (mem_read str 0). intros b.
      assert (Hh : forall d, 0 <= d < 16 ->
                0x20 <= byte.unsigned (hex_upper d) < 0x7F).
      { intros d Hd.
        assert (Hd' : d = Z.of_nat (Z.to_nat d)) by lia.
        assert (Hn : (Z.to_nat d < 16)%nat) by lia.
        rewrite Hd'. revert Hn. generalize (Z.to_nat d). intros n Hn.
        do 16 (destruct n as [|n]; [vm_compute; split; congruence|]). lia. }
      pose proof (byte.unsigned_range b) as Rb.
      repeat constructor; try (cbv; congruence);
        apply Hh; Z.div_mod_to_equations; lia.
    + destruct (_ =? _)%nat; [|discriminate]. intros [= <-].
      apply utf8_plain_one; [cbn; lia|reflexivity|reflexivity].
Qed.

Lemma kept_is_plain str :
  str <> [] -> replacement str = None ->
  utf8_plain (take (utf8_len str (length str)) str).
Proof.
  intros Hne R. apply replacement_none in R as (_ & Hctl & Hk).
  pose proof (utf8_len_le_length str Hne) as Hle.
  destruct (utf8_len_take str (length str) Hk Hle) as [L C].
  apply utf8_plain_one; [lia|assumption|].
  rewrite <- Hctl. apply control_first_byte. apply mem_read_take. lia.
Qed.

(** What the escaper produces is plain, so escaping it again changes
    nothing. *)
Lemma escaped_is_plain str : utf8_plain (escaped str).
Proof.
  assert (H : forall n str, (length str <= n)%nat -> utf8_plain (escaped str)).
  { clear str. induction n as [|n IH]; intros str Hn;
      (destruct str as [|b str]; [constructor|]); [cbn in Hn; lia|].
    rewrite escaped_unfold by congruence.
    destruct (replacement (b :: str)) eqn:R.
    - apply utf8_plain_app; [now apply replacement_is_plain in R|].
      apply IH. rewrite length_drop. cbn [length] in *. lia.
    - apply utf8_plain_app; [apply kept_is_plain; congruence|].
      pose proof (replacement_none _ R) as (_ & _ & Hk).
      apply IH. rewrite length_drop. cbn [length] in *. lia. }
  now apply (H (length str)).
Qed.

Lemma escaped_idempotent str : escaped (escaped str) = escaped str.
Proof. apply escaped_plain, escaped_is_plain. Qed.

(** ** The escaper computes the escaped text *)

Lemma drop_more {A} (a b : list A) n d :
  drop n a = drop n b -> drop (n + d) a = drop (n + d) b.
Proof. intros H. now rewrite <- !(drop_drop _ d n), H. Qed.

Section EscaperSpec.
Variable host : byte_order.

(** One pass of the loop against [replacement]. *)
Lemma string2str_body_spec field size str_size pos_in pos_copy pos_out out :
  length field = size ->
  (pos_copy <= pos_in < size)%nat ->
  (pos_out <= str_size <= length out)%nat ->
  let str := drop pos_in field in
  let copy_len := (pos_in - pos_copy)%nat in
  let pending := load_bytes (drop pos_copy field) copy_len in
  let body :=
    string2str_body host field size str_size pos_in pos_copy pos_out out in
  match replacement str with
  | None =>
      body = Continue (pos_in + utf8_len str (length str)) pos_copy pos_out out
  | Some text =>
      if (pos_out + copy_len + length text <=? str_size)%nat then
        exists out',
          body = Continue (pos_in + 1) (pos_in + 1)
                   (pos_out + copy_len + length text) out'
          /\ length out' = length out
          /\ take (pos_out + copy_len + length text) out'
             = take pos_out out ++ pending ++ text
          /\ drop (pos_out + copy_len + length text) out'
             = drop (pos_out + copy_len + length text) out
      else
        exists out',
          body = Return FDS_ERR_BUFFER out'
          /\ length out' = length out
          /\ drop str_size out' = drop str_size out
  end.
Proof.
  intros Hl Hin Hout str copy_len pending body.
  assert (Ls : length str = (size - pos_in)%nat)
    by (unfold str; rewrite length_drop; lia).
  subst body. unfold string2str_body. cbv zeta.
  rewrite utf8char_is_valid_len. fold str. rewrite <- Ls.
  unfold replacement. cbv zeta.
  set (k := utf8_len str (length str)).
  destruct (utf8char_is_escapable str (length str)) as [subst|] eqn:Hesc.
  - (* a backslash escape *)
    apply escapable_ascii in Hesc as [Hlead _].
    assert (Hk : k = 1%nat) by (unfold k; now apply utf8_len_lead_ascii).
    rewrite Hk. cbn [Z.of_nat Z.eqb negb andb bool_decide].
    change (Z.pos (Pos.of_succ_nat 0) >? 0) with true. cbv iota.
    replace (negb (Z.pos (Pos.of_succ_nat 0) =? 0)
             && negb (bool_decide (is_Some (Some subst)))) with false
      by reflexivity.
    cbn [andb length]. fold copy_len.
    destruct (Nat.ltb_spec (str_size - pos_out) copy_len) as [H1|H1].
    { destruct (Nat.leb_spec (pos_out + copy_len + 2) str_size); [lia|].
      exists out. auto. }
    destruct (Nat.ltb_spec (str_size - pos_out - copy_len) 2) as [H2|H2].
    { destruct (Nat.leb_spec (pos_out + copy_len + 2) str_size); [lia|].
      eexists. split; [reflexivity|].
      rewrite memcpy_length, drop_memcpy by lia. auto. }
    destruct (Nat.leb_spec (pos_out + copy_len + 2) str_size); [|lia].
    eexists. split; [reflexivity|].
    rewrite !mem_write_length, memcpy_length.
    rewrite take_write2 by (rewrite memcpy_length; lia).
    rewrite take_memcpy by lia.
    rewrite !drop_mem_write_lt by lia. rewrite drop_memcpy by lia.
    rewrite <- app_assoc. auto.
  - destruct (utf8char_is_control str (length str)) eqn:Hctl.
    + (* a hexadecimal escape *)
      assert (Hstep : (if Z.of_nat k >? 0 then Z.to_nat (Z.of_nat k)
                       else 1%nat) = 1%nat).
      { apply control_lead in Hctl as [Hlead|Hlead].
        - unfold k. now rewrite (utf8_len_lead_ascii _ _ Hlead).
        - unfold k. now rewrite (utf8_len_lead_none _ _ Hlead). }
      rewrite Hstep. rewrite andb_false_r. cbn [length]. fold copy_len.
      destruct (Nat.ltb_spec (str_size - pos_out) copy_len) as [H1|H1].
      { destruct (Nat.leb_spec (pos_out + copy_len + 4) str_size); [lia|].
        exists out. auto. }
      destruct (Nat.ltb_spec (str_size - pos_out - copy_len) 4) as [H2|H2].
      { destruct (Nat.leb_spec (pos_out + copy_len + 4) str_size); [lia|].
        eexists. split; [reflexivity|].
        rewrite memcpy_length, drop_memcpy by lia. auto. }
      destruct (Nat.leb_spec (pos_out + copy_len + 4) str_size); [|lia].
      eexists. split; [reflexivity|].
      rewrite !mem_write_length, memcpy_length.
      rewrite take_write4 by (rewrite memcpy_length; lia).
      rewrite take_memcpy by lia.
      rewrite !drop_mem_write_lt by lia. rewrite drop_memcpy by lia.
      rewrite hex_char_hi, hex_char_lo.
      rewrite <- app_assoc. auto.
    + destruct (Nat.eqb_spec k 0) as [Hk|Hk].
      * (* the replacement character *)
        rewrite Hk. cbn [Z.of_nat Z.eqb negb andb Z.gtb Z.compare length].
        fold copy_len.
        destruct (Nat.ltb_spec (str_size - pos_out) copy_len) as [H1|H1].
        { destruct (Nat.leb_spec (pos_out + copy_len + 3) str_size); [lia|].
          exists out. auto. }
        destruct (Nat.ltb_spec (str_size - pos_out - copy_len) 3) as [H2|H2].
        { destruct (Nat.leb_spec (pos_out + copy_len + 3) str_size); [lia|].
          eexists. split; [reflexivity|].
          rewrite memcpy_length, drop_memcpy by lia. auto. }
        destruct (Nat.leb_spec (pos_out + copy_len + 3) str_size); [|lia].
        eexists. split; [reflexivity|].
        rewrite !mem_write_length, memcpy_length.
        rewrite take_write3 by (rewrite memcpy_length; lia).
        rewrite take_memcpy by lia.
        rewrite !drop_mem_write_lt by lia. rewrite drop_memcpy by lia.
        rewrite <- app_assoc. auto.
      * (* the character is copied later *)
        destruct (Z.eqb_spec (Z.of_nat k) 0); [lia|].
        destruct (Z.gtb_spec (Z.of_nat k) 0); [|lia].
        cbn [negb andb bool_decide]. rewrite Nat2Z.id.
        replace (bool_decide (is_Some (@None byte))) with false
          by reflexivity.
        reflexivity.
Qed.

(** The loop, started anywhere: what is already written, what waits to
    be copied and the escaped rest make up the text. *)
Lemma string2str_loop_text field size str str_size :
  length field = size -> (str_size <= length str)%nat ->
  forall fuel pos_in pos_copy pos_out out,
    (size - pos_in <= fuel)%nat -> (pos_copy <= pos_in <= size)%nat ->
    (pos_out <= str_size)%nat -> length out = length str ->
    drop pos_out out = drop pos_out str ->
    let text :=
      take pos_out out
      ++ load_bytes (drop pos_copy field) (pos_in - pos_copy)
      ++ escaped (drop pos_in field) in
    if (length text + 1 <=? str_size)%nat then
      string2str_loop host fuel field size str_size
        pos_in pos_copy pos_out out
      = Some (to_int32 (Z.of_nat (length text)),
              text ++ [Byte.x00] ++ drop (length text + 1) str)
    else
      exists out',
        string2str_loop host fuel field size str_size
          pos_in pos_copy pos_out out = Some (FDS_ERR_BUFFER, out')
        /\ length out' = length str
        /\ drop str_size out' = drop str_size str.
Proof.
  intros Hl Hs fuel.
  induction fuel as [|fuel IH];
    intros pos_in pos_copy pos_out out Hfuel Hin Hout Hlen Hdrop text.
  all: assert (Hfinal : pos_in = size ->
    if (length text + 1 <=? str_size)%nat then
      (let copy_len := (size - pos_copy)%nat in
       let out_remaining := (str_size - pos_out)%nat in
       if (out_remaining <? copy_len + 1)%nat
       then Some (FDS_ERR_BUFFER, out)
       else
         let ptr_out := memcpy out pos_out (drop pos_copy field) copy_len in
         let pos_out := (pos_out + copy_len)%nat in
         let ptr_out := mem_write ptr_out pos_out Byte.x00 in
         Some (to_int32 (Z.of_nat pos_out), ptr_out))
      = Some (to_int32 (Z.of_nat (length text)),
              text ++ [Byte.x00] ++ drop (length text + 1) str)
    else
      exists out',
        (let copy_len := (size - pos_copy)%nat in
         let out_remaining := (str_size - pos_out)%nat in
         if (out_remaining <? copy_len + 1)%nat
         then Some (FDS_ERR_BUFFER, out)
         else
           let ptr_out := memcpy out pos_out (drop pos_copy field) copy_len in
           let pos_out := (pos_out + copy_len)%nat in
           let ptr_out := mem_write ptr_out pos_out Byte.x00 in
           Some (to_int32 (Z.of_nat pos_out), ptr_out))
        = Some (FDS_ERR_BUFFER, out')
        /\ length out' = length str
        /\ drop str_size out' = drop str_size str).
  1,3: intros ->; cbv zeta;
    assert (Et : text = take pos_out out
                        ++ load_bytes (drop pos_copy field) (size - pos_copy))
      by (unfold text; rewrite (drop_ge field size) by lia;
          now rewrite escaped_nil, app_nil_r);
    assert (Lt : length text = (pos_out + (size - pos_copy))%nat)
      by (rewrite Et, length_app, length_take, load_bytes_length; lia);
    rewrite Lt;
    destruct (Nat.leb_spec (pos_out + (size - pos_copy) + 1) str_size);
    destruct (Nat.ltb_spec (str_size - pos_out) (size - pos_copy + 1));
    try lia;
    [ f_equal; f_equal;
      [ rewrite <- (take_drop (pos_out + (size - pos_copy) + 1)
                      (mem_write _ _ _));
        rewrite take_mem_write by (rewrite memcpy_length; lia);
        rewrite take_memcpy by lia;
        rewrite drop_mem_write_lt by lia;
        rewrite drop_memcpy by lia;
        rewrite <- Et, <- app_assoc; cbn [app]; do 2 f_equal;
        replace (pos_out + (size - pos_copy) + 1)%nat
          with (pos_out + (size - pos_copy + 1))%nat by lia;
        now apply drop_more ]
    | exists out; split; [reflexivity|]; split; [assumption|];
      replace str_size with (pos_out + (str_size - pos_out))%nat by lia;
      now apply drop_more ].
  - (* no fuel left: the loop has already ended *)
    cbn [string2str_loop].
    destruct (Nat.ltb_spec pos_in size) as [Hlt|Hge]; [lia|].
    apply Hfinal. lia.
  - cbn [string2str_loop].
    destruct (Nat.ltb_spec pos_in size) as [Hlt|Hge]; [|apply Hfinal; lia].
    clear Hfinal.
    pose proof (string2str_body_spec field size str_size pos_in pos_copy
                  pos_out out Hl ltac:(lia) ltac:(lia)) as B.
    cbv zeta in B.
    assert (Hne : drop pos_in field <> []).
    { intros E. apply (f_equal length) in E. rewrite length_drop in E.
      cbn in E. lia. }
    assert (Eu := escaped_unfold (drop pos_in field) Hne).
    destruct (replacement (drop pos_in field)) as [rep|] eqn:R.
    + (* the character is replaced *)
      pose proof (replacement_length _ _ R) as Lr.
      assert (Lt : length text
                   = (pos_out + (pos_in - pos_copy) + length rep
                      + length (escaped (drop (pos_in + 1) field)))%nat).
      { unfold text. rewrite Eu, !length_app, length_take,
          load_bytes_length, drop_drop. lia. }
      destruct (Nat.leb_spec (pos_out + (pos_in - pos_copy) + length rep)
                  str_size) as [Hfit|Hfull].
      * destruct B as (out' & -> & Lo & To & Do).
        specialize (IH (pos_in + 1)%nat (pos_in + 1)%nat
                      (pos_out + (pos_in - pos_copy) + length rep)%nat out'
                      ltac:(lia) ltac:(lia) Hfit ltac:(congruence)).
        cbv zeta in IH.
        rewrite To, Nat.sub_diag, load_bytes_nil_r in IH. cbn [app] in IH.
        replace ((take pos_out out
                  ++ load_bytes (drop pos_copy field) (pos_in - pos_copy)
                  ++ rep) ++ escaped (drop (pos_in + 1) field))
          with text in IH
          by (unfold text; rewrite Eu, drop_drop, <- !app_assoc;
              reflexivity).
        apply IH. rewrite Do, <- Nat.add_assoc. now apply drop_more.
      * destruct B as (out' & -> & Lo & Do).
        destruct (Nat.leb_spec (length text + 1) str_size); [lia|].
        exists out'. split; [reflexivity|]. split; [congruence|].
        rewrite Do. replace str_size with (pos_out + (str_size - pos_out))%nat
          by lia. now apply drop_more.
    + (* the character joins the pending ones *)
      rewrite B. clear B.
      pose proof (replacement_none _ R) as (_ & _ & Hk).
      pose proof (utf8_len_le_length _ Hne) as Hle.
      set (k := utf8_len (drop pos_in field) (length (drop pos_in field)))
        in *.
      rewrite length_drop in Hle.
      specialize (IH (pos_in + k)%nat pos_copy pos_out out
                    ltac:(lia) ltac:(lia) Hout Hlen Hdrop).
      cbv zeta in IH.
      replace (take pos_out out
               ++ load_bytes (drop pos_copy field) (pos_in + k - pos_copy)
               ++ escaped (drop (pos_in + k) field))
        with text in IH; [exact IH|].
      unfold text. rewrite Eu. fold k. rewrite drop_drop. f_equal.
      replace (pos_in + k - pos_copy)%nat
        with ((pos_in - pos_copy) + k)%nat by lia.
      rewrite load_bytes_add, drop_drop, <- app_assoc. do 2 f_equal.
      replace (pos_copy + (pos_in - pos_copy))%nat with pos_in by lia.
      now rewrite load_bytes_take by (rewrite length_drop; lia).
Qed.

(** The whole call.  The result is the length of the text as the [int]
    the function returns. *)
Lemma fds_string2str_text field size str str_size :
  (size <= length field)%nat -> (str_size <= length str)%nat ->
  let text := escaped (take size field) in
  if (length text + 1 <=? str_size)%nat then
    fds_string2str host field size str str_size
    = Some (to_int32 (Z.of_nat (length text)),
            text ++ [Byte.x00] ++ drop (length text + 1) str)
  else
    exists out',
      fds_string2str host field size str str_size
      = Some (FDS_ERR_BUFFER, out')
      /\ length out' = length str
      /\ drop str_size out' = drop str_size str.
Proof.
  intros Hl Hs text. rewrite fds_string2str_take.
  assert (Lf : length (take size field) = size)
    by (rewrite length_take; lia).
  pose proof (escaped_length (take size field)) as Le.
  rewrite Lf in Le. fold text in Le.
  unfold fds_string2str.
  destruct (Nat.ltb_spec str_size (size + 1)) as [Hsmall|Hbig].
  - destruct (Nat.leb_spec (length text + 1) str_size); [lia|].
    exists str. auto.
  - pose proof (string2str_loop_text (take size field) size str str_size
                  Lf Hs size 0%nat 0%nat 0%nat str
                  ltac:(lia) ltac:(lia) ltac:(lia) eq_refl eq_refl) as L.
    cbv zeta in L. rewrite Nat.sub_0_r in L.
    rewrite load_bytes_nil_r, !drop_0 in L. cbn [take app] in L.
    exact L.
Qed.


End EscaperSpec.

Section EscaperResults.
Variable host : byte_order.



End EscaperResults.









(** ** No control byte in the output *)







(** ** A text longer than the result can count *)




Section LongText.
Variable host : byte_order.



End LongText.


(** ** Where the characters of an input start *)

Section CharStart.
Variable host : byte_order.

Lemma char_step_len field size p :
  char_step host field size p
  = if (0 <? utf8_len (drop p field) (size - p))%nat
    then utf8_len (drop p field) (size - p) else 1%nat.
Proof.
  unfold char_step. cbv zeta. rewrite utf8char_is_valid_len.
  destruct (Z.gtb_spec (Z.of_nat (utf8_len (drop p field) (size - p))) 0),
    (Nat.ltb_spec 0 (utf8_len (drop p field) (size - p)));
    rewrite ?Nat2Z.id; lia.
Qed.

Lemma char_step_bound field size p :
  (p < size)%nat -> (0 < char_step host field size p <= size - p)%nat.
Proof.
  intros Hp. rewrite char_step_len.
  pose proof (utf8_len_bound (drop p field) (size - p)) as [_ H].
  destruct (Nat.ltb_spec 0 (utf8_len (drop p field) (size - p))); lia.
Qed.

Lemma char_step_take field size p :
  (p < size)%nat ->
  char_step host (take size field) size p = char_step host field size p.
Proof.
  intros Hp. rewrite !char_step_len.
  rewrite (utf8_len_agree (drop p (take size field)) (drop p field));
    [reflexivity|lia|].
  intros i Hi. rewrite !mem_read_drop. apply mem_read_take. lia.
Qed.

Lemma char_start_take field size p :
  char_start host field size p -> char_start host (take size field) size p.
Proof.
  induction 1 as [|p Hp IH Hlt]; [constructor|].
  rewrite <- char_step_take by assumption. now constructor.
Qed.

Lemma char_start_le field size p :
  char_start host field size p -> (p <= size)%nat.
Proof.
  induction 1 as [|p Hp IH Hlt]; [lia|].
  pose proof (char_step_bound field size p Hlt). lia.
Qed.

(** The step at the front of a suffix. *)
Lemma char_step_drop l q p :
  char_step host (drop q l) (length (drop q l)) p
  = char_step host l (length l) (q + p).
Proof.
  unfold char_step. rewrite drop_drop, length_drop.
  replace (length l - q - p)%nat with (length l - (q + p))%nat by lia.
  reflexivity.
Qed.

(** A start other than 0 is a start of what follows the first
    character. *)
Lemma char_start_peel l p :
  char_start host l (length l) p ->
  p = 0%nat
  \/ (0 < length l)%nat
     /\ (char_step host l (length l) 0 <= p)%nat
     /\ char_start host (drop (char_step host l (length l) 0) l)
          (length (drop (char_step host l (length l) 0) l))
          (p - char_step host l (length l) 0).
Proof.
  set (s := char_step host l (length l) 0).
  induction 1 as [|p Hp IH Hlt]; [now left|]. right.
  destruct IH as [->|(Hl & Hs & Hrest)].
  - cbn [Nat.add]. fold s. split; [lia|]. split; [lia|].
    rewrite Nat.sub_diag. constructor.
  - split; [assumption|]. split; [lia|].
    replace (p + char_step host l (length l) p - s)%nat
      with ((p - s) + char_step host (drop s l) (length (drop s l)) (p - s))%nat.
    + constructor; [assumption|]. rewrite length_drop. lia.
    + rewrite char_step_drop. replace (s + (p - s))%nat with p by lia. lia.
Qed.

(** The first character of an input cut after it, or later, is the first
    character of the input. *)
Lemma first_char_take l m :
  (char_step host l (length l) 0 <= m <= length l)%nat ->
  utf8_len (take m l) (length (take m l)) = utf8_len l (length l)
  /\ replacement (take m l) = replacement l.
Proof.
  rewrite char_step_len, drop_0, Nat.sub_0_r. intros Hm.
  assert (Lm : length (take m l) = m) by (rewrite length_take; lia).
  assert (Hm1 : (1 <= m)%nat)
    by (destruct (0 <? utf8_len l (length l))%nat eqn:E;
        [apply Nat.ltb_lt in E|]; lia).
  assert (E0 : mem_read (take m l) 0 = mem_read l 0)
    by (apply mem_read_take; lia).
  assert (Ek : utf8_len (take m l) (length (take m l))
               = utf8_len l (length l)).
  { rewrite Lm.
    destruct (Nat.ltb_spec 0 (utf8_len l (length l))) as [Hk|Hk].
    - apply utf8_len_ext; [assumption| |lia].
      intros i Hi. apply mem_read_take. lia.
    - destruct (Nat.eq_dec (utf8_len (take m l) m) 0%nat) as [E|N]; [lia|].
      pose proof (utf8_len_bound (take m l) m) as [_ Hb].
      rewrite <- (utf8_len_ext (take m l) m l (length l)); try lia.
      intros i Hi. symmetry. apply mem_read_take. lia. }
  split; [assumption|].
  unfold replacement, utf8char_is_escapable, utf8char_is_control. cbv zeta.
  now rewrite E0, Ek.
Qed.

Lemma replacement_step l text :
  replacement l = Some text -> char_step host l (length l) 0 = 1%nat.
Proof.
  rewrite char_step_len, drop_0, Nat.sub_0_r.
  unfold replacement. cbv zeta.
  destruct (utf8char_is_escapable l (length l)) as [subst|] eqn:Hesc.
  - intros _. apply escapable_ascii in Hesc as [Hlead _].
    now rewrite (utf8_len_lead_ascii _ _ Hlead).
  - destruct (utf8char_is_control l (length l)) eqn:Hctl.
    + intros _. apply control_lead in Hctl as [Hlead|Hlead].
      * now rewrite (utf8_len_lead_ascii _ _ Hlead).
      * now rewrite (utf8_len_lead_none _ _ Hlead).
    + destruct (Nat.eqb_spec (utf8_len l (length l)) 0) as [->|];
        [reflexivity|discriminate].
Qed.

Lemma kept_step l :
  replacement l = None ->
  char_step host l (length l) 0 = utf8_len l (length l).
Proof.
  intros R. apply replacement_none in R as (_ & _ & Hk).
  rewrite char_step_len, drop_0, Nat.sub_0_r.
  destruct (Nat.ltb_spec 0 (utf8_len l (length l))); [reflexivity|lia].
Qed.

(** The text of an input is the text of what comes before a start,
    followed by the text of what comes from it on. *)
Lemma escaped_split : forall n l p,
  (length l <= n)%nat -> char_start host l (length l) p ->
  escaped l = escaped (take p l) ++ escaped (drop p l).
Proof.
  induction n as [|n IH]; intros l p Hn Hp.
  - destruct l; [|cbn in Hn; lia].
    now rewrite take_nil, drop_nil.
  - pose proof (char_start_le _ _ _ Hp) as Hle.
    destruct (char_start_peel l p Hp) as [->|(Hl & Hs & Hrest)];
      [now rewrite take_0, drop_0|].
    set (s := char_step host l (length l) 0) in *.
    pose proof (char_step_bound l (length l) 0%nat Hl) as Hs0. fold s in Hs0.
    assert (Hne : l <> []) by (destruct l; [cbn in Hl; lia|discriminate]).
    assert (Hne' : take p l <> []).
    { intros E. apply (f_equal length) in E. rewrite length_take in E.
      cbn in E. lia. }
    specialize (IH (drop s l) (p - s)%nat
                  ltac:(rewrite length_drop; lia) Hrest).
    rewrite drop_drop in IH. replace (s + (p - s))%nat with p in IH by lia.
    destruct (first_char_take l p ltac:(fold s; lia)) as [Ek Er].
    rewrite (escaped_unfold l Hne), (escaped_unfold (take p l) Hne').
    rewrite Er, Ek.
    destruct (replacement l) as [text|] eqn:R.
    + assert (s = 1%nat) as E1 by (unfold s; now apply replacement_step in R).
      rewrite E1 in IH. rewrite IH, <- app_assoc. do 3 f_equal.
      rewrite skipn_firstn_comm. reflexivity.
    + assert (s = utf8_len l (length l)) as Ek' by (unfold s; now apply kept_step).
      rewrite <- Ek'. rewrite IH, <- app_assoc.
      rewrite take_take, skipn_firstn_comm.
      replace (s `min` p)%nat with s by lia. reflexivity.
Qed.

(** A first byte in [0x80, 0x9F] is written as a hexadecimal escape. *)
Lemma replacement_c1 l :
  0x80 <= byte.unsigned (mem_read l 0) <= 0x9F ->
  replacement l
  = Some [Byte.x5c; Byte.x78; hex_upper (byte.unsigned (mem_read l 0) / 16);
          hex_upper (byte.unsigned (mem_read l 0) mod 16)].
Proof.
  intros Hb. destruct (c1_byte_class l (length l) Hb) as (_ & He & Hc).
  unfold replacement. cbv zeta. now rewrite He, Hc.
Qed.

Lemma escaped_c1_start field size p :
  (size <= length field)%nat -> char_start host field size p ->
  (p < size)%nat ->
  0x80 <= byte.unsigned (mem_read field p) <= 0x9F ->
  escaped (take size field)
  = escaped (take p field)
    ++ [Byte.x5c; Byte.x78;
        hex_upper (byte.unsigned (mem_read field p) / 16);
        hex_upper (byte.unsigned (mem_read field p) mod 16)]
    ++ escaped (drop (p + 1) (take size field)).
Proof.
  intros Hl Hp Hlt Hb.
  assert (Lf : length (take size field) = size)
    by (rewrite length_take; lia).
  pose proof (char_start_take _ _ _ Hp) as Hp'.
  rewrite <- Lf in Hp' at 2.
  rewrite (escaped_split (length (take size field)) (take size field) p
             ltac:(lia) Hp').
  rewrite take_take. replace (p `min` size)%nat with p by lia. f_equal.
  assert (E0 : mem_read (drop p (take size field)) 0 = mem_read field p).
  { rewrite mem_read_drop, Nat.add_0_r. apply mem_read_take. lia. }
  rewrite escaped_unfold.
  - rewrite replacement_c1 by (now rewrite E0).
    rewrite E0, drop_drop. reflexivity.
  - intros E. apply (f_equal length) in E. rewrite length_drop, Lf in E.
    cbn in E. lia.
Qed.

End CharStart.

(** C10. Wherever in the input a character starts, that is, at every
    value [pos_in] of the loop of [fds_string2str], with a byte in
    [0x80, 0x9F]: the loop moves on by exactly one byte, and the text
    the call produces is the text of the [pos_in] bytes before it, then
    the backslash, [x] and the two uppercase hexadecimal digits of the
    byte, then the text of the input after that one byte; the
    replacement character is not written for it.  The call returns this
    text whenever the buffer has room for it and its terminating zero,
    and [FDS_ERR_BUFFER] otherwise. *)
Theorem escaper_c1_control (host : byte_order) (field : list byte)
    (size : nat) (str : list byte) (str_size : nat) (pos_in : nat) :
  (size <= length field)%nat -> (str_size <= length str)%nat ->
  char_start host field size pos_in -> (pos_in < size)%nat ->
  0x80 <= byte.unsigned (mem_read field pos_in) <= 0x9F ->
  let c := byte.unsigned (mem_read field pos_in) in
  let text :=
    escaped (take pos_in field)
    ++ [Byte.x5c; Byte.x78; hex_upper (c / 16); hex_upper (c mod 16)]
    ++ escaped (drop (pos_in + 1) (take size field)) in
  char_step host field size pos_in = 1%nat
  /\ if (length text + 1 <=? str_size)%nat then
       fds_string2str host field size str str_size
       = Some (to_int32 (Z.of_nat (length text)),
               text ++ [Byte.x00] ++ drop (length text + 1) str)
     else
       exists out,
         fds_string2str host field size str str_size
         = Some (FDS_ERR_BUFFER, out).
Proof.
  intros Hl Hs Hp Hlt Hb c text. split.
  - rewrite char_step_len.
    assert (E0 : mem_read (drop pos_in field) 0 = mem_read field pos_in)
      by (rewrite mem_read_drop; f_equal; lia).
    rewrite <- E0 in Hb.
    destruct (c1_byte_class (drop pos_in field) (size - pos_in) Hb)
      as (-> & _ & _).
    reflexivity.
  - pose proof (fds_string2str_text host field size str str_size Hl Hs) as T.
    cbv zeta in T.
    rewrite (escaped_c1_start host field size pos_in Hl Hp Hlt Hb) in T.
    fold c in T. fold text in T.
    destruct (length text + 1 <=? str_size)%nat; [exact T|].
    destruct T as (out & T & _). now exists out.
Qed.

Lemma escaper_c1_control_witness :
  ((3 <= length [Byte.xc3; Byte.x85; Byte.x85])%nat
   /\ (8 <= length (repeat Byte.xaa 8))%nat
   /\ char_start LittleEndian [Byte.xc3; Byte.x85; Byte.x85] 3 2
   /\ (2 < 3)%nat
   /\ 0x80 <= byte.unsigned (mem_read [Byte.xc3; Byte.x85; Byte.x85] 2)
      <= 0x9F)
  /\ char_step LittleEndian [Byte.xc3; Byte.x85; Byte.x85] 3 2 = 1%nat
  /\ fds_string2str LittleEndian [Byte.xc3; Byte.x85; Byte.x85] 3
       (repeat Byte.xaa 8) 8
     = Some (6, [Byte.xc3; Byte.x85; Byte.x5c; Byte.x78; Byte.x38; Byte.x35;
                 Byte.x00; Byte.xaa]).
Proof.
  assert (H1 : (3 <= length [Byte.xc3; Byte.x85; Byte.x85])%nat)
    by (simpl; lia).
  assert (H2 : (8 <= length (repeat Byte.xaa 8))%nat) by (simpl; lia).
  assert (H3 : char_start LittleEndian [Byte.xc3; Byte.x85; Byte.x85] 3 2).
  { apply (char_start_next LittleEndian [Byte.xc3; Byte.x85; Byte.x85] 3 0);
      [apply char_start_first|lia]. }
  assert (H4 : (2 < 3)%nat) by lia.
  assert (H5 : 0x80 <= byte.unsigned
                         (mem_read [Byte.xc3; Byte.x85; Byte.x85] 2) <= 0x9F)
    by (vm_compute; split; discriminate).
  split; [exact (conj H1 (conj H2 (conj H3 (conj H4 H5))))|].
  exact (escaper_c1_control LittleEndian [Byte.xc3; Byte.x85; Byte.x85] 3
           (repeat Byte.xaa 8) 8 2 H1 H2 H3 H4 H5).
Defined.

